(** * data_migration: a shallow embedding of [migration.py]

    The development follows [src/data_migration/migration.py]: the
    descriptor builder [is_a], the class [Migration] with its class
    attributes and hooks, and the methods [migrate], [process_cursor],
    [process_cursor_for_update], [transform_row_dataset], [get_object],
    [create_m2ms], [migration_required] and [check_migration].

    Python exceptions are values of [Exc]; a method is a function in the
    state-and-error monad [M] over a [World] made of the target store, the
    ledger of applied migrations and a log of the calls the engine makes to
    its collaborators (hooks, the ORM, the legacy database, stdout). *)

From Stdlib Require Import String Ascii List ZArith Bool Lia Arith Permutation Relations.
Import ListNotations.
Open Scope string_scope.

Set Implicit Arguments.

(** ** Python values and strings *)

(** Values found in class attributes and in the cells of a legacy row. *)
Inductive PyVal : Type :=
| PyNone
| PyBool (b : bool)
| PyInt (z : Z)
| PyStr (s : string)
| PyUnicode (s : string)
| PyOther (repr : string).

(** A model class: its name and the names of the concrete model classes it
    inherits from (Django derives [K.DoesNotExist] from the [DoesNotExist] of
    each of them). *)
Record ModelClass : Type := {
  cls_name : string;
  cls_parents : list string
}.

(** What a class attribute such as [model] or a descriptor's [klass] can hold. *)
Inductive ClassRef : Type :=
| IsModel (k : ModelClass)
| OtherClass (name : string)
| NotAClass (v : PyVal).

Inductive Exc : Type :=
| ImproperlyConfigured (msg : string)
| DoesNotExist (k : ModelClass)
| MultipleObjectsReturned (k : ModelClass)
| KeyError (key : string)
| AttributeError (what : string)
| TypeError (what : string)
| ValueError (what : string)
| OtherError (name : string).

(** [except handler.DoesNotExist] catches [raised.DoesNotExist] when [raised]
    is [handler] or one of its concrete descendants. *)
Definition catches_DoesNotExist (handler : ModelClass) (e : Exc) : bool :=
  match e with
  | DoesNotExist raised =>
      String.eqb (cls_name raised) (cls_name handler)
      || existsb (String.eqb (cls_name handler)) (cls_parents raised)
  | _ => false
  end.

(** [sub in s] on Python strings. *)
Fixpoint str_contains (sub s : string) : bool :=
  match s with
  | EmptyString => String.prefix sub EmptyString
  | String _ s' => String.prefix sub s || str_contains sub s'
  end.

Fixpoint rev_string (acc : list ascii) (tl : string) : string :=
  match acc with
  | [] => tl
  | c :: acc' => rev_string acc' (String c tl)
  end.

(** The scan of [s.split(sep)] for a non-empty [sep]: [skip] counts the
    characters of a separator just matched that are still to be passed, [cur]
    holds the current token backwards. *)
Fixpoint split_scan (sep s : string) (skip : nat) (cur : list ascii) : list string :=
  match s with
  | EmptyString => [rev_string cur EmptyString]
  | String c s' =>
      match skip with
      | S k => split_scan sep s' k cur
      | O =>
          if String.prefix sep s
          then rev_string cur EmptyString :: split_scan sep s' (String.length sep - 1) []
          else split_scan sep s' 0 (c :: cur)
      end
  end.

(** [s.split(sep)]: an empty separator raises [ValueError]. *)
Definition str_split (s sep : string) : Exc + list string :=
  match sep with
  | EmptyString => inl (ValueError "empty separator")
  | _ => inr (split_scan sep s 0 [])
  end.

(** ** Dictionaries

    A dict is an association list holding each key once; iterating it
    ([iteritems]) follows the list. *)
Definition Dict (V : Type) : Type := list (string * V).

Fixpoint dict_get {V} (d : Dict V) (k : string) : option V :=
  match d with
  | [] => None
  | (k', v) :: d' => if String.eqb k k' then Some v else dict_get d' k
  end.

Definition has_key {V} (d : Dict V) (k : string) : bool :=
  match dict_get d k with Some _ => true | None => false end.

(** [d[k] = v] *)
Fixpoint dict_set {V} (d : Dict V) (k : string) (v : V) : Dict V :=
  match d with
  | [] => [(k, v)]
  | (k', v') :: d' =>
      if String.eqb k k' then (k, v) :: d' else (k', v') :: dict_set d' k v
  end.

(** ** Column descriptors: [is_a] *)

Record Desc : Type := {
  m2m : bool;
  klass : ClassRef;
  fk : bool;
  o2o : bool;
  attr : string;
  exclude : bool;
  delimiter : string;
  skip_missing : bool
}.

(** The keyword arguments of [is_a] after [klass] and [search_attr]. *)
Record IsAOptions : Type := {
  opt_fk : bool;
  opt_m2m : bool;
  opt_o2o : bool;
  opt_exclude : bool;
  opt_delimiter : string;
  opt_skip_missing : bool
}.

(** The defaults of the signature of [is_a]. *)
Definition is_a_defaults : IsAOptions :=
  {| opt_fk := false; opt_m2m := false; opt_o2o := false;
     opt_exclude := false; opt_delimiter := ";"; opt_skip_missing := false |}.

Definition class_dunder_name (k : ClassRef) : Exc + string :=
  match k with
  | IsModel c => inr (cls_name c)
  | OtherClass n => inr n
  | NotAClass _ => inl (AttributeError "__name__")
  end.

Definition is_a (k : ClassRef) (search_attr : option string) (o : IsAOptions)
  : Exc + Desc :=
  match search_attr with
  | None =>
      match class_dunder_name k with
      | inl e => inl e
      | inr n =>
          inl (ImproperlyConfigured
                 ("is_a(" ++ n ++ ") requires that you set a `search_attr`"))
      end
  | Some a =>
      inr {| m2m := opt_m2m o; klass := k; fk := opt_fk o; o2o := opt_o2o o;
             attr := a; exclude := opt_exclude o;
             delimiter := opt_delimiter o;
             skip_missing := opt_skip_missing o |}
  end.

(** ** The legacy database *)

Definition Row : Type := Dict PyVal.

(** A cursor after [execute]: [description] is [None] when the statement
    returned no result set. *)
Record Cursor : Type := {
  description : option (list string);
  rowcount : Z;
  rows : list Row
}.

(** [connection.cursor()] followed by [cursor.execute(query)]. *)
Record Connection : Type := {
  execute : PyVal -> Exc + Cursor
}.

Section Engine.

(** The target store and the instances of its models. *)
Variables Store Obj : Type.

(** A value of the constructor data: a raw cell or a related instance. *)
Inductive Cell : Type :=
| CRaw (v : PyVal)
| CObj (o : Obj).

(** The calls the engine makes on models and instances. *)
Record ORM : Type := {
  (** [klass.objects.get] with the criteria [{attr: value}] *)
  objects_get : ModelClass -> string -> PyVal -> Store -> Exc + Obj;
  (** [klass] called with the constructor data as keyword arguments *)
  model_new : ModelClass -> Dict Cell -> Exc + Obj;
  (** [instance.save()] *)
  obj_save : Obj -> Store -> Exc + (Obj * Store);
  (** [add] of the values on the related manager [instance.field] *)
  m2m_add : Obj -> string -> list Obj -> Store -> Exc + Store
}.

Variable orm : ORM.

(** What the engine does that the outside can see, in order. *)
Inductive Event : Type :=
| EvPrint (s : string)
| EvProgress (current total : Z)
| EvUpdateProgress (existing created total : Z)
| EvLedgerGet (name : string)
| EvLedgerCreate (name : string)
| EvOpenConnection
| EvExecute (q : PyVal)
| EvFetchAll
| EvGet (k : ModelClass) (a : string) (v : PyVal)
| EvNew (k : ModelClass) (data : Dict Cell)
| EvSave (o : Obj)
| EvM2MAdd (o : Obj) (field : string) (values : list Obj)
| EvHookBeforeAll
| EvHookAfterAll
| EvHookBeforeTransformation (row : Row)
| EvHookBeforeSave (o : Obj) (row : Row)
| EvHookAfterSave (o : Obj) (row : Row)
| EvHookUpdateExisting (o : Obj) (row : Row).

(** [ledger] is the table of [AppliedMigration]: the [classname] of each
    record, oldest first. *)
Record World : Type := {
  store : Store;
  ledger : list string;
  log : list Event
}.

Definition set_store (s : Store) (w : World) : World :=
  {| store := s; ledger := ledger w; log := log w |}.

Definition add_ledger (n : string) (w : World) : World :=
  {| store := store w; ledger := ledger w ++ [n]; log := log w |}.

Definition add_log (e : Event) (w : World) : World :=
  {| store := store w; ledger := ledger w; log := log w ++ [e] |}.

(** *** The monad of methods *)

Definition M (A : Type) : Type := World -> (Exc + A) * World.

Definition ret {A} (a : A) : M A := fun w => (inr a, w).

Definition raise {A} (e : Exc) : M A := fun w => (inl e, w).

Definition bind {A B} (m : M A) (f : A -> M B) : M B :=
  fun w =>
    match m w with
    | (inr a, w') => f a w'
    | (inl e, w') => (inl e, w')
    end.

Definition emit (e : Event) : M unit := fun w => (inr tt, add_log e w).

Definition lift {A} (r : Exc + A) : M A :=
  match r with
  | inl e => raise e
  | inr a => ret a
  end.

(** A call that reads the store. *)
Definition read_store {A} (f : Store -> Exc + A) : M A :=
  fun w => lift (f (store w)) w.

(** A call that changes the store. *)
Definition on_store {A} (f : Store -> Exc + (A * Store)) : M A :=
  fun w =>
    match f (store w) with
    | inl e => (inl e, w)
    | inr (a, s) => (inr a, set_store s w)
    end.

Definition on_store_ (f : Store -> Exc + Store) : M unit :=
  fun w =>
    match f (store w) with
    | inl e => (inl e, w)
    | inr s => (inr tt, set_store s w)
    end.

(** [try: m except: h]: the handler gets the exception and the world at the
    point of the raise. *)
Definition try_except {A} (m : M A) (h : Exc -> M A) : M A :=
  fun w =>
    match m w with
    | (inr a, w') => (inr a, w')
    | (inl e, w') => h e w'
    end.

End Engine.

Arguments CRaw {Obj} v.
Arguments CObj {Obj} o.
Arguments ret {Store Obj A} a.
Arguments raise {Store Obj A} e.
Arguments emit {Store Obj} e.
Arguments lift {Store Obj A} r.
Arguments EvPrint {Obj} s.
Arguments EvProgress {Obj} current total.
Arguments EvUpdateProgress {Obj} existing created total.
Arguments EvLedgerGet {Obj} name.
Arguments EvLedgerCreate {Obj} name.
Arguments EvOpenConnection {Obj}.
Arguments EvExecute {Obj} q.
Arguments EvFetchAll {Obj}.
Arguments EvGet {Obj} k a v.
Arguments EvNew {Obj} k data.
Arguments EvHookBeforeAll {Obj}.
Arguments EvHookAfterAll {Obj}.
Arguments EvHookBeforeTransformation {Obj} row.

Declare Scope monad_scope.
Delimit Scope monad_scope with monad.
Notation "x <- c1 ;; c2" := (bind c1 (fun x => c2))
  (at level 61, c1 at next level, right associativity) : monad_scope.
Notation "' pat <- c1 ;; c2" := (bind c1 (fun x => match x with pat => c2 end))
  (at level 61, pat pattern, c1 at next level, right associativity) : monad_scope.
Notation "e1 ;; e2" := (bind e1 (fun _ => e2))
  (at level 61, right associativity) : monad_scope.
Open Scope monad_scope.

(** ** The class [Migration] *)

Section Migration.

Variables Store Obj : Type.
Variable orm : ORM Store Obj.

Local Abbreviation M := (M Store Obj).

(** An attribute that should hold a [T] but may hold any other value. *)
Definition Attr (T : Type) : Type := (T + PyVal)%type.

(** A subclass of [Migration]: its class attributes and the methods it may
    override.  [classname] is [unicode(self)].  A hook is given the target
    store and returns it changed, or raises; [hook_before_save] may also
    change the instance it is handed. *)
Record Migration : Type := {
  classname : string;
  abstract : bool;
  model : ClassRef;
  query : PyVal;
  column_description : Attr (Dict Desc);
  depends_on : Attr (list string);
  allow_updates : bool;
  search_attr : option string;
  open_db_connection : Exc + Connection;
  hook_before_transformation : Row -> Store -> Exc + Store;
  hook_before_save : Obj -> Row -> Store -> Exc + (Obj * Store);
  hook_after_save : Obj -> Row -> Store -> Exc + Store;
  hook_update_existing : Obj -> Row -> Store -> Exc + Store;
  hook_before_all : Store -> Exc + Store;
  hook_after_all : Store -> Exc + Store
}.

(** The bodies of the base class: the hooks do nothing and
    [open_db_connection] raises. *)
Definition base_open_db_connection : Exc + Connection :=
  inl (ImproperlyConfigured
         "You have to supply a suitable db connection for your DB").

Definition base_hook {A} (_ : A) (s : Store) : Exc + Store := inr s.

Definition base_hook_before_save (o : Obj) (_ : Row) (s : Store)
  : Exc + (Obj * Store) := inr (o, s).

(** The model [AppliedMigration] of [models.py], whose table is the ledger:
    one record per [classname]. *)
Definition AppliedMigration : ModelClass :=
  {| cls_name := "AppliedMigration"; cls_parents := [] |}.

(** [AppliedMigration.objects.get(classname=name)] *)
Definition AppliedMigration_get (name : string) : M unit :=
  emit (EvLedgerGet name) ;;
  fun w =>
    match count_occ string_dec (ledger w) name with
    | 0 => raise (DoesNotExist AppliedMigration) w
    | 1 => ret tt w
    | _ => raise (MultipleObjectsReturned AppliedMigration) w
    end.

(** [AppliedMigration.objects.create(classname=name)] *)
Definition AppliedMigration_create (name : string) : M unit :=
  emit (EvLedgerCreate name) ;;
  fun w => (inr tt, add_ledger name w).

(** [migration_required]: Python's [True], [None] and [False] are
    [Some true], [None] and [Some false]. *)
Definition migration_required (self : Migration) : M (option bool) :=
  try_except
    (AppliedMigration_get (classname self) ;;
     if allow_updates self then ret None else ret (Some false))
    (fun e =>
       if catches_DoesNotExist AppliedMigration e then ret (Some true)
       else raise e).

Definition is_str_with_select (q : PyVal) : bool :=
  match q with
  | PyStr s => str_contains "SELECT" s
  | _ => false
  end.

Definition is_model_class (c : ClassRef) : bool :=
  match c with
  | IsModel _ => true
  | _ => false
  end.

Definition is_inl {A B} (x : A + B) : bool :=
  match x with
  | inl _ => true
  | inr _ => false
  end.

Definition is_None {A} (x : option A) : bool :=
  match x with
  | None => true
  | Some _ => false
  end.

Definition check_migration (self : Migration) : Exc + unit :=
  if negb (is_inl (column_description self)) then
    inl (ImproperlyConfigured
           (classname self ++ ": `column_description` has to be a dict"))
  else if allow_updates self && is_None (search_attr self) then
    inl (ImproperlyConfigured
           (classname self
            ++ ": `allow_updates` forces you to set the `search_attr` on "
            ++ "the Migration. to search for existing instances. Example: `username`"))
  else if negb (is_inl (depends_on self)) then
    inl (ImproperlyConfigured
           (classname self ++ ": `depends_on` has to be a list of classes"))
  else if negb (is_model_class (model self)) then
    inl (ImproperlyConfigured
           (classname self ++ ": `model` has to be a model CLASS"))
  else if negb (is_str_with_select (query self)) then
    inl (ImproperlyConfigured
           (classname self ++ ": `model` has to be a string containing SELECT"))
  else inr tt.

(** [get_object]: the handler of the [try] names [self.model.DoesNotExist]. *)
Definition get_object (self : Migration) (desc : Desc) (value : PyVal)
  : M (option Obj) :=
  match klass desc with
  | IsModel k =>
      try_except
        (emit (EvGet k (attr desc) value) ;;
         o <- read_store (objects_get orm k (attr desc) value) ;;
         ret (Some o))
        (fun e =>
           match model self with
           | IsModel m =>
               if catches_DoesNotExist m e then
                 if skip_missing desc then ret None else raise e
               else raise e
           | _ => raise (AttributeError "DoesNotExist")
           end)
  | _ => raise (AttributeError "objects")
  end.

Definition cell_of (instance : option Obj) : Cell Obj :=
  match instance with
  | Some o => CObj o
  | None => CRaw PyNone
  end.

(** The loop [for name in usernames] of [transform_row_dataset]. *)
Fixpoint resolve_tokens (self : Migration) (desc : Desc)
    (usernames : list PyVal) (users : list Obj) : M (list Obj) :=
  match usernames with
  | [] => ret users
  | name :: rest =>
      element <- get_object self desc name ;;
      match element with
      | None => resolve_tokens self desc rest users
      | Some o => resolve_tokens self desc rest (users ++ [o])%list
      end
  end.

(** [data.split(desc['delimiter'])] on a cell. *)
Definition split_cell (data : PyVal) (delim : string) : Exc + list PyVal :=
  match data with
  | PyStr s =>
      match str_split s delim with
      | inl e => inl e
      | inr l => inr (map PyStr l)
      end
  | PyUnicode s =>
      match str_split s delim with
      | inl e => inl e
      | inr l => inr (map PyUnicode l)
      end
  | _ => inl (AttributeError "split")
  end.

Definition is_PyNone (v : PyVal) : bool :=
  match v with
  | PyNone => true
  | _ => false
  end.

(** One turn of the loop over [datarow.iteritems()]. *)
Definition transform_field (self : Migration)
    (acc : Dict (Cell Obj) * Dict (list Obj)) (item : string * PyVal)
  : M (Dict (Cell Obj) * Dict (list Obj)) :=
  let '(constructor_data, m2ms) := acc in
  let '(fieldname, data) := item in
  match column_description self with
  | inr _ => raise (AttributeError "has_key")
  | inl cd =>
      match dict_get cd fieldname with
      | Some desc =>
          if exclude desc then ret (constructor_data, m2ms)
          else if fk desc || o2o desc then
            instance <- get_object self desc data ;;
            ret (dict_set constructor_data fieldname (cell_of instance), m2ms)
          else if m2m desc then
            if is_PyNone data then ret (constructor_data, m2ms)
            else
              usernames <- lift (split_cell data (delimiter desc)) ;;
              users <- resolve_tokens self desc usernames [] ;;
              ret (constructor_data, dict_set m2ms fieldname users)
          else ret (constructor_data, m2ms)
      | None => ret (dict_set constructor_data fieldname (CRaw data), m2ms)
      end
  end.

Fixpoint transform_items (self : Migration)
    (acc : Dict (Cell Obj) * Dict (list Obj)) (items : list (string * PyVal))
  : M (Dict (Cell Obj) * Dict (list Obj)) :=
  match items with
  | [] => ret acc
  | item :: rest =>
      acc' <- transform_field self acc item ;;
      transform_items self acc' rest
  end.

Definition transform_row_dataset (self : Migration) (datarow : Row)
  : M (Dict (Cell Obj) * Dict (list Obj)) :=
  transform_items self ([], []) datarow.

Fixpoint create_m2ms (instance : Obj) (m2ms : Dict (list Obj)) : M unit :=
  match m2ms with
  | [] => ret tt
  | (field, values) :: rest =>
      emit (EvM2MAdd instance field values) ;;
      on_store_ (m2m_add orm instance field values) ;;
      create_m2ms instance rest
  end.

(** [self.model] called with the constructor data as keyword arguments *)
Definition instantiate (self : Migration) (constructor_data : Dict (Cell Obj))
  : M Obj :=
  match model self with
  | IsModel k =>
      emit (EvNew k constructor_data) ;;
      lift (model_new orm k constructor_data)
  | _ => raise (TypeError "object is not callable")
  end.

(** The statements both loops share, from [hook_before_transformation] to
    [hook_after_save] (lines 160-170 and 202-212). *)
Definition create_instance (self : Migration) (row : Row) : M unit :=
  emit (EvHookBeforeTransformation row) ;;
  on_store_ (hook_before_transformation self row) ;;
  '(constructor_data, m2ms) <- transform_row_dataset self row ;;
  instance <- instantiate self constructor_data ;;
  emit (EvHookBeforeSave instance row) ;;
  instance <- on_store (hook_before_save self instance row) ;;
  emit (EvSave instance) ;;
  instance <- on_store (obj_save orm instance) ;;
  create_m2ms instance m2ms ;;
  emit (EvHookAfterSave instance row) ;;
  on_store_ (hook_after_save self instance row).

(** The loop of [process_cursor]; [current] is the counter before the row. *)
Fixpoint process_rows (self : Migration) (total current : Z) (rs : list Row)
  : M unit :=
  match rs with
  | [] => ret tt
  | row :: rest =>
      let current := (current + 1)%Z in
      emit (EvProgress current total) ;;
      create_instance self row ;;
      process_rows self total current rest
  end.

Definition fetchall (cursor : Cursor) : M (list Row) :=
  emit EvFetchAll ;; ret (rows cursor).

Definition process_cursor (self : Migration) (cursor : Cursor)
    (fields : list string) : M unit :=
  let total := rowcount cursor in
  emit EvHookBeforeAll ;;
  on_store_ (hook_before_all self) ;;
  rs <- fetchall cursor ;;
  process_rows self total 0 rs ;;
  emit EvHookAfterAll ;;
  on_store_ (hook_after_all self) ;;
  emit (EvPrint "").

(** [row[self.search_attr]]; a key that is [None] is in no row. *)
Definition row_item (row : Row) (key : option string) : Exc + PyVal :=
  match key with
  | None => inl (KeyError "None")
  | Some k =>
      match dict_get row k with
      | Some v => inr v
      | None => inl (KeyError k)
      end
  end.

(** One turn of the loop of [process_cursor_for_update]; the counters are
    those before the row. *)
Definition update_row (self : Migration) (total existing created : Z)
    (row : Row) : M (Z * Z) :=
  desc <- lift (is_a (model self) (search_attr self)
                  {| opt_fk := false; opt_m2m := false; opt_o2o := false;
                     opt_exclude := false; opt_delimiter := ";";
                     opt_skip_missing := true |}) ;;
  key <- lift (row_item row (search_attr self)) ;;
  element <- get_object self desc key ;;
  let '(existing, created) :=
    match element with
    | Some _ => ((existing + 1)%Z, created)
    | None => (existing, (created + 1)%Z)
    end in
  emit (EvUpdateProgress existing created total) ;;
  match element with
  | Some e =>
      emit (EvHookUpdateExisting e row) ;;
      on_store_ (hook_update_existing self e row) ;;
      ret (existing, created)
  | None =>
      create_instance self row ;;
      ret (existing, created)
  end.

Fixpoint update_rows (self : Migration) (total existing created : Z)
    (rs : list Row) : M unit :=
  match rs with
  | [] => ret tt
  | row :: rest =>
      '(existing', created') <- update_row self total existing created row ;;
      update_rows self total existing' created' rest
  end.

Definition process_cursor_for_update (self : Migration) (cursor : Cursor)
    (fields : list string) : M unit :=
  let total := rowcount cursor in
  rs <- fetchall cursor ;;
  update_rows self total 0 0 rs ;;
  emit (EvPrint "").

(** [fields = [ row[0] for row in cursor.description ]] *)
Definition field_names (cursor : Cursor) : Exc + list string :=
  match description cursor with
  | Some l => inr l
  | None => inl (TypeError "'NoneType' object is not iterable")
  end.

Definition is_False (check : option bool) : bool :=
  match check with
  | Some false => true
  | _ => false
  end.

Definition migrate (self : Migration) : M unit :=
  check <- migration_required self ;;
  if is_False check then
    emit (EvPrint (classname self ++ " has already been migrated, skip it!"))
  else
    emit (EvPrint ("Migrating " ++ classname self)) ;;
    lift (check_migration self) ;;
    emit EvOpenConnection ;;
    connection <- lift (open_db_connection self) ;;
    emit (EvExecute (query self)) ;;
    cursor <- lift (execute connection (query self)) ;;
    fields <- lift (field_names cursor) ;;
    if is_None check then
      process_cursor_for_update self cursor fields
    else
      process_cursor self cursor fields ;;
      AppliedMigration_create (classname self).

End Migration.

(** ** The orchestrator

    [tests.py] drives the engine through [Migrator.sort_based_on_dependency]
    and [Migrator.migrate(commit)]; the class [Migrator] is not in
    [migration.py]. *)

Section Migrator.

Variables Store Obj : Type.
Variable orm : ORM Store Obj.

(** Modelled from the spec: the [dependsOn] of a unit of the [Migrator],
    which is not among the sources; an attribute that is not a list declares
    no dependency. *)
Definition unit_deps (u : Migration Store Obj) : list string :=
  match depends_on u with
  | inl l => l
  | inr _ => []
  end.

(** Modelled from the spec: the unit a dependency names, for the walk of
    the [Migrator]. *)
Fixpoint find_unit (units : list (Migration Store Obj)) (n : string)
  : option (Migration Store Obj) :=
  match units with
  | [] => None
  | u :: rest => if String.eqb n (classname u) then Some u else find_unit rest n
  end.

Definition mem (n : string) (l : list string) : bool :=
  existsb (String.eqb n) l.

(** Modelled from the spec: the loop of the walk of the [Migrator] over the
    dependencies [ds], visited one after the other with [v], threading the
    list of finished units. *)
Fixpoint visit_each (v : string -> list string -> option (Exc + list string))
    (ds : list string) (done : list string) : option (Exc + list string) :=
  match ds with
  | [] => Some (inr done)
  | d :: rest =>
      match v d done with
      | Some (inr done') => visit_each v rest done'
      | other => other
      end
  end.

(** Modelled from the spec: the configuration error of the [Migrator] for
    a cycle, naming the unit [n] at which it was met. *)
Definition cycle_error (n : string) : Exc :=
  ImproperlyConfigured ("Cyclic dependency at " ++ n).

(** Modelled from the spec: the depth-first walk of section 4.1, which
    [Migrator.sort_based_on_dependency] implements outside the sources.
    [in_progress] holds the units whose visit has begun and not ended, [done]
    the finished ones in output order; a unit met while in progress signals
    a cycle; a name that is not one of [units] (an abstract unit is not)
    adds nothing.  [None] is a walk deeper than [fuel]. *)
Fixpoint visit (units : list (Migration Store Obj)) (fuel : nat) (n : string)
    (in_progress done : list string) : option (Exc + list string) :=
  match fuel with
  | O => None
  | S fuel' =>
      if mem n done then Some (inr done)
      else if mem n in_progress then Some (inl (cycle_error n))
      else
        match find_unit units n with
        | None => Some (inr done)
        | Some u =>
            match visit_each
                    (fun d dn => visit units fuel' d (n :: in_progress) dn)
                    (unit_deps u) done with
            | Some (inr done') => Some (inr (done' ++ [n])%list)
            | other => other
            end
        end
  end.

(** Modelled from the spec: the units of the sorted names, for the result
    of [Migrator.sort_based_on_dependency]. *)
Fixpoint units_of (units : list (Migration Store Obj)) (names : list string)
  : list (Migration Store Obj) :=
  match names with
  | [] => []
  | n :: rest =>
      match find_unit units n with
      | Some u => u :: units_of units rest
      | None => units_of units rest
      end
  end.

(** Modelled from the spec: [Migrator.sort_based_on_dependency], the walk
    started at each unit in input order.  The walk is never deeper than the
    number of units, so the last case is not reached. *)
Definition sort_based_on_dependency (units : list (Migration Store Obj))
  : Exc + list (Migration Store Obj) :=
  match visit_each (fun n dn => visit units (S (length units)) n [] dn)
          (map (@classname Store Obj) units) [] with
  | Some (inr names) => inr (units_of units names)
  | Some (inl e) => inl e
  | None => inl (OtherError "maximum recursion depth exceeded")
  end.

(** Modelled from the spec: [Migrator.sorted_migrations], the units that are
    not abstract, sorted. *)
Definition sorted_migrations (units : list (Migration Store Obj))
  : Exc + list (Migration Store Obj) :=
  sort_based_on_dependency
    (filter (fun u => negb (abstract u)) units).

(** Modelled from the spec: the loop of [Migrator.migrate] over the sorted
    units, calling the [migrate] of each. *)
Fixpoint migrate_all (order : list (Migration Store Obj)) : M Store Obj unit :=
  match order with
  | [] => ret tt
  | u :: rest => migrate orm u ;; migrate_all rest
  end.

(** Modelled from the spec: the rollback of the transaction of
    [Migrator.migrate]; it leaves the store and the ledger of the start, and
    what was printed and called meanwhile. *)
Definition rollback (start now : World Store Obj) : World Store Obj :=
  {| store := store start; ledger := ledger start; log := log now |}.

(** Modelled from the spec: [Migrator.migrate(commit)] of section 4.4, one
    transaction around the whole run, committed only when [commit] is set
    and no unit failed. *)
Definition Migrator_migrate (units : list (Migration Store Obj))
    (commit : bool) : M Store Obj unit :=
  fun w =>
    match sorted_migrations units with
    | inl e => (inl e, w)
    | inr order =>
        match migrate_all order w with
        | (inr tt, w') =>
            if commit then (inr tt, w') else (inr tt, rollback w w')
        | (inl e, w') => (inl e, rollback w w')
        end
    end.

End Migrator.

(** ** An in-memory target store

    A small implementation of the ORM interface, on which the engine is run
    on concrete migrations. *)

Module Mem.

Record MemObj : Type := {
  mo_klass : string;
  mo_pk : option Z;
  mo_fields : Dict PyVal;
  mo_m2m : Dict (list Z)
}.

Definition MemStore : Type := list MemObj.

Definition pyval_eqb (a b : PyVal) : bool :=
  match a, b with
  | PyNone, PyNone => true
  | PyBool x, PyBool y => Bool.eqb x y
  | PyInt x, PyInt y => Z.eqb x y
  | PyStr x, PyStr y => String.eqb x y
  | PyUnicode x, PyUnicode y => String.eqb x y
  | PyOther x, PyOther y => String.eqb x y
  | _, _ => false
  end.

Definition matches (k : ModelClass) (a : string) (v : PyVal) (o : MemObj)
  : bool :=
  String.eqb (mo_klass o) (cls_name k)
  && match dict_get (mo_fields o) a with
     | Some x => pyval_eqb x v
     | None => false
     end.

Definition mem_get (k : ModelClass) (a : string) (v : PyVal) (s : MemStore)
  : Exc + MemObj :=
  match filter (matches k a v) s with
  | [] => inl (DoesNotExist k)
  | [o] => inr o
  | _ => inl (MultipleObjectsReturned k)
  end.

Definition column_of (c : Cell MemObj) : PyVal :=
  match c with
  | CRaw v => v
  | CObj o =>
      match mo_pk o with
      | Some p => PyInt p
      | None => PyNone
      end
  end.

Definition mem_new (k : ModelClass) (data : Dict (Cell MemObj))
  : Exc + MemObj :=
  inr {| mo_klass := cls_name k; mo_pk := None;
         mo_fields := map (fun kv => (fst kv, column_of (snd kv))) data;
         mo_m2m := [] |}.

Definition same_row (o x : MemObj) : bool :=
  String.eqb (mo_klass o) (mo_klass x)
  && match mo_pk o, mo_pk x with
     | Some p, Some q => Z.eqb p q
     | _, _ => false
     end.

Definition pks (l : list MemObj) : list Z :=
  flat_map (fun o => match mo_pk o with Some p => [p] | None => [] end) l.

Definition mem_save (o : MemObj) (s : MemStore) : Exc + (MemObj * MemStore) :=
  match mo_pk o with
  | Some _ => inr (o, map (fun x => if same_row o x then o else x) s)
  | None =>
      let o' := {| mo_klass := mo_klass o;
                   mo_pk := Some (Z.succ (fold_right Z.max 0%Z (pks s)));
                   mo_fields := mo_fields o; mo_m2m := mo_m2m o |} in
      inr (o', (s ++ [o'])%list)
  end.

Definition mem_m2m_add (o : MemObj) (field : string) (values : list MemObj)
    (s : MemStore) : Exc + MemStore :=
  inr (map (fun x =>
              if same_row o x then
                {| mo_klass := mo_klass x; mo_pk := mo_pk x;
                   mo_fields := mo_fields x;
                   mo_m2m := dict_set (mo_m2m x) field
                               (match dict_get (mo_m2m x) field with
                                | Some old => old ++ pks values
                                | None => pks values
                                end)%list |}
              else x) s).

Definition mem_orm : ORM MemStore MemObj :=
  {| objects_get := mem_get; model_new := mem_new;
     obj_save := mem_save; m2m_add := mem_m2m_add |}.

Definition empty_world : World MemStore MemObj :=
  {| store := []; ledger := []; log := [] |}.

(** The models of the blog of the tests. *)
Definition Author : ModelClass := {| cls_name := "Author"; cls_parents := [] |}.
Definition Comment : ModelClass := {| cls_name := "Comment"; cls_parents := [] |}.
Definition Post : ModelClass := {| cls_name := "Post"; cls_parents := [] |}.

Definition connection_of (rs : list Row) : Exc + Connection :=
  inr {| execute := fun _ =>
           inr {| description := Some (match rs with
                                       | r :: _ => map fst r
                                       | [] => []
                                       end);
                  rowcount := (-1)%Z; rows := rs |} |}.

(** A migration with the hooks of the base class. *)
Definition plain_migration (name : string) (m : ClassRef) (q : PyVal)
    (cd : Attr (Dict Desc)) (deps : Attr (list string)) (upd : bool)
    (sa : option string) (rs : list Row) : Migration MemStore MemObj :=
  {| classname := name; abstract := false; model := m; query := q;
     column_description := cd; depends_on := deps;
     allow_updates := upd; search_attr := sa;
     open_db_connection := connection_of rs;
     hook_before_transformation := @base_hook MemStore Row;
     hook_before_save := @base_hook_before_save MemStore MemObj;
     hook_after_save := fun _ => @base_hook MemStore Row;
     hook_update_existing := fun _ => @base_hook MemStore Row;
     hook_before_all := fun s => inr s;
     hook_after_all := fun s => inr s |}.

Definition author_rows : list Row :=
  [ [("id", PyStr "1"); ("name", PyStr "Ann")];
    [("id", PyStr "2"); ("name", PyStr "Bob")] ].

Definition AuthorMigration : Migration MemStore MemObj :=
  plain_migration "AuthorMigration" (IsModel Author)
    (PyStr "SELECT * FROM authors") (inl []) (inl []) false None author_rows.

Definition UpdatableAuthorMigration : Migration MemStore MemObj :=
  plain_migration "AuthorMigration" (IsModel Author)
    (PyStr "SELECT * FROM authors") (inl []) (inl []) true (Some "id")
    author_rows.

Definition CommentMigration : Migration MemStore MemObj :=
  plain_migration "CommentMigration" (IsModel Comment)
    (PyStr "SELECT * FROM comments") (inl []) (inl ["AuthorMigration"])
    false None [].

Definition PostMigration : Migration MemStore MemObj :=
  plain_migration "PostMigration" (IsModel Post)
    (PyStr "SELECT * FROM posts") (inl []) (inl ["CommentMigration"])
    false None [].

(** A subclass whose configuration is wrong in every attribute. *)
Definition BrokenMigration : Migration MemStore MemObj :=
  plain_migration "BrokenMigration" (NotAClass PyNone) (PyInt 7)
    (inr PyNone) (inr PyNone) false None [].

Definition applied (name : string) : World MemStore MemObj :=
  {| store := []; ledger := [name]; log := [] |}.

(** A model with a foreign key to itself. *)
Definition Category : ModelClass :=
  {| cls_name := "Category"; cls_parents := [] |}.

Definition parent_desc : Desc :=
  {| m2m := false; klass := IsModel Category; fk := true; o2o := false;
     attr := "id"; exclude := false; delimiter := ";"; skip_missing := true |}.

Definition CategoryMigration : Migration MemStore MemObj :=
  plain_migration "CategoryMigration" (IsModel Category)
    (PyStr "SELECT * FROM categories") (inl [("parent", parent_desc)])
    (inl []) false None [].

(** The comments of a post point at their author, tolerating a missing
    one, as in [test_skip_missing]. *)
Definition author_desc : Desc :=
  {| m2m := false; klass := IsModel Author; fk := true; o2o := false;
     attr := "id"; exclude := false; delimiter := ";"; skip_missing := true |}.

Definition TolerantCommentMigration : Migration MemStore MemObj :=
  plain_migration "CommentMigration" (IsModel Comment)
    (PyStr "SELECT * FROM comments") (inl [("author", author_desc)])
    (inl ["AuthorMigration"]) false None
    [ [("id", PyStr "1"); ("author", PyStr "3")] ].

(** The comments of a post, a many-to-many field split at [","]. *)
Definition comments_desc : Desc :=
  {| m2m := true; klass := IsModel Comment; fk := false; o2o := false;
     attr := "id"; exclude := false; delimiter := ","; skip_missing := false |}.

Definition PostWithComments : Migration MemStore MemObj :=
  plain_migration "PostMigration" (IsModel Post)
    (PyStr "SELECT * FROM posts") (inl [("comments", comments_desc)])
    (inl ["CommentMigration"]) false None [].

Definition ann : MemObj :=
  {| mo_klass := "Author"; mo_pk := Some 1%Z;
     mo_fields := [("id", PyStr "1"); ("name", PyStr "Ann")]; mo_m2m := [] |}.

Definition with_ann : World MemStore MemObj :=
  {| store := [ann]; ledger := ["AuthorMigration"]; log := [] |}.

(** A stored comment whose [id] is the empty string. *)
Definition nameless_comment : MemObj :=
  {| mo_klass := "Comment"; mo_pk := Some 1%Z;
     mo_fields := [("id", PyStr "")]; mo_m2m := [] |}.

Definition with_nameless_comment : World MemStore MemObj :=
  {| store := [nameless_comment]; ledger := []; log := [] |}.

(** Two units that depend on each other. *)
Definition Ping : Migration MemStore MemObj :=
  plain_migration "Ping" (IsModel Author) (PyStr "SELECT 1") (inl [])
    (inl ["Pong"]) false None [].

Definition Pong : Migration MemStore MemObj :=
  plain_migration "Pong" (IsModel Author) (PyStr "SELECT 1") (inl [])
    (inl ["Ping"]) false None [].

(** A subclass that does not override [open_db_connection]. *)
Definition UnconnectedMigration : Migration MemStore MemObj :=
  {| classname := "UnconnectedMigration"; abstract := false;
     model := IsModel Author; query := PyStr "SELECT * FROM authors";
     column_description := inl []; depends_on := inl [];
     allow_updates := false; search_attr := None;
     open_db_connection := base_open_db_connection;
     hook_before_transformation := @base_hook MemStore Row;
     hook_before_save := @base_hook_before_save MemStore MemObj;
     hook_after_save := fun _ => @base_hook MemStore Row;
     hook_update_existing := fun _ => @base_hook MemStore Row;
     hook_before_all := fun s => inr s;
     hook_after_all := fun s => inr s |}.

(** The cursor over the authors. *)
Definition author_cursor : Cursor :=
  {| description := Some ["id"; "name"]; rowcount := (-1)%Z;
     rows := author_rows |}.

(** Categories related to one another, a many-to-many field on the model of
    the unit itself, split at [","] and tolerating missing ones. *)
Definition related_desc : Desc :=
  {| m2m := true; klass := IsModel Category; fk := false; o2o := false;
     attr := "id"; exclude := false; delimiter := ","; skip_missing := true |}.

Definition RelatedCategoryMigration : Migration MemStore MemObj :=
  plain_migration "RelatedCategoryMigration" (IsModel Category)
    (PyStr "SELECT * FROM categories") (inl [("related", related_desc)])
    (inl []) true (Some "id") [].

Definition cat1 : MemObj :=
  {| mo_klass := "Category"; mo_pk := Some 1%Z;
     mo_fields := [("id", PyStr "1")]; mo_m2m := [] |}.

Definition cat3 : MemObj :=
  {| mo_klass := "Category"; mo_pk := Some 3%Z;
     mo_fields := [("id", PyStr "3")]; mo_m2m := [] |}.

Definition with_categories : World MemStore MemObj :=
  {| store := [cat1; cat3]; ledger := ["RelatedCategoryMigration"]; log := [] |}.

Definition category_obj (pk : option Z) (fields : Dict PyVal)
    (related : Dict (list Z)) : MemObj :=
  {| mo_klass := "Category"; mo_pk := pk; mo_fields := fields;
     mo_m2m := related |}.

(** A category that is not stored yet, related to three others. *)
Definition row7 : Row := [("id", PyStr "7"); ("related", PyStr "1,2,3")].

End Mem.

(** * Vocabulary of the statements *)

Section Vocabulary.

Variables Store Obj : Type.

(** The events of one kind. *)
Definition is_get (e : Event Obj) : bool :=
  match e with EvGet _ _ _ => true | _ => false end.

Definition is_save (e : Event Obj) : bool :=
  match e with EvSave _ => true | _ => false end.

Definition is_m2m_add (e : Event Obj) : bool :=
  match e with EvM2MAdd _ _ _ => true | _ => false end.

Definition is_before_all (e : Event Obj) : bool :=
  match e with EvHookBeforeAll => true | _ => false end.

Definition is_after_all (e : Event Obj) : bool :=
  match e with EvHookAfterAll => true | _ => false end.

Definition is_update_existing (e : Event Obj) : bool :=
  match e with EvHookUpdateExisting _ _ => true | _ => false end.

Definition is_ledger_get (e : Event Obj) : bool :=
  match e with EvLedgerGet _ => true | _ => false end.

Definition is_ledger_create (e : Event Obj) : bool :=
  match e with EvLedgerCreate _ => true | _ => false end.

(** The events of the legacy database: a query run or rows fetched. *)
Definition is_source_event (e : Event Obj) : bool :=
  match e with
  | EvOpenConnection | EvExecute _ | EvFetchAll => true
  | _ => false
  end.

(** The events of the creation of one instance. *)
Definition row_event (e : Event Obj) : bool :=
  match e with
  | EvHookBeforeTransformation _ | EvGet _ _ _ | EvNew _ _
  | EvHookBeforeSave _ _ | EvSave _ | EvM2MAdd _ _ _ | EvHookAfterSave _ _ =>
      true
  | _ => false
  end.

(** The events of the loop of [process_cursor]. *)
Definition fresh_row_event (e : Event Obj) : bool :=
  match e with
  | EvProgress _ _ => true
  | _ => row_event e
  end.

(** The events of [process_cursor_for_update]. *)
Definition update_event (e : Event Obj) : bool :=
  match e with
  | EvUpdateProgress _ _ _ | EvHookUpdateExisting _ _ | EvFetchAll
  | EvPrint _ => true
  | _ => row_event e
  end.

(** The events of [migrate] after the look at the ledger. *)
Definition run_event (e : Event Obj) : bool :=
  match e with
  | EvLedgerGet _ => false
  | _ => true
  end.

(** The events of the processing of a cursor: all but those of the ledger. *)
Definition body_event (e : Event Obj) : bool :=
  match e with
  | EvLedgerGet _ | EvLedgerCreate _ => false
  | _ => true
  end.

(** The statements of [migrate] between the decision and the processing of
    the cursor (lines 121-128). *)
Definition open_cursor (self : Migration Store Obj)
  : M Store Obj (Cursor * list string) :=
  emit (EvPrint ("Migrating " ++ classname self)) ;;
  lift (check_migration self) ;;
  emit EvOpenConnection ;;
  connection <- lift (open_db_connection self) ;;
  emit (EvExecute (query self)) ;;
  cursor <- lift (execute connection (query self)) ;;
  fields <- lift (field_names cursor) ;;
  ret (cursor, fields).

(** [m] leaves the ledger as it is and adds to the log only events of [P]. *)
Definition frame (P : Event Obj -> bool) {A} (m : M Store Obj A) : Prop :=
  forall w,
    ledger (snd (m w)) = ledger w
    /\ exists evs, log (snd (m w)) = (log w ++ evs)%list
                   /\ forallb P evs = true.

(** The instances the tokens resolve to in store [s], in order. *)
Definition found_in (orm : ORM Store Obj) (k : ModelClass) (a : string) (s : Store)
    (tokens : list PyVal) : list Obj :=
  flat_map (fun t => match objects_get orm k a t s with
                     | inr o => [o]
                     | inl _ => []
                     end) tokens.

(** The store [create_m2ms] leaves: the [add] of each field in turn, each on
    the store the one before left. *)
Fixpoint add_all (orm : ORM Store Obj) (instance : Obj)
    (m2ms : Dict (list Obj)) (s : Store) : Exc + Store :=
  match m2ms with
  | [] => inr s
  | (field, values) :: rest =>
      match m2m_add orm instance field values s with
      | inl e => inl e
      | inr s' => add_all orm instance rest s'
      end
  end.

(** The calls of [create_m2ms]: one [add] for each field, on [instance]. *)
Definition m2m_calls (instance : Obj) (m2ms : Dict (list Obj))
  : list (Event Obj) :=
  map (fun fv => EvM2MAdd instance (fst fv) (snd fv)) m2ms.

(** How many events of [l] are of kind [P]. *)
Definition count (P : Event Obj -> bool) (l : list (Event Obj)) : nat :=
  length (filter P l).

(** The five defects [check_migration] looks for. *)
Definition malformed (self : Migration Store Obj) : Prop :=
  (exists v, column_description self = inr v)
  \/ (allow_updates self = true /\ search_attr self = None)
  \/ (exists v, depends_on self = inr v)
  \/ (forall k, model self <> IsModel k)
  \/ (forall s, query self = PyStr s -> str_contains "SELECT" s = false).

(** [n] declares the dependency [d]. *)
Definition depends (units : list (Migration Store Obj)) (n d : string) : Prop :=
  exists u, find_unit units n = Some u /\ In d (unit_deps u).

Definition is_unit (units : list (Migration Store Obj)) (n : string) : Prop :=
  find_unit units n <> None.

(** No unit reaches itself along declared dependencies. *)
Definition acyclic (units : list (Migration Store Obj)) : Prop :=
  forall n, ~ clos_trans string (depends units) n n.

(** In [order], every declared dependency that is a unit comes before the
    unit that declares it. *)
Definition respects (units : list (Migration Store Obj))
    (order : list string) : Prop :=
  forall before n after d,
    order = (before ++ n :: after)%list ->
    depends units n d -> is_unit units d -> In d before.

(** [good_rev l]: in [l], the newest unit first, the dependencies of each
    unit that are units are among the older ones. *)
Fixpoint good_rev (units : list (Migration Store Obj)) (l : list string)
  : Prop :=
  match l with
  | [] => True
  | n :: older =>
      (forall d, depends units n d -> is_unit units d -> In d older)
      /\ good_rev units older
  end.

(** What the walk keeps true of the list of finished units. *)
Definition sorted_so_far (units : list (Migration Store Obj))
    (done : list string) : Prop :=
  NoDup done
  /\ good_rev units (rev done)
  /\ (forall x, In x done -> is_unit units x).

(** What a successful visit with [path] in progress does to [done]. *)
Definition extends_avoiding (path done done' : list string) : Prop :=
  exists extra, done' = (done ++ extra)%list
                /\ forall x, In x extra -> ~ In x path.

(** The walk from every unit, as [sort_based_on_dependency] starts it. *)
Definition walk (units : list (Migration Store Obj))
  : option (Exc + list string) :=
  visit_each (fun n dn => visit units (S (length units)) n [] dn)
    (map (@classname Store Obj) units) [].

End Vocabulary.

(** * Vocabulary of the further statements *)

(** [sep.join(l)] *)
Fixpoint str_join (sep : string) (l : list string) : string :=
  match l with
  | [] => EmptyString
  | x :: rest =>
      match rest with
      | [] => x
      | _ :: _ => x ++ sep ++ str_join sep rest
      end
  end.

(** [s[n:]] *)
Fixpoint str_drop (n : nat) (s : string) : string :=
  match n, s with
  | O, _ => s
  | S _, EmptyString => EmptyString
  | S k, String _ s' => str_drop k s'
  end.

Section MoreVocabulary.

Variables Store Obj : Type.

Definition is_progress (e : Event Obj) : bool :=
  match e with EvProgress _ _ => true | _ => false end.

Definition is_update_progress (e : Event Obj) : bool :=
  match e with EvUpdateProgress _ _ _ => true | _ => false end.

Definition is_execute (e : Event Obj) : bool :=
  match e with EvExecute _ => true | _ => false end.

(** The events of the processing of a cursor, in either mode: all but those
    of the ledger and of the opening of the cursor. *)
Definition cursor_event (e : Event Obj) : bool :=
  match e with
  | EvLedgerGet _ | EvLedgerCreate _ | EvOpenConnection | EvExecute _ => false
  | _ => true
  end.

(** [m] never changes the target store. *)
Definition keeps_store {A} (m : M Store Obj A) : Prop :=
  forall w, store (snd (m w)) = store w.

(** The cells of a row as they enter the constructor data untouched. *)
Definition raw_cells (row : Row) : Dict (Cell Obj) :=
  map (fun kv => (fst kv, CRaw (snd kv))) row.

End MoreVocabulary.

(** * Properties *)

(** ** Strings and descriptors *)

Example split_123 : str_split "1,2,3" "," = inr ["1"; "2"; "3"].
Proof. reflexivity. Qed.

Example split_empty_string : str_split "" "," = inr [""].
Proof. reflexivity. Qed.

Example split_long_separator :
  str_split "a--b----c-" "--" = inr ["a"; "b"; ""; "c-"].
Proof. reflexivity. Qed.

Lemma is_a_with_search_attr (k : ClassRef) (a : string) (o : IsAOptions) :
  exists d, is_a k (Some a) o = inr d
            /\ fk d = opt_fk o /\ m2m d = opt_m2m o /\ o2o d = opt_o2o o.
Proof. eexists; split; [reflexivity | auto]. Qed.

(** C9: [is_a] checks nothing but [search_attr].  Called as in
    [test_multiple_type_definition], with [fk=True] and [m2m=True], it raises
    nothing and returns a descriptor carrying both kinds; the delimiter it
    was not given is the default [";"]. *)
Theorem is_a_accepts_two_kinds :
  is_a (IsModel {| cls_name := "User"; cls_parents := [] |}) (Some "username")
       {| opt_fk := true; opt_m2m := true; opt_o2o := opt_o2o is_a_defaults;
          opt_exclude := opt_exclude is_a_defaults;
          opt_delimiter := opt_delimiter is_a_defaults;
          opt_skip_missing := opt_skip_missing is_a_defaults |}
  = inr {| m2m := true;
           klass := IsModel {| cls_name := "User"; cls_parents := [] |};
           fk := true; o2o := false; attr := "username"; exclude := false;
           delimiter := ";"; skip_missing := false |}.
Proof. reflexivity. Qed.

Lemma is_a_default_delimiter (k : ClassRef) (a : string) :
  exists d, is_a k (Some a) is_a_defaults = inr d /\ delimiter d = ";".
Proof. eexists; split; reflexivity. Qed.

(** ** The monad and its frame *)

Section MonadFacts.

Variables Store Obj : Type.

Implicit Types w : World Store Obj.

Lemma bind_inr {A B} (m : M Store Obj A) (f : A -> M Store Obj B) w b w' :
  bind m f w = (inr b, w') ->
  exists a w1, m w = (inr a, w1) /\ f a w1 = (inr b, w').
Proof.
  unfold bind. destruct (m w) as [[e | a] w1]; intros H.
  - discriminate.
  - exists a, w1. auto.
Qed.

Lemma bind_inl {A B} (m : M Store Obj A) (f : A -> M Store Obj B) w e w' :
  bind m f w = (inl e, w') ->
  m w = (inl e, w')
  \/ exists a w1, m w = (inr a, w1) /\ f a w1 = (inl e, w').
Proof.
  unfold bind. destruct (m w) as [[e1 | a] w1]; intros H.
  - left. inversion H; subst. reflexivity.
  - right. exists a, w1. auto.
Qed.

Lemma bind_step {A B} (m : M Store Obj A) (f : A -> M Store Obj B) w a w1 :
  m w = (inr a, w1) -> bind m f w = f a w1.
Proof. unfold bind. intros ->. reflexivity. Qed.

Lemma bind_fail {A B} (m : M Store Obj A) (f : A -> M Store Obj B) w e w1 :
  m w = (inl e, w1) -> bind m f w = (inl e, w1).
Proof. unfold bind. intros ->. reflexivity. Qed.

Lemma bind_assoc {A B C} (m : M Store Obj A) (f : A -> M Store Obj B)
    (g : B -> M Store Obj C) w :
  bind (bind m f) g w = bind m (fun a => bind (f a) g) w.
Proof.
  unfold bind. destruct (m w) as [[e | a] w1]; reflexivity.
Qed.

Variable P : Event Obj -> bool.

Lemma frame_ret {A} (a : A) : frame P (ret (Store := Store) a).
Proof. intros w. split; [reflexivity |]. exists []. rewrite app_nil_r. auto. Qed.

Lemma frame_raise {A} (e : Exc) : frame P (raise (Store := Store) (A := A) e).
Proof. intros w. split; [reflexivity |]. exists []. rewrite app_nil_r. auto. Qed.

Lemma frame_lift {A} (r : Exc + A) : frame P (lift (Store := Store) r).
Proof. destruct r; [apply frame_raise | apply frame_ret]. Qed.

Lemma frame_emit (e : Event Obj) : P e = true -> frame P (emit (Store := Store) e).
Proof.
  intros He w. split; [reflexivity |]. exists [e]. simpl. rewrite He. auto.
Qed.

Lemma frame_read_store {A} (f : Store -> Exc + A) :
  frame P (read_store (Obj := Obj) f).
Proof. intros w. unfold read_store. apply frame_lift. Qed.

Lemma frame_on_store {A} (f : Store -> Exc + (A * Store)) :
  frame P (on_store (Obj := Obj) f).
Proof.
  intros w. unfold on_store. destruct (f (store w)) as [e | [a s]]; simpl;
    (split; [reflexivity |]); exists []; rewrite app_nil_r; auto.
Qed.

Lemma frame_on_store_ (f : Store -> Exc + Store) :
  frame P (on_store_ (Obj := Obj) f).
Proof.
  intros w. unfold on_store_. destruct (f (store w)) as [e | s]; simpl;
    (split; [reflexivity |]); exists []; rewrite app_nil_r; auto.
Qed.

Lemma frame_bind {A B} (m : M Store Obj A) (f : A -> M Store Obj B) :
  frame P m -> (forall a, frame P (f a)) -> frame P (bind m f).
Proof.
  intros Hm Hf w. unfold bind. specialize (Hm w).
  destruct (m w) as [[e | a] w1]; simpl in *.
  - exact Hm.
  - destruct Hm as [Hl [evs [Hlog Hall]]].
    destruct (Hf a w1) as [Hl2 [evs2 [Hlog2 Hall2]]].
    split; [congruence |].
    exists (evs ++ evs2)%list. rewrite Hlog2, Hlog, app_assoc. split; auto.
    rewrite forallb_app, Hall, Hall2. reflexivity.
Qed.

Lemma frame_try_except {A} (m : M Store Obj A) (h : Exc -> M Store Obj A) :
  frame P m -> (forall e, frame P (h e)) -> frame P (try_except m h).
Proof.
  intros Hm Hh w. unfold try_except. specialize (Hm w).
  destruct (m w) as [[e | a] w1]; simpl in *.
  - destruct Hm as [Hl [evs [Hlog Hall]]].
    destruct (Hh e w1) as [Hl2 [evs2 [Hlog2 Hall2]]].
    split; [congruence |].
    exists (evs ++ evs2)%list. rewrite Hlog2, Hlog, app_assoc. split; auto.
    rewrite forallb_app, Hall, Hall2. reflexivity.
  - exact Hm.
Qed.

End MonadFacts.

Lemma frame_weaken {Store Obj A} (P Q : Event Obj -> bool)
    (m : M Store Obj A) :
  (forall e, P e = true -> Q e = true) -> frame P m -> frame Q m.
Proof.
  intros HPQ Hm w. destruct (Hm w) as [Hl [evs [Hlog Hall]]].
  split; [exact Hl |]. exists evs. split; [exact Hlog |].
  rewrite forallb_forall in *. auto.
Qed.

Create HintDb frame.

#[local] Hint Resolve frame_ret frame_raise frame_lift frame_read_store
  frame_on_store frame_on_store_ : frame.

Ltac frame_steps :=
  repeat first
    [ apply frame_bind; [| intros ]
    | apply frame_try_except; [| intros ]
    | apply frame_emit; solve [ auto ]
    | solve [ auto with frame ] ].

(** ** What each method may add to the log *)

Section Frames.

Variables Store Obj : Type.
Variable orm : ORM Store Obj.

Implicit Types (w : World Store Obj) (self : Migration Store Obj).

Lemma get_object_frame self desc value :
  frame (@is_get Obj) (get_object orm self desc value).
Proof.
  unfold get_object. destruct (klass desc); auto with frame.
  frame_steps.
  destruct (model self); auto with frame.
  destruct (catches_DoesNotExist k0 e); auto with frame.
  destruct (skip_missing desc); auto with frame.
Qed.

Lemma resolve_tokens_frame self desc names users :
  frame (@is_get Obj) (resolve_tokens orm self desc names users).
Proof.
  revert users. induction names as [| name rest IH]; intros users; simpl.
  - auto with frame.
  - apply frame_bind; [apply get_object_frame |].
    intros [o |]; apply IH.
Qed.

Lemma transform_field_frame self acc item :
  frame (@is_get Obj) (transform_field orm self acc item).
Proof.
  unfold transform_field. destruct acc as [cd ms], item as [fieldname data].
  destruct (column_description self) as [d | v]; auto with frame.
  destruct (dict_get d fieldname) as [desc |]; auto with frame.
  destruct (exclude desc); auto with frame.
  destruct (fk desc || o2o desc).
  - apply frame_bind; [apply get_object_frame | auto with frame].
  - destruct (m2m desc); auto with frame.
    destruct (is_PyNone data); auto with frame.
    apply frame_bind; [auto with frame | intros].
    apply frame_bind; [apply resolve_tokens_frame | auto with frame].
Qed.

Lemma transform_row_dataset_frame self row :
  frame (@is_get Obj) (transform_row_dataset orm self row).
Proof.
  unfold transform_row_dataset. generalize (@nil (string * Cell Obj), @nil (string * list Obj)).
  induction row as [| item rest IH]; intros acc; simpl.
  - auto with frame.
  - apply frame_bind; [apply transform_field_frame | intros; apply IH].
Qed.

Lemma create_m2ms_frame instance m2ms :
  frame (@is_m2m_add Obj) (create_m2ms orm instance m2ms).
Proof.
  induction m2ms as [| [field values] rest IH]; simpl.
  - auto with frame.
  - frame_steps.
Qed.

Lemma instantiate_frame self cd :
  frame (@row_event Obj) (instantiate orm self cd).
Proof.
  unfold instantiate. destruct (model self); auto with frame. frame_steps.
Qed.

Lemma create_instance_frame self row :
  frame (@row_event Obj) (create_instance orm self row).
Proof.
  unfold create_instance.
  apply frame_bind; [frame_steps | intros _].
  apply frame_bind; [frame_steps | intros _].
  apply frame_bind.
  { apply frame_weaken with (P := @is_get Obj);
      [intros []; simpl; congruence | apply transform_row_dataset_frame]. }
  intros [cd ms].
  apply frame_bind; [apply instantiate_frame | intros].
  apply frame_bind; [frame_steps | intros _].
  apply frame_bind; [frame_steps | intros].
  apply frame_bind; [frame_steps | intros _].
  apply frame_bind; [frame_steps | intros].
  apply frame_bind.
  { apply frame_weaken with (P := @is_m2m_add Obj);
      [intros []; simpl; congruence | apply create_m2ms_frame]. }
  intros _. frame_steps.
Qed.

Lemma process_rows_frame self total current rs :
  frame (@fresh_row_event Obj) (process_rows orm self total current rs).
Proof.
  revert current. induction rs as [| row rest IH]; intros current; simpl.
  - auto with frame.
  - apply frame_bind; [frame_steps | intros _].
    apply frame_bind; [| intros _; apply IH].
    apply frame_weaken with (P := @row_event Obj);
      [intros []; simpl; congruence | apply create_instance_frame].
Qed.

Lemma update_row_frame self total existing created row :
  frame (@update_event Obj) (update_row orm self total existing created row).
Proof.
  unfold update_row.
  apply frame_bind; [frame_steps | intros desc].
  apply frame_bind; [frame_steps | intros key].
  apply frame_bind.
  { apply frame_weaken with (P := @is_get Obj);
      [intros []; simpl; congruence | apply get_object_frame]. }
  intros [e |].
  - frame_steps.
  - apply frame_bind; [frame_steps | intros _].
    apply frame_bind; [| intros _; auto with frame].
    apply frame_weaken with (P := @row_event Obj);
      [intros []; simpl; congruence | apply create_instance_frame].
Qed.

Lemma update_rows_frame self total existing created rs :
  frame (@update_event Obj) (update_rows orm self total existing created rs).
Proof.
  revert existing created.
  induction rs as [| row rest IH]; intros existing created; simpl.
  - auto with frame.
  - apply frame_bind; [apply update_row_frame | intros [e c]; apply IH].
Qed.

Lemma process_cursor_for_update_frame self cursor fields :
  frame (@update_event Obj) (process_cursor_for_update orm self cursor fields).
Proof.
  unfold process_cursor_for_update, fetchall.
  apply frame_bind; [frame_steps | intros rs].
  apply frame_bind; [apply update_rows_frame | intros _; frame_steps].
Qed.

Lemma process_cursor_frame self cursor fields :
  frame (@body_event Obj) (process_cursor orm self cursor fields).
Proof.
  unfold process_cursor, fetchall.
  apply frame_bind; [frame_steps | intros _].
  apply frame_bind; [frame_steps | intros _].
  apply frame_bind; [frame_steps | intros rs].
  apply frame_bind; [| intros _; frame_steps].
  apply frame_weaken with (P := @fresh_row_event Obj);
    [intros []; simpl; congruence | apply process_rows_frame].
Qed.

Lemma open_cursor_frame self :
  frame (@body_event Obj) (open_cursor self).
Proof. unfold open_cursor. frame_steps. Qed.

Lemma frame_run (P : Event Obj -> bool) {A} (m : M Store Obj A) w r w' :
  frame P m -> m w = (r, w') ->
  ledger w' = ledger w
  /\ exists evs, log w' = (log w ++ evs)%list /\ forallb P evs = true.
Proof. intros Hm Hrun. specialize (Hm w). rewrite Hrun in Hm. exact Hm. Qed.

End Frames.

(** ** The ledger and the decision of [migrate] *)

Section Decision.

Variables Store Obj : Type.
Variable orm : ORM Store Obj.

Implicit Types (w : World Store Obj) (self : Migration Store Obj).

Lemma migration_required_world self w r w1 :
  migration_required self w = (r, w1) ->
  w1 = add_log (EvLedgerGet (classname self)) w.
Proof.
  cbv [migration_required try_except bind AppliedMigration_get emit ret raise].
  simpl.
  destruct (count_occ string_dec (ledger w) (classname self)) as [| [| n]];
    simpl; [| destruct (allow_updates self) |]; simpl;
    intros H; inversion H; reflexivity.
Qed.

Lemma migration_required_absent self w :
  ~ In (classname self) (ledger w) ->
  migration_required self w
  = (inr (Some true), add_log (EvLedgerGet (classname self)) w).
Proof.
  intros Hnot.
  cbv [migration_required try_except bind AppliedMigration_get emit ret raise].
  simpl.
  rewrite (proj1 (count_occ_not_In string_dec _ _) Hnot). reflexivity.
Qed.

Lemma migration_required_present self w :
  NoDup (ledger w) -> In (classname self) (ledger w) ->
  migration_required self w
  = (inr (if allow_updates self then None else Some false),
     add_log (EvLedgerGet (classname self)) w).
Proof.
  intros Hnd Hin.
  cbv [migration_required try_except bind AppliedMigration_get emit ret raise].
  simpl.
  assert (Hc : count_occ string_dec (ledger w) (classname self) = 1).
  { pose proof (proj1 (NoDup_count_occ string_dec _) Hnd (classname self)).
    pose proof (proj1 (count_occ_In string_dec _ _) Hin). lia. }
  rewrite Hc. destruct (allow_updates self); reflexivity.
Qed.

(** After the decision [check], [migrate] is the rest of its body. *)
Lemma migrate_after_decision self w check w1 :
  migration_required self w = (inr check, w1) ->
  migrate orm self w
  = if is_False check then
      emit (EvPrint (classname self ++ " has already been migrated, skip it!"))
           w1
    else
      ('(cursor, fields) <- open_cursor self ;;
       if is_None check then
         process_cursor_for_update orm self cursor fields
       else
         process_cursor orm self cursor fields ;;
         AppliedMigration_create (classname self)) w1.
Proof.
  intros Hreq. unfold migrate. erewrite bind_step by exact Hreq.
  destruct (is_False check); [reflexivity |].
  unfold open_cursor, bind, emit, lift, ret, raise. simpl.
  destruct (check_migration self) as [e | []]; [reflexivity |].
  destruct (open_db_connection self) as [e | connection]; [reflexivity |].
  destruct (execute connection (query self)) as [e | cursor]; [reflexivity |].
  destruct (field_names cursor) as [e | fields]; reflexivity.
Qed.

Lemma check_migration_malformed self :
  malformed self ->
  exists msg, check_migration self = inl (ImproperlyConfigured msg).
Proof.
  unfold malformed, check_migration.
  destruct (column_description self) as [cd | v]; simpl;
    [| intros _; eexists; reflexivity ].
  destruct (allow_updates self), (search_attr self) as [a |]; simpl;
    try (intros _; eexists; reflexivity);
    (destruct (depends_on self) as [l | v]; simpl;
       [| intros _; eexists; reflexivity ]);
    (destruct (model self) as [k | n | v]; simpl;
       try (intros _; eexists; reflexivity));
    (destruct (query self) as [| b | z | s | s | s]; simpl;
       try (intros _; eexists; reflexivity));
    (destruct (str_contains "SELECT" s) eqn:Hsel; simpl;
       [| intros _; eexists; reflexivity ]);
    intros [[v Hv] | [[Ha Hs] | [[v Hv] | [Hm | Hq]]]];
    try discriminate;
    try (exfalso; apply (Hm k); reflexivity);
    try (specialize (Hq s eq_refl); congruence).
Qed.

(** A unit that passed [check_migration] and allows updates has a
    [search_attr] and a model class. *)
Lemma update_mode_configuration self :
  check_migration self = inr tt -> allow_updates self = true ->
  exists a m, search_attr self = Some a /\ model self = IsModel m.
Proof.
  unfold check_migration. intros Hok Hupd. rewrite Hupd in Hok.
  destruct (column_description self); simpl in Hok; [| discriminate].
  destruct (search_attr self) as [a |]; simpl in Hok; [| discriminate].
  destruct (depends_on self); simpl in Hok; [| discriminate].
  destruct (model self) as [m | n | v]; simpl in Hok; try discriminate.
  eauto.
Qed.

Lemma check_migration_passes self :
  check_migration self = inr tt -> ~ malformed self.
Proof.
  intros Hok Hbad. destruct (check_migration_malformed Hbad) as [msg Hmsg].
  congruence.
Qed.

End Decision.

Section RunModes.

Variables Store Obj : Type.
Variable orm : ORM Store Obj.

Implicit Types (w : World Store Obj) (self : Migration Store Obj).

(** The fresh run, from the opening of the cursor to the ledger record. *)
Lemma fresh_run_ledger self w1 r w' :
  ('(cursor, fields) <- open_cursor self ;;
   process_cursor orm self cursor fields ;;
   AppliedMigration_create (classname self)) w1 = (r, w') ->
  exists evs,
    forallb (@body_event Obj) evs = true
    /\ ((r = inr tt
         /\ ledger w' = (ledger w1 ++ [classname self])%list
         /\ log w' = (log w1 ++ evs ++ [EvLedgerCreate (classname self)])%list)
        \/ ((exists e, r = inl e)
            /\ ledger w' = ledger w1
            /\ log w' = (log w1 ++ evs)%list)).
Proof.
  intros Hrun.
  assert (Hfr : frame (@body_event Obj)
                  ('(cursor, fields) <- open_cursor self ;;
                   process_cursor orm self cursor fields)).
  { apply frame_bind; [apply open_cursor_frame |].
    intros [c f]. apply process_cursor_frame. }
  assert (Heq : ('(cursor, fields) <- open_cursor self ;;
                 process_cursor orm self cursor fields ;;
                 AppliedMigration_create (classname self)) w1
                = (('(cursor, fields) <- open_cursor self ;;
                    process_cursor orm self cursor fields) ;;
                   AppliedMigration_create (classname self)) w1).
  { rewrite bind_assoc. unfold bind.
    destruct (open_cursor self w1) as [[e | [c f]] w2]; reflexivity. }
  rewrite Heq in Hrun. clear Heq.
  destruct (('(cursor, fields) <- open_cursor self ;;
             process_cursor orm self cursor fields) w1)
    as [[e | []] w3] eqn:Hbody.
  - erewrite bind_fail in Hrun by exact Hbody. inversion Hrun; subst.
    destruct (frame_run w1 Hfr Hbody) as [Hl [evs [Hlog Hall]]].
    exists evs. split; [exact Hall |]. right. eauto.
  - erewrite bind_step in Hrun by exact Hbody.
    destruct (frame_run w1 Hfr Hbody) as [Hl [evs [Hlog Hall]]].
    cbv [AppliedMigration_create bind emit] in Hrun. inversion Hrun; subst.
    exists evs. split; [exact Hall |]. left. simpl.
    rewrite Hl, Hlog, app_assoc. auto.
Qed.

(** C1: the run mode of a unit is a function of the ledger, looked once
    before anything else.  With a ledger holding each unit at most once:
    the log of [migrate] begins with the one look at the ledger; a unit
    without record runs [process_cursor] and, when that succeeds, gains
    exactly one record (and none when it fails); a unit with a record and
    no [allow_updates] is skipped, with no query and no record; a unit with
    a record and [allow_updates] runs [process_cursor_for_update] and the
    ledger stays as it is. *)
Theorem run_mode_is_decided_by_ledger self w :
  NoDup (ledger w) ->
  let name := classname self in
  let w1 := add_log (EvLedgerGet name) w in
  (exists evs, log (snd (migrate orm self w))
               = (log w ++ EvLedgerGet name :: evs)%list
               /\ forallb (@run_event Obj) evs = true)
  /\ (~ In name (ledger w) ->
      migrate orm self w
      = ('(cursor, fields) <- open_cursor self ;;
         process_cursor orm self cursor fields ;;
         AppliedMigration_create name) w1
      /\ (forall w', migrate orm self w = (inr tt, w') ->
          ledger w' = (ledger w ++ [name])%list
          /\ count_occ string_dec (ledger w') name = 1
          /\ exists evs, log w' = (log w1 ++ evs ++ [EvLedgerCreate name])%list
                         /\ forallb (@body_event Obj) evs = true)
      /\ (forall e w', migrate orm self w = (inl e, w') ->
          ledger w' = ledger w))
  /\ (In name (ledger w) -> allow_updates self = false ->
      migrate orm self w
      = (inr tt,
         add_log (EvPrint (name ++ " has already been migrated, skip it!")) w1))
  /\ (In name (ledger w) -> allow_updates self = true ->
      migrate orm self w
      = ('(cursor, fields) <- open_cursor self ;;
         process_cursor_for_update orm self cursor fields) w1
      /\ ledger (snd (migrate orm self w)) = ledger w
      /\ exists evs, log (snd (migrate orm self w)) = (log w1 ++ evs)%list
                     /\ forallb (@body_event Obj) evs = true).
Proof.
  intros Hnd name w1.
  assert (Hfresh : ~ In name (ledger w) ->
            migrate orm self w
            = ('(cursor, fields) <- open_cursor self ;;
               process_cursor orm self cursor fields ;;
               AppliedMigration_create name) w1).
  { intros Hnot.
    rewrite (migrate_after_decision orm self w (migration_required_absent self w Hnot)).
    reflexivity. }
  assert (Hskip : In name (ledger w) -> allow_updates self = false ->
            migrate orm self w
            = (inr tt,
               add_log (EvPrint (name ++ " has already been migrated, skip it!"))
                 w1)).
  { intros Hin Hno.
    rewrite (migrate_after_decision orm self w (migration_required_present self w Hnd Hin)).
    rewrite Hno. reflexivity. }
  assert (Hupd : In name (ledger w) -> allow_updates self = true ->
            migrate orm self w
            = ('(cursor, fields) <- open_cursor self ;;
               process_cursor_for_update orm self cursor fields) w1).
  { intros Hin Hyes.
    rewrite (migrate_after_decision orm self w (migration_required_present self w Hnd Hin)).
    rewrite Hyes. reflexivity. }
  assert (Hupdf : frame (@body_event Obj)
                    ('(cursor, fields) <- open_cursor self ;;
                     process_cursor_for_update orm self cursor fields)).
  { apply frame_bind; [apply open_cursor_frame |]. intros [c f].
    apply frame_weaken with (P := @update_event Obj);
      [intros []; simpl; congruence | apply process_cursor_for_update_frame]. }
  split; [| split; [| split; [exact Hskip |]]].
  - destruct (in_dec string_dec name (ledger w)) as [Hin | Hnot].
    + destruct (allow_updates self) eqn:Ha.
      * rewrite (Hupd Hin eq_refl).
        destruct (Hupdf w1) as [_ [evs [Hlog Hall]]].
        exists evs. rewrite Hlog. simpl. rewrite <- app_assoc. split; auto.
        rewrite forallb_forall in *. intros e He. specialize (Hall e He).
        destruct e; simpl in *; congruence.
      * rewrite (Hskip Hin eq_refl). simpl.
        eexists. rewrite <- app_assoc. split; reflexivity.
    + rewrite (Hfresh Hnot).
      destruct (('(cursor, fields) <- open_cursor self ;;
                 process_cursor orm self cursor fields ;;
                 AppliedMigration_create name) w1) as [r w'] eqn:Hrun.
      destruct (fresh_run_ledger self _ Hrun)
        as [evs [Hall [[_ [_ Hlog]] | [_ [_ Hlog]]]]]; simpl; rewrite Hlog.
      * exists (evs ++ [EvLedgerCreate name])%list. simpl.
        rewrite <- app_assoc. split; auto.
        rewrite forallb_app. simpl. rewrite andb_true_r.
        rewrite forallb_forall in *. intros e He. specialize (Hall e He).
        destruct e; simpl in *; congruence.
      * exists evs. simpl. rewrite <- app_assoc. split; auto.
        rewrite forallb_forall in *. intros e He. specialize (Hall e He).
        destruct e; simpl in *; congruence.
  - intros Hnot. split; [exact (Hfresh Hnot) | split].
    + intros w' Hrun. rewrite (Hfresh Hnot) in Hrun.
      destruct (fresh_run_ledger self _ Hrun)
        as [evs [Hall [[_ [Hl Hlog]] | [[e He] _]]]]; [| discriminate].
      simpl in Hl. split; [exact Hl |]. split; [| eauto].
      rewrite Hl, count_occ_app. simpl.
      rewrite (proj1 (count_occ_not_In string_dec _ _) Hnot).
      destruct (string_dec (classname self) name) as [_ | Hne];
        [reflexivity | exfalso; apply Hne; reflexivity].
    + intros e w' Hrun. rewrite (Hfresh Hnot) in Hrun.
      destruct (fresh_run_ledger self _ Hrun)
        as [evs [Hall [[He _] | [_ [Hl _]]]]]; [discriminate | exact Hl].
  - intros Hin Hyes. split; [exact (Hupd Hin Hyes) |].
    rewrite (Hupd Hin Hyes). destruct (Hupdf w1) as [Hl Hev].
    split; [exact Hl | exact Hev].
Qed.

(** C10: a unit with a ledger record and no [allow_updates] returns right
    after the skip notice: whatever its configuration, [check_migration] is
    not reached and raises nothing. *)
Theorem skipped_unit_is_not_validated self w :
  NoDup (ledger w) ->
  In (classname self) (ledger w) ->
  allow_updates self = false ->
  migrate orm self w
  = (inr tt,
     add_log (EvPrint (classname self ++ " has already been migrated, skip it!"))
       (add_log (EvLedgerGet (classname self)) w))
  /\ forall e, check_migration self = inl e ->
               fst (migrate orm self w) <> inl e.
Proof.
  intros Hnd Hin Hno.
  assert (Heq : migrate orm self w
                = (inr tt,
                   add_log (EvPrint (classname self
                                     ++ " has already been migrated, skip it!"))
                     (add_log (EvLedgerGet (classname self)) w))).
  { rewrite (migrate_after_decision orm self w (migration_required_present self w Hnd Hin)).
    rewrite Hno. reflexivity. }
  split; [exact Heq |]. intros e _. rewrite Heq. discriminate.
Qed.

(** C8: when a unit is about to execute (the decision is not to skip) and
    its configuration has one of the five defects, [migrate] raises
    [ImproperlyConfigured] right after the notice: the store and the ledger
    are those of the start and the log has gained the look at the ledger and
    the notice only, so no connection was opened, no query run, no row
    fetched and no hook called. *)
Theorem malformed_unit_fails_before_query self w check w1 :
  migration_required self w = (inr check, w1) ->
  is_False check = false ->
  malformed self ->
  exists msg w',
    migrate orm self w = (inl (ImproperlyConfigured msg), w')
    /\ store w' = store w
    /\ ledger w' = ledger w
    /\ log w' = (log w ++ [EvLedgerGet (classname self);
                           EvPrint ("Migrating " ++ classname self)])%list.
Proof.
  intros Hreq Hrun Hbad.
  destruct (check_migration_malformed Hbad) as [msg Hmsg].
  pose proof (migration_required_world self w Hreq) as Hw1.
  exists msg. eexists. split.
  - rewrite (migrate_after_decision orm self w Hreq), Hrun.
    cbv [open_cursor bind emit lift raise]. rewrite Hmsg. reflexivity.
  - subst w1. simpl. rewrite <- app_assoc. auto.
Qed.

End RunModes.

(** ** Lookups and the transformation of a row *)

Section Lookups.

Variables Store Obj : Type.
Variable orm : ORM Store Obj.

Implicit Types (w : World Store Obj) (self : Migration Store Obj).

Lemma get_object_found self desc value w k o :
  klass desc = IsModel k ->
  objects_get orm k (attr desc) value (store w) = inr o ->
  get_object orm self desc value w
  = (inr (Some o), add_log (EvGet k (attr desc) value) w).
Proof.
  intros Hk Hget. unfold get_object. rewrite Hk.
  cbv [try_except bind emit read_store lift ret]. simpl. rewrite Hget.
  reflexivity.
Qed.

Lemma get_object_skipped self desc value w k m e :
  klass desc = IsModel k ->
  model self = IsModel m ->
  objects_get orm k (attr desc) value (store w) = inl e ->
  catches_DoesNotExist m e = true ->
  skip_missing desc = true ->
  get_object orm self desc value w
  = (inr None, add_log (EvGet k (attr desc) value) w).
Proof.
  intros Hk Hm Hget Hcatch Hskip. unfold get_object. rewrite Hk.
  cbv [try_except bind emit read_store lift ret raise]. simpl.
  rewrite Hget, Hm, Hcatch, Hskip. reflexivity.
Qed.

Lemma get_object_raised self desc value w k m e :
  klass desc = IsModel k ->
  model self = IsModel m ->
  objects_get orm k (attr desc) value (store w) = inl e ->
  catches_DoesNotExist m e = false \/ skip_missing desc = false ->
  get_object orm self desc value w
  = (inl e, add_log (EvGet k (attr desc) value) w).
Proof.
  intros Hk Hm Hget Hor. unfold get_object. rewrite Hk.
  cbv [try_except bind emit read_store lift ret raise]. simpl.
  rewrite Hget, Hm.
  destruct (catches_DoesNotExist m e); [| reflexivity].
  destruct Hor as [Hc | Hs]; [discriminate | rewrite Hs; reflexivity].
Qed.

Lemma catches_own_model (m : ModelClass) :
  catches_DoesNotExist m (DoesNotExist m) = true.
Proof. simpl. rewrite String.eqb_refl. reflexivity. Qed.

(** [get_object] reads the store and changes only the log, by one lookup. *)
Lemma get_object_world self desc value w r w' k :
  klass desc = IsModel k ->
  get_object orm self desc value w = (r, w') ->
  w' = add_log (EvGet k (attr desc) value) w.
Proof.
  intros Hk. unfold get_object. rewrite Hk.
  cbv [try_except bind emit read_store lift ret raise]. simpl.
  destruct (objects_get orm k (attr desc) value (store w)) as [e | o].
  - destruct (model self) as [m | n | v].
    + destruct (catches_DoesNotExist m e).
      * destruct (skip_missing desc); intros H; inversion H; reflexivity.
      * intros H; inversion H; reflexivity.
    + intros H; inversion H; reflexivity.
    + intros H; inversion H; reflexivity.
  - intros H; inversion H; reflexivity.
Qed.

(** What [get_object] returns, as a function of the store. *)
Lemma get_object_result self desc value w r w' k :
  klass desc = IsModel k ->
  get_object orm self desc value w = (r, w') ->
  match objects_get orm k (attr desc) value (store w) with
  | inr o => r = inr (Some o)
  | inl e => r = inr None \/ exists e', r = inl e'
  end.
Proof.
  intros Hk. unfold get_object. rewrite Hk.
  cbv [try_except bind emit read_store lift ret raise]. simpl.
  destruct (objects_get orm k (attr desc) value (store w)) as [e | o].
  - destruct (model self) as [m | n | v].
    + destruct (catches_DoesNotExist m e).
      * destruct (skip_missing desc); intros H; inversion H; eauto.
      * intros H; inversion H; eauto.
    + intros H; inversion H; eauto.
    + intros H; inversion H; eauto.
  - intros H; inversion H; reflexivity.
Qed.

(** A run of [resolve_tokens] that succeeds has looked up each token once,
    in order, and kept the instances found. *)
Lemma resolve_tokens_success self desc k tokens :
  klass desc = IsModel k ->
  forall users w us w',
    resolve_tokens orm self desc tokens users w = (inr us, w') ->
    store w' = store w
    /\ ledger w' = ledger w
    /\ log w' = (log w ++ map (EvGet k (attr desc)) tokens)%list
    /\ us = (users ++ found_in orm k (attr desc) (store w) tokens)%list.
Proof.
  intros Hk. induction tokens as [| t rest IH]; intros users w us w' Hrun.
  - simpl in Hrun. inversion Hrun; subst. simpl.
    rewrite !app_nil_r. auto.
  - simpl in Hrun. apply bind_inr in Hrun.
    destruct Hrun as [element [w1 [Hget Hrest]]].
    pose proof (get_object_world _ _ _ _ Hk Hget) as Hw1.
    pose proof (get_object_result _ _ _ _ Hk Hget) as Hres.
    assert (Hs1 : store w1 = store w) by (subst w1; reflexivity).
    simpl. destruct element as [o |].
    + apply IH in Hrest. destruct Hrest as [Hs [Hl [Hlog Hus]]].
      destruct (objects_get orm k (attr desc) t (store w)) as [e | o'].
      * destruct Hres as [Hr | [e' Hr]]; discriminate.
      * inversion Hres; subst o'. subst w1. simpl in *.
        rewrite Hlog, Hus, <- !app_assoc. auto.
    + apply IH in Hrest. destruct Hrest as [Hs [Hl [Hlog Hus]]].
      destruct (objects_get orm k (attr desc) t (store w)) as [e | o'].
      * subst w1. simpl in *. rewrite Hlog, Hus, <- !app_assoc. auto.
      * discriminate.
Qed.

(** With [skip_missing], when the handler of the unit catches each failure
    of a lookup, [resolve_tokens] succeeds and drops the tokens not found. *)
Lemma resolve_tokens_skip_missing self desc k m tokens :
  klass desc = IsModel k ->
  model self = IsModel m ->
  skip_missing desc = true ->
  forall users w,
    (forall t e, In t tokens ->
                 objects_get orm k (attr desc) t (store w) = inl e ->
                 catches_DoesNotExist m e = true) ->
    exists w',
      resolve_tokens orm self desc tokens users w
      = (inr (users ++ found_in orm k (attr desc) (store w) tokens)%list, w').
Proof.
  intros Hk Hm Hskip. induction tokens as [| t rest IH]; intros users w Hall.
  - simpl. rewrite app_nil_r. eexists. reflexivity.
  - simpl.
    destruct (objects_get orm k (attr desc) t (store w)) as [e | o] eqn:Hget.
    + erewrite bind_step
        by (eapply get_object_skipped; eauto; eapply Hall; eauto; left; auto).
      destruct (IH users (add_log (EvGet k (attr desc) t) w)) as [w' Hw'].
      { intros t' e' Hin. simpl. apply Hall. right. exact Hin. }
      exists w'. exact Hw'.
    + erewrite bind_step by (eapply get_object_found; eauto).
      destruct (IH (users ++ [o])%list (add_log (EvGet k (attr desc) t) w))
        as [w' Hw'].
      { intros t' e' Hin. simpl. apply Hall. right. exact Hin. }
      exists w'. rewrite Hw'. simpl. rewrite <- app_assoc. reflexivity.
Qed.

End Lookups.

(** ** The creation of one instance *)

Section Rows.

Variables Store Obj : Type.
Variable orm : ORM Store Obj.

Implicit Types (w : World Store Obj) (self : Migration Store Obj).

Lemma emit_inv (e : Event Obj) w (r : Exc + unit) w' :
  emit (Store := Store) e w = (r, w') -> r = inr tt /\ w' = add_log e w.
Proof. unfold emit. intros H. inversion H. auto. Qed.

Lemma on_store__inv (f : Store -> Exc + Store) w w' :
  on_store_ (Obj := Obj) f w = (inr tt, w') ->
  exists s, f (store w) = inr s /\ w' = set_store s w.
Proof.
  unfold on_store_. destruct (f (store w)) as [e | s]; intros H;
    inversion H. eauto.
Qed.

Lemma on_store_inv {A} (f : Store -> Exc + (A * Store)) w a w' :
  on_store (Obj := Obj) f w = (inr a, w') ->
  exists s, f (store w) = inr (a, s) /\ w' = set_store s w.
Proof.
  unfold on_store. destruct (f (store w)) as [e | [a' s]]; intros H;
    inversion H. eauto.
Qed.

Lemma create_m2ms_success instance m2ms w w' :
  create_m2ms orm instance m2ms w = (inr tt, w') ->
  ledger w' = ledger w
  /\ log w' = (log w ++ m2m_calls instance m2ms)%list.
Proof.
  revert w. induction m2ms as [| [field values] rest IH]; intros w Hrun.
  - simpl in Hrun. inversion Hrun. simpl. rewrite app_nil_r. auto.
  - simpl in Hrun.
    apply bind_inr in Hrun. destruct Hrun as [[] [w1 [He Hrun]]].
    apply emit_inv in He. destruct He as [_ ->].
    apply bind_inr in Hrun. destruct Hrun as [[] [w2 [Hs Hrun]]].
    apply on_store__inv in Hs. destruct Hs as [s [_ ->]].
    apply IH in Hrun. destruct Hrun as [Hl Hlog].
    simpl in *. rewrite Hl, Hlog, <- app_assoc. auto.
Qed.

(** A successful [create_instance] is, in this order: the hook before the
    transformation, the lookups of the transformation, the construction,
    the hook before the save, the save, the [add] of each many-to-many
    field on the saved instance, and the hook after the save. *)
Lemma create_instance_success self row w w' :
  create_instance orm self row w = (inr tt, w') ->
  exists k cd ms gets inst0 inst1 inst2 s s',
    model self = IsModel k
    /\ forallb (@is_get Obj) gets = true
    /\ model_new orm k cd = inr inst0
    /\ obj_save orm inst1 s = inr (inst2, s')
    /\ ledger w' = ledger w
    /\ log w'
       = (log w ++ EvHookBeforeTransformation row :: gets
          ++ [EvNew k cd; EvHookBeforeSave inst0 row; EvSave inst1]
          ++ m2m_calls inst2 ms ++ [EvHookAfterSave inst2 row])%list.
Proof.
  unfold create_instance. intros Hrun.
  apply bind_inr in Hrun. destruct Hrun as [[] [w1 [He Hrun]]].
  apply emit_inv in He. destruct He as [_ ->].
  apply bind_inr in Hrun. destruct Hrun as [[] [w2 [Hs Hrun]]].
  apply on_store__inv in Hs. destruct Hs as [s2 [_ ->]].
  apply bind_inr in Hrun. destruct Hrun as [[cd ms] [w3 [Ht Hrun]]].
  destruct (frame_run _ (transform_row_dataset_frame orm self row) Ht)
    as [Hl3 [gets [Hlog3 Hgets]]].
  apply bind_inr in Hrun. destruct Hrun as [inst0 [w4 [Hi Hrun]]].
  unfold instantiate in Hi. destruct (model self) as [k | n | v] eqn:Hm;
    try discriminate.
  apply bind_inr in Hi. destruct Hi as [[] [w3' [He Hi]]].
  apply emit_inv in He. destruct He as [_ ->].
  unfold lift in Hi. destruct (model_new orm k cd) as [e | i0] eqn:Hnew;
    [discriminate |]. inversion Hi; subst i0 w4. clear Hi.
  apply bind_inr in Hrun. destruct Hrun as [[] [w5 [He Hrun]]].
  apply emit_inv in He. destruct He as [_ ->].
  apply bind_inr in Hrun. destruct Hrun as [inst1 [w6 [Hs Hrun]]].
  apply on_store_inv in Hs. destruct Hs as [s6 [_ ->]].
  apply bind_inr in Hrun. destruct Hrun as [[] [w7 [He Hrun]]].
  apply emit_inv in He. destruct He as [_ ->].
  apply bind_inr in Hrun. destruct Hrun as [inst2 [w8 [Hs Hrun]]].
  apply on_store_inv in Hs. destruct Hs as [s8 [Hsave ->]].
  apply bind_inr in Hrun. destruct Hrun as [[] [w9 [Hc Hrun]]].
  apply create_m2ms_success in Hc. destruct Hc as [Hl9 Hlog9].
  apply bind_inr in Hrun. destruct Hrun as [[] [w10 [He Hrun]]].
  apply emit_inv in He. destruct He as [_ ->].
  apply on_store__inv in Hrun. destruct Hrun as [s11 [_ ->]].
  exists k, cd, ms, gets, inst0, inst1, inst2. do 2 eexists.
  split; [reflexivity |]. split; [exact Hgets |]. split; [exact Hnew |].
  split; [exact Hsave |]. simpl in *.
  split; [congruence |].
  rewrite Hlog9. simpl. rewrite Hlog3. simpl.
  repeat (rewrite <- app_assoc; simpl). reflexivity.
Qed.

(** A successful [create_m2ms] has called [add] for every field of the
    many-to-many data, in order, on the store it was given. *)
Lemma create_m2ms_steps instance m2ms w w' :
  create_m2ms orm instance m2ms w = (inr tt, w') <->
  exists s',
    add_all orm instance m2ms (store w) = inr s'
    /\ w' = {| store := s'; ledger := ledger w;
               log := (log w ++ m2m_calls instance m2ms)%list |}.
Proof.
  revert w w'. induction m2ms as [| [field values] rest IH]; intros w w'.
  - simpl. split.
    + intros H. inversion H; subst. exists (store w'). split; [reflexivity |].
      destruct w'; simpl. rewrite app_nil_r. reflexivity.
    + intros [s' [Hs ->]]. inversion Hs; subst. destruct w; simpl.
      rewrite app_nil_r. reflexivity.
  - simpl. split.
    + intros Hrun.
      apply bind_inr in Hrun. destruct Hrun as [[] [w1 [He Hrun]]].
      apply emit_inv in He. destruct He as [_ ->].
      apply bind_inr in Hrun. destruct Hrun as [[] [w2 [Hs Hrun]]].
      apply on_store__inv in Hs. destruct Hs as [s [Hadd ->]].
      apply IH in Hrun. destruct Hrun as [s' [Hall ->]].
      simpl in Hadd. rewrite Hadd. exists s'. split; [exact Hall |].
      simpl. rewrite <- app_assoc. reflexivity.
    + intros [s' [Hall ->]].
      destruct (m2m_add orm instance field values (store w)) as [e | s]
        eqn:Hadd; [discriminate |].
      cbv [bind emit on_store_]. simpl. rewrite Hadd.
      apply IH. exists s'. split; [exact Hall |].
      simpl. rewrite <- app_assoc. reflexivity.
Qed.

(** What a successful [create_instance] is, step by step: each call with
    the arguments it gets, the store each one is given, and the events in
    their order.  The many-to-many data added after the save is the one
    [transform_row_dataset] returned for the row. *)
Lemma create_instance_steps self row w w' :
  create_instance orm self row w = (inr tt, w') <->
  exists s1 cdata m2ms w2 k inst0 inst1 s3 saved s4 s5 s6,
    hook_before_transformation self row (store w) = inr s1
    /\ transform_row_dataset orm self row
         (set_store s1 (add_log (EvHookBeforeTransformation row) w))
       = (inr (cdata, m2ms), w2)
    /\ model self = IsModel k
    /\ model_new orm k cdata = inr inst0
    /\ hook_before_save self inst0 row (store w2) = inr (inst1, s3)
    /\ obj_save orm inst1 s3 = inr (saved, s4)
    /\ add_all orm saved m2ms s4 = inr s5
    /\ hook_after_save self saved row s5 = inr s6
    /\ w' = {| store := s6; ledger := ledger w2;
               log := (log w2
                       ++ [EvNew k cdata; EvHookBeforeSave inst0 row;
                           EvSave inst1]
                       ++ m2m_calls saved m2ms
                       ++ [EvHookAfterSave saved row])%list |}.
Proof.
  unfold create_instance. split.
  - intros Hrun.
    apply bind_inr in Hrun. destruct Hrun as [[] [w1 [He Hrun]]].
    apply emit_inv in He. destruct He as [_ ->].
    apply bind_inr in Hrun. destruct Hrun as [[] [w1' [Hs Hrun]]].
    apply on_store__inv in Hs. destruct Hs as [s1 [Hhbt ->]].
    apply bind_inr in Hrun. destruct Hrun as [[cdata m2ms] [w2 [Ht Hrun]]].
    apply bind_inr in Hrun. destruct Hrun as [inst0 [w4 [Hi Hrun]]].
    unfold instantiate in Hi. destruct (model self) as [k | n | v] eqn:Hm;
      try discriminate.
    apply bind_inr in Hi. destruct Hi as [[] [w3' [He Hi]]].
    apply emit_inv in He. destruct He as [_ ->].
    unfold lift in Hi. destruct (model_new orm k cdata) as [e | i0] eqn:Hnew;
      [discriminate |]. inversion Hi; subst i0 w4. clear Hi.
    apply bind_inr in Hrun. destruct Hrun as [[] [w5 [He Hrun]]].
    apply emit_inv in He. destruct He as [_ ->].
    apply bind_inr in Hrun. destruct Hrun as [inst1 [w6 [Hs Hrun]]].
    apply on_store_inv in Hs. destruct Hs as [s3 [Hhbs ->]].
    apply bind_inr in Hrun. destruct Hrun as [[] [w7 [He Hrun]]].
    apply emit_inv in He. destruct He as [_ ->].
    apply bind_inr in Hrun. destruct Hrun as [saved [w8 [Hs Hrun]]].
    apply on_store_inv in Hs. destruct Hs as [s4 [Hsave ->]].
    apply bind_inr in Hrun. destruct Hrun as [[] [w9 [Hc Hrun]]].
    apply create_m2ms_steps in Hc. destruct Hc as [s5 [Hall ->]].
    apply bind_inr in Hrun. destruct Hrun as [[] [w10 [He Hrun]]].
    apply emit_inv in He. destruct He as [_ ->].
    apply on_store__inv in Hrun. destruct Hrun as [s6 [Hhas ->]].
    simpl in *.
    exists s1, cdata, m2ms, w2, k, inst0, inst1, s3, saved, s4, s5, s6.
    repeat (split; [assumption || reflexivity |]).
    unfold set_store, add_log. simpl.
    repeat (rewrite <- app_assoc; simpl). reflexivity.
  - intros (s1 & cdata & m2ms & w2 & k & inst0 & inst1 & s3 & saved & s4 & s5
            & s6 & Hhbt & Ht & Hm & Hnew & Hhbs & Hsave & Hall & Hhas & ->).
    erewrite bind_step by reflexivity.
    erewrite bind_step by (unfold on_store_; simpl; rewrite Hhbt; reflexivity).
    erewrite bind_step by exact Ht.
    unfold instantiate. rewrite Hm.
    erewrite bind_step
      by (cbv [bind emit lift ret]; rewrite Hnew; reflexivity).
    erewrite bind_step by reflexivity.
    erewrite bind_step by (unfold on_store; simpl; rewrite Hhbs; reflexivity).
    erewrite bind_step by reflexivity.
    erewrite bind_step by (unfold on_store; simpl; rewrite Hsave; reflexivity).
    erewrite bind_step
      by (apply create_m2ms_steps; exists s5; split;
          [simpl; exact Hall | reflexivity]).
    erewrite bind_step by reflexivity.
    unfold on_store_. simpl. rewrite Hhas.
    unfold set_store, add_log. simpl.
    repeat (rewrite <- app_assoc; simpl). reflexivity.
Qed.

(** The same, with the log of the transformation spelled out: after the
    hook, lookups and nothing else. *)
Lemma create_instance_trace self row w w' :
  create_instance orm self row w = (inr tt, w') <->
  exists s1 cdata m2ms w2 k inst0 inst1 s3 saved s4 s5 s6 gets,
    hook_before_transformation self row (store w) = inr s1
    /\ transform_row_dataset orm self row
         (set_store s1 (add_log (EvHookBeforeTransformation row) w))
       = (inr (cdata, m2ms), w2)
    /\ log w2 = (log w ++ EvHookBeforeTransformation row :: gets)%list
    /\ forallb (@is_get Obj) gets = true
    /\ model self = IsModel k
    /\ model_new orm k cdata = inr inst0
    /\ hook_before_save self inst0 row (store w2) = inr (inst1, s3)
    /\ obj_save orm inst1 s3 = inr (saved, s4)
    /\ add_all orm saved m2ms s4 = inr s5
    /\ hook_after_save self saved row s5 = inr s6
    /\ w' = {| store := s6; ledger := ledger w;
               log := (log w2
                       ++ [EvNew k cdata; EvHookBeforeSave inst0 row;
                           EvSave inst1]
                       ++ m2m_calls saved m2ms
                       ++ [EvHookAfterSave saved row])%list |}.
Proof.
  rewrite create_instance_steps. split.
  - intros (s1 & cdata & m2ms & w2 & k & inst0 & inst1 & s3 & saved & s4 & s5
            & s6 & Hhbt & Ht & Hm & Hnew & Hhbs & Hsave & Hall & Hhas & ->).
    destruct (frame_run _ (transform_row_dataset_frame orm self row) Ht)
      as [Hl [gets [Hlog Hgets]]].
    exists s1, cdata, m2ms, w2, k, inst0, inst1, s3, saved, s4, s5, s6, gets.
    simpl in Hl, Hlog. rewrite <- app_assoc in Hlog. simpl in Hlog.
    repeat (split; [assumption || reflexivity |]).
    rewrite Hl. reflexivity.
  - intros (s1 & cdata & m2ms & w2 & k & inst0 & inst1 & s3 & saved & s4 & s5
            & s6 & gets & Hhbt & Ht & _ & _ & Hm & Hnew & Hhbs & Hsave & Hall
            & Hhas & ->).
    destruct (frame_run _ (transform_row_dataset_frame orm self row) Ht)
      as [Hl _].
    exists s1, cdata, m2ms, w2, k, inst0, inst1, s3, saved, s4, s5, s6.
    repeat (split; [assumption || reflexivity |]).
    simpl in Hl. rewrite Hl. reflexivity.
Qed.

End Rows.

(** ** The two loops *)

Section Loops.

Variables Store Obj : Type.
Variable orm : ORM Store Obj.

Implicit Types (w : World Store Obj) (self : Migration Store Obj).

Lemma count_app (P : Event Obj -> bool) l1 l2 :
  count P (l1 ++ l2) = count P l1 + count P l2.
Proof. unfold count. rewrite filter_app, length_app. reflexivity. Qed.

Lemma count_none (P Q : Event Obj -> bool) l :
  (forall e, P e = true -> Q e = false) ->
  forallb P l = true -> count Q l = 0.
Proof.
  intros HPQ. unfold count. induction l as [| e l IH]; simpl; [reflexivity |].
  intros H. apply andb_true_iff in H. destruct H as [He Hl].
  rewrite (HPQ e He). auto.
Qed.

Lemma m2m_calls_kind (instance : Obj) (ms : Dict (list Obj)) :
  forallb (@is_m2m_add Obj) (m2m_calls instance ms) = true.
Proof. induction ms as [| fv ms IH]; simpl; auto. Qed.

(** A successful [create_instance] saves once and updates nothing. *)
Lemma create_instance_counts self row w w' :
  create_instance orm self row w = (inr tt, w') ->
  exists evs, log w' = (log w ++ evs)%list
              /\ count (@is_save Obj) evs = 1
              /\ count (@is_update_existing Obj) evs = 0
              /\ forallb (@row_event Obj) evs = true.
Proof.
  intros Hrun.
  destruct (create_instance_frame orm self row w) as [_ [evs' [Hlog' Hall']]].
  rewrite Hrun in Hlog'. simpl in Hlog'.
  pose proof Hrun as Hok. apply create_instance_success in Hok.
  destruct Hok
    as (k & cd & ms & gets & i0 & i1 & i2 & s & s' & _ & Hgets & _ & _ & _ & Hlog).
  eexists. split; [exact Hlog |].
  assert (Hev : evs' = (EvHookBeforeTransformation row :: gets
          ++ [EvNew k cd; EvHookBeforeSave i0 row; EvSave i1]
          ++ m2m_calls i2 ms ++ [EvHookAfterSave i2 row])%list).
  { rewrite Hlog in Hlog'. apply app_inv_head in Hlog'. auto. }
  rewrite <- Hev. split; [| split; [| exact Hall']].
  - rewrite Hev.
    change (EvHookBeforeTransformation row :: gets ++ ?l)%list
      with ([EvHookBeforeTransformation row] ++ gets ++ l)%list.
    rewrite !count_app.
    rewrite (@count_none (@is_get Obj) (@is_save Obj) gets)
      by (auto; intros []; simpl; congruence).
    rewrite (@count_none (@is_m2m_add Obj) (@is_save Obj) (m2m_calls i2 ms))
      by (try apply m2m_calls_kind; intros []; simpl; congruence).
    reflexivity.
  - rewrite Hev.
    change (EvHookBeforeTransformation row :: gets ++ ?l)%list
      with ([EvHookBeforeTransformation row] ++ gets ++ l)%list.
    rewrite !count_app.
    rewrite (@count_none (@is_get Obj) (@is_update_existing Obj) gets)
      by (auto; intros []; simpl; congruence).
    rewrite (@count_none (@is_m2m_add Obj) (@is_update_existing Obj) (m2m_calls i2 ms))
      by (try apply m2m_calls_kind; intros []; simpl; congruence).
    reflexivity.
Qed.

Lemma is_a_skip_missing_desc (c : ClassRef) (a : string) :
  is_a c (Some a)
       {| opt_fk := false; opt_m2m := false; opt_o2o := false;
          opt_exclude := false; opt_delimiter := ";";
          opt_skip_missing := true |}
  = inr {| m2m := false; klass := c; fk := false; o2o := false; attr := a;
           exclude := false; delimiter := ";"; skip_missing := true |}.
Proof. reflexivity. Qed.

(** A row of the update loop whose instance exists. *)
Lemma update_row_existing self total existing created row w a m v e :
  search_attr self = Some a ->
  model self = IsModel m ->
  dict_get row a = Some v ->
  objects_get orm m a v (store w) = inr e ->
  update_row orm self total existing created row w
  = let w1 := add_log (EvHookUpdateExisting e row)
                (add_log (EvUpdateProgress (existing + 1) created total)
                   (add_log (EvGet m a v) w)) in
    match hook_update_existing self e row (store w) with
    | inr s => (inr ((existing + 1)%Z, created), set_store s w1)
    | inl err => (inl err, w1)
    end.
Proof.
  intros Hsa Hm Hrow Hget. unfold update_row.
  rewrite Hsa, Hm, is_a_skip_missing_desc. unfold row_item. rewrite Hrow.
  cbv [lift]. erewrite bind_step by reflexivity.
  erewrite bind_step by reflexivity.
  erewrite bind_step by (apply get_object_found; [reflexivity | exact Hget]).
  cbv [bind emit on_store_ ret]. simpl.
  destruct (hook_update_existing self e row (store w)); reflexivity.
Qed.

(** A row of the update loop whose instance is missing. *)
Lemma update_row_missing self total existing created row w a m v :
  search_attr self = Some a ->
  model self = IsModel m ->
  dict_get row a = Some v ->
  objects_get orm m a v (store w) = inl (DoesNotExist m) ->
  update_row orm self total existing created row w
  = (create_instance orm self row ;; ret (existing, (created + 1)%Z))
      (add_log (EvUpdateProgress existing (created + 1) total)
         (add_log (EvGet m a v) w)).
Proof.
  intros Hsa Hm Hrow Hget. unfold update_row.
  rewrite Hsa, Hm, is_a_skip_missing_desc. unfold row_item. rewrite Hrow.
  cbv [lift]. erewrite bind_step by reflexivity.
  erewrite bind_step by reflexivity.
  erewrite bind_step
    by (eapply get_object_skipped;
        [reflexivity | exact Hm | exact Hget | apply catches_own_model
        | reflexivity]).
  reflexivity.
Qed.

(** A row of the update loop that succeeds is either updated or created. *)
Lemma update_row_counts self total existing created row w r w' :
  update_row orm self total existing created row w = (inr r, w') ->
  exists evs, log w' = (log w ++ evs)%list
              /\ count (@is_update_existing Obj) evs
                 + count (@is_save Obj) evs = 1.
Proof.
  unfold update_row. intros Hrun.
  apply bind_inr in Hrun. destruct Hrun as [desc [w1 [Hd Hrun]]].
  unfold lift in Hd.
  destruct (is_a (model self) (search_attr self) _) as [e | d] eqn:Hisa;
    [discriminate |]. inversion Hd; subst d w1. clear Hd.
  apply bind_inr in Hrun. destruct Hrun as [key [w2 [Hk Hrun]]].
  unfold lift in Hk. destruct (row_item row (search_attr self)) as [e | v];
    [discriminate |]. inversion Hk; subst v w2. clear Hk.
  apply bind_inr in Hrun. destruct Hrun as [element [w3 [Hget Hrun]]].
  assert (Hklass : exists k, klass desc = IsModel k).
  { unfold get_object in Hget.
    destruct (klass desc) as [k | n | v]; try discriminate. eauto. }
  destruct Hklass as [k Hklass].
  pose proof (get_object_world _ _ _ _ _ Hklass Hget) as Hw3. subst w3.
  destruct element as [e |].
  - apply bind_inr in Hrun. destruct Hrun as [[] [w4 [He Hrun]]].
    apply emit_inv in He. destruct He as [_ ->].
    apply bind_inr in Hrun. destruct Hrun as [[] [w5 [He Hrun]]].
    apply emit_inv in He. destruct He as [_ ->].
    apply bind_inr in Hrun. destruct Hrun as [[] [w6 [Hs Hrun]]].
    apply on_store__inv in Hs. destruct Hs as [s [_ ->]].
    inversion Hrun; subst. simpl.
    eexists. rewrite <- !app_assoc. simpl. split; [reflexivity |].
    reflexivity.
  - apply bind_inr in Hrun. destruct Hrun as [[] [w4 [He Hrun]]].
    apply emit_inv in He. destruct He as [_ ->].
    apply bind_inr in Hrun. destruct Hrun as [[] [w5 [Hc Hrun]]].
    inversion Hrun; subst. clear Hrun.
    apply create_instance_counts in Hc.
    destruct Hc as [evs [Hlog [Hsave [Hupd _]]]].
    eexists. rewrite Hlog. simpl. rewrite <- !app_assoc. simpl.
    split; [reflexivity |].
    change (EvGet k (attr desc) key :: ?a :: evs)
      with ([EvGet k (attr desc) key; a] ++ evs)%list.
    rewrite !count_app, Hsave, Hupd. reflexivity.
Qed.

Lemma update_rows_counts self total rs :
  forall existing created w w',
    update_rows orm self total existing created rs w = (inr tt, w') ->
    exists evs, log w' = (log w ++ evs)%list
                /\ count (@is_update_existing Obj) evs
                   + count (@is_save Obj) evs = length rs.
Proof.
  induction rs as [| row rest IH]; intros existing created w w' Hrun.
  - simpl in Hrun. inversion Hrun. exists []. rewrite app_nil_r. auto.
  - simpl in Hrun. apply bind_inr in Hrun.
    destruct Hrun as [[e c] [w1 [Hrow Hrest]]].
    apply update_row_counts in Hrow. destruct Hrow as [evs1 [Hlog1 Hc1]].
    apply IH in Hrest. destruct Hrest as [evs2 [Hlog2 Hc2]].
    exists (evs1 ++ evs2)%list. rewrite Hlog2, Hlog1, app_assoc.
    split; [reflexivity |]. rewrite !count_app. simpl. lia.
Qed.

(** A row of the update loop whose instance is missing, step by step: the
    row succeeds exactly when each step of the creation does, and then it
    has made these calls, in this order, with these arguments. *)
Lemma update_row_created self total existing created row w a m v r w' :
  search_attr self = Some a ->
  model self = IsModel m ->
  dict_get row a = Some v ->
  objects_get orm m a v (store w) = inl (DoesNotExist m) ->
  (update_row orm self total existing created row w = (inr r, w') <->
   r = (existing, (created + 1)%Z)
   /\ exists s1 cdata m2ms w2 inst0 inst1 s3 saved s4 s5 s6 gets,
        hook_before_transformation self row (store w) = inr s1
        /\ transform_row_dataset orm self row
             (set_store s1
                (add_log (EvHookBeforeTransformation row)
                   (add_log (EvUpdateProgress existing (created + 1) total)
                      (add_log (EvGet m a v) w))))
           = (inr (cdata, m2ms), w2)
        /\ log w2
           = (log w ++ [EvGet m a v;
                        EvUpdateProgress existing (created + 1) total;
                        EvHookBeforeTransformation row] ++ gets)%list
        /\ forallb (@is_get Obj) gets = true
        /\ model_new orm m cdata = inr inst0
        /\ hook_before_save self inst0 row (store w2) = inr (inst1, s3)
        /\ obj_save orm inst1 s3 = inr (saved, s4)
        /\ add_all orm saved m2ms s4 = inr s5
        /\ hook_after_save self saved row s5 = inr s6
        /\ w' = {| store := s6; ledger := ledger w;
                   log := (log w2
                           ++ [EvNew m cdata; EvHookBeforeSave inst0 row;
                               EvSave inst1]
                           ++ m2m_calls saved m2ms
                           ++ [EvHookAfterSave saved row])%list |}).
Proof.
  intros Hsa Hm Hrow Hget.
  erewrite update_row_missing by eassumption.
  split.
  - intros Hrun. apply bind_inr in Hrun.
    destruct Hrun as [[] [w1 [Hc Hret]]]. inversion Hret; subst r w1.
    split; [reflexivity |].
    apply create_instance_trace in Hc.
    destruct Hc as (s1 & cdata & m2ms & w2 & k & inst0 & inst1 & s3 & saved
                    & s4 & s5 & s6 & gets & Hhbt & Ht & Hlog & Hgets & Hk
                    & Hnew & Hhbs & Hsave & Hall & Hhas & ->).
    rewrite Hm in Hk. inversion Hk; subst k.
    exists s1, cdata, m2ms, w2, inst0, inst1, s3, saved, s4, s5, s6, gets.
    simpl in *. rewrite <- !app_assoc in Hlog. simpl in Hlog.
    repeat (split; [assumption || reflexivity |]). reflexivity.
  - intros [-> (s1 & cdata & m2ms & w2 & inst0 & inst1 & s3 & saved & s4 & s5
                & s6 & gets & Hhbt & Ht & Hlog & Hgets & Hnew & Hhbs & Hsave
                & Hall & Hhas & ->)].
    erewrite bind_step; [reflexivity |].
    apply create_instance_trace.
    exists s1, cdata, m2ms, w2, m, inst0, inst1, s3, saved, s4, s5, s6, gets.
    simpl. rewrite <- !app_assoc. simpl.
    repeat (split; [assumption || reflexivity |]). reflexivity.
Qed.

(** C3: in the update loop a row whose instance exists gets one call of
    [hook_update_existing], with the instance found and the row as fetched,
    and nothing is constructed or saved for it; a row whose instance is
    missing raises nothing at the lookup and goes through [create_instance],
    the statements the fresh run applies to each row: it succeeds exactly
    when the hook before the transformation, the transformation, the
    construction from the constructor data, the hook before the save, the
    save, the [add] of every many-to-many field the transformation
    returned, on the saved instance, and the hook after the save succeed,
    in this order, each on the store the one before left, and these are the
    calls it has logged; over a whole successful update run each row is of
    exactly one of the two kinds. *)
Theorem update_run_splits_rows self a m :
  search_attr self = Some a ->
  model self = IsModel m ->
  (forall total existing created row w v e,
      dict_get row a = Some v ->
      objects_get orm m a v (store w) = inr e ->
      update_row orm self total existing created row w
      = let w1 := add_log (EvHookUpdateExisting e row)
                    (add_log (EvUpdateProgress (existing + 1) created total)
                       (add_log (EvGet m a v) w)) in
        match hook_update_existing self e row (store w) with
        | inr s => (inr ((existing + 1)%Z, created), set_store s w1)
        | inl err => (inl err, w1)
        end)
  /\ (forall total existing created row w v,
      dict_get row a = Some v ->
      objects_get orm m a v (store w) = inl (DoesNotExist m) ->
      update_row orm self total existing created row w
      = (create_instance orm self row ;; ret (existing, (created + 1)%Z))
          (add_log (EvUpdateProgress existing (created + 1) total)
             (add_log (EvGet m a v) w)))
  /\ (forall total existing created row w v r w',
      dict_get row a = Some v ->
      objects_get orm m a v (store w) = inl (DoesNotExist m) ->
      (update_row orm self total existing created row w = (inr r, w') <->
       r = (existing, (created + 1)%Z)
       /\ exists s1 cdata m2ms w2 inst0 inst1 s3 saved s4 s5 s6 gets,
            hook_before_transformation self row (store w) = inr s1
            /\ transform_row_dataset orm self row
                 (set_store s1
                    (add_log (EvHookBeforeTransformation row)
                       (add_log
                          (EvUpdateProgress existing (created + 1) total)
                          (add_log (EvGet m a v) w))))
               = (inr (cdata, m2ms), w2)
            /\ log w2
               = (log w ++ [EvGet m a v;
                            EvUpdateProgress existing (created + 1) total;
                            EvHookBeforeTransformation row] ++ gets)%list
            /\ forallb (@is_get Obj) gets = true
            /\ model_new orm m cdata = inr inst0
            /\ hook_before_save self inst0 row (store w2) = inr (inst1, s3)
            /\ obj_save orm inst1 s3 = inr (saved, s4)
            /\ add_all orm saved m2ms s4 = inr s5
            /\ hook_after_save self saved row s5 = inr s6
            /\ w' = {| store := s6; ledger := ledger w;
                       log := (log w2
                               ++ [EvNew m cdata; EvHookBeforeSave inst0 row;
                                   EvSave inst1]
                               ++ m2m_calls saved m2ms
                               ++ [EvHookAfterSave saved row])%list |}))
  /\ (forall total current row rest w,
      process_rows orm self total current (row :: rest) w
      = (emit (EvProgress (current + 1) total) ;;
         create_instance orm self row ;;
         process_rows orm self total (current + 1) rest) w)
  /\ (forall cursor fields w w',
      process_cursor_for_update orm self cursor fields w = (inr tt, w') ->
      exists evs,
        log w' = (log w ++ EvFetchAll :: evs ++ [EvPrint ""])%list
        /\ count (@is_update_existing Obj) evs + count (@is_save Obj) evs
           = length (rows cursor)).
Proof.
  intros Hsa Hm. split; [| split; [| split; [| split]]].
  - intros. eapply update_row_existing; eauto.
  - intros. eapply update_row_missing; eauto.
  - intros. eapply update_row_created; eauto.
  - reflexivity.
  - intros cursor fields w w' Hrun. unfold process_cursor_for_update in Hrun.
    apply bind_inr in Hrun. destruct Hrun as [rs [w1 [Hf Hrun]]].
    unfold fetchall in Hf. apply bind_inr in Hf.
    destruct Hf as [[] [w0 [He Hf]]]. apply emit_inv in He.
    destruct He as [_ ->]. inversion Hf; subst rs w1. clear Hf.
    apply bind_inr in Hrun. destruct Hrun as [[] [w2 [Hrows He]]].
    apply emit_inv in He. destruct He as [_ ->].
    apply update_rows_counts in Hrows. destruct Hrows as [evs [Hlog Hc]].
    exists evs. simpl in *. rewrite Hlog. simpl.
    rewrite <- !app_assoc. simpl. auto.
Qed.

(** C5: [process_cursor] calls [hook_before_all] once, before anything
    else, and [hook_after_all] at most once; when it succeeds it has called
    [hook_after_all] exactly once, after the events of every row.
    [process_cursor_for_update] calls neither, whatever the rows are and
    however many instances it creates. *)
Theorem lifecycle_hooks_are_for_fresh_runs self cursor fields w :
  (forall r w',
      process_cursor orm self cursor fields w = (r, w') ->
      exists evs,
        log w' = (log w ++ EvHookBeforeAll :: evs)%list
        /\ count (@is_before_all Obj) evs = 0
        /\ count (@is_after_all Obj) evs <= 1
        /\ (r = inr tt ->
            exists rowevs,
              evs = (EvFetchAll :: rowevs ++ [EvHookAfterAll; EvPrint ""])%list
              /\ forallb (@fresh_row_event Obj) rowevs = true
              /\ count (@is_after_all Obj) evs = 1))
  /\ (exists evs,
        log (snd (process_cursor_for_update orm self cursor fields w))
        = (log w ++ evs)%list
        /\ count (@is_before_all Obj) evs = 0
        /\ count (@is_after_all Obj) evs = 0).
Proof.
  split.
  - intros r w'. unfold process_cursor, fetchall.
    cbv [bind emit on_store_ ret]. simpl.
    destruct (hook_before_all self (store w)) as [e | s].
    { intros H; inversion H; subst. exists []. simpl.
      split; [reflexivity |]. split; [reflexivity |]. split; [auto |].
      discriminate. }
    match goal with
    | |- context [process_rows orm self ?t ?c ?rs ?w0] =>
        destruct (process_rows_frame orm self t c rs w0)
          as [_ [rowevs [Hlog Hall]]];
        destruct (process_rows orm self t c rs w0) as [[e | []] w3]
    end; simpl in Hlog.
    { intros H; inversion H; subst. exists (EvFetchAll :: rowevs).
      rewrite Hlog. simpl. rewrite <- !app_assoc. simpl.
      split; [reflexivity |].
      change (EvFetchAll :: rowevs) with ([@EvFetchAll Obj] ++ rowevs)%list.
      rewrite !count_app.
      rewrite (@count_none (@fresh_row_event Obj) (@is_before_all Obj) rowevs)
        by (auto; intros []; simpl; congruence).
      rewrite (@count_none (@fresh_row_event Obj) (@is_after_all Obj) rowevs)
        by (auto; intros []; simpl; congruence).
      simpl. split; [reflexivity |]. split; [unfold count; simpl; lia |].
      discriminate. }
    assert (Hba : count (@is_before_all Obj) rowevs = 0)
      by (apply (@count_none (@fresh_row_event Obj)); auto;
          intros []; simpl; congruence).
    assert (Haa : count (@is_after_all Obj) rowevs = 0)
      by (apply (@count_none (@fresh_row_event Obj)); auto;
          intros []; simpl; congruence).
    destruct (hook_after_all self (store w3)) as [e | s'].
    { intros H; inversion H; subst.
      exists (EvFetchAll :: rowevs ++ [EvHookAfterAll])%list.
      simpl. rewrite Hlog. simpl. rewrite <- !app_assoc. simpl.
      split; [reflexivity |].
      change (EvFetchAll :: rowevs ++ ?l)%list
        with ([@EvFetchAll Obj] ++ rowevs ++ l)%list.
      rewrite !count_app, Hba, Haa. unfold count. simpl.
      split; [reflexivity |]. split; [lia | discriminate]. }
    intros H; inversion H; subst.
    exists (EvFetchAll :: rowevs ++ [EvHookAfterAll; EvPrint ""])%list.
    simpl. rewrite Hlog. simpl. rewrite <- !app_assoc. simpl.
    split; [reflexivity |].
    change (EvFetchAll :: rowevs ++ ?l)%list
      with ([@EvFetchAll Obj] ++ rowevs ++ l)%list.
    rewrite !count_app, Hba, Haa. unfold count. simpl.
    split; [reflexivity |]. split; [lia |].
    intros _. exists rowevs. auto.
  - destruct (process_cursor_for_update_frame orm self cursor fields w)
      as [_ [evs [Hlog Hall]]].
    exists evs. split; [exact Hlog |]. split.
    + apply (@count_none (@update_event Obj)); auto.
      intros []; simpl; congruence.
    + apply (@count_none (@update_event Obj)); auto.
      intros []; simpl; congruence.
Qed.

End Loops.

(** ** Relation fields *)

Section Relations.

Variables Store Obj : Type.
Variable orm : ORM Store Obj.

Implicit Types (w : World Store Obj) (self : Migration Store Obj).

Lemma dict_get_set {V} (d : Dict V) (k : string) (v : V) :
  dict_get (dict_set d k v) k = Some v.
Proof.
  induction d as [| [k' v'] d IH]; simpl.
  - rewrite String.eqb_refl. reflexivity.
  - destruct (String.eqb k k') eqn:Hk; simpl.
    + rewrite String.eqb_refl. reflexivity.
    + rewrite Hk. exact IH.
Qed.

(** The transformation of a single-valued relation field is one call of
    [get_object]. *)
Lemma transform_field_single self cd fieldname desc data acc_cd ms w :
  column_description self = inl cd ->
  dict_get cd fieldname = Some desc ->
  exclude desc = false ->
  fk desc || o2o desc = true ->
  transform_field orm self (acc_cd, ms) (fieldname, data) w
  = (instance <- get_object orm self desc data ;;
     ret (dict_set acc_cd fieldname (cell_of instance), ms)) w.
Proof.
  intros Hcd Hd Hex Hfk. unfold transform_field.
  rewrite Hcd, Hd, Hex, Hfk. reflexivity.
Qed.

(** The transformation of a many-to-many field holding a string, [str] or
    [unicode]. *)
Lemma transform_field_many self cd fieldname desc str s tokens acc_cd ms w :
  column_description self = inl cd ->
  dict_get cd fieldname = Some desc ->
  exclude desc = false ->
  fk desc || o2o desc = false ->
  m2m desc = true ->
  str = PyStr \/ str = PyUnicode ->
  str_split s (delimiter desc) = inr tokens ->
  transform_field orm self (acc_cd, ms) (fieldname, str s) w
  = (users <- resolve_tokens orm self desc (map str tokens) [] ;;
     ret (acc_cd, dict_set ms fieldname users)) w.
Proof.
  intros Hcd Hd Hex Hfk Hm Hstr Hsplit. unfold transform_field.
  rewrite Hcd, Hd, Hex, Hfk, Hm.
  destruct Hstr as [-> | ->]; simpl; rewrite Hsplit; reflexivity.
Qed.

(** When the transformation of a row raises, so does [create_instance]:
    nothing is constructed or saved for the row. *)
Lemma create_instance_aborts self row w s e w' :
  hook_before_transformation self row (store w) = inr s ->
  transform_row_dataset orm self row
    (set_store s (add_log (EvHookBeforeTransformation row) w)) = (inl e, w') ->
  create_instance orm self row w = (inl e, w').
Proof.
  intros Hhook Ht. unfold create_instance.
  erewrite bind_step by reflexivity.
  erewrite bind_step by (unfold on_store_; simpl; rewrite Hhook; reflexivity).
  erewrite bind_fail by exact Ht. reflexivity.
Qed.

(** C2, as the code has it: for a foreign-key or one-to-one descriptor
    whose lookup finds no record, without [skip_missing] the [DoesNotExist]
    of the lookup leaves the transformation at this field and the row is
    given up before anything is constructed; with [skip_missing], when the
    handler of the unit catches that [DoesNotExist], the transformation goes
    on without error and the field is in the constructor data, holding
    [None]. *)
Theorem missing_single_relation self cd fieldname desc k m data :
  column_description self = inl cd ->
  dict_get cd fieldname = Some desc ->
  exclude desc = false ->
  fk desc || o2o desc = true ->
  klass desc = IsModel k ->
  model self = IsModel m ->
  (skip_missing desc = false ->
   (forall acc_cd ms rest w,
       objects_get orm k (attr desc) data (store w) = inl (DoesNotExist k) ->
       transform_items orm self (acc_cd, ms) ((fieldname, data) :: rest) w
       = (inl (DoesNotExist k), add_log (EvGet k (attr desc) data) w))
   /\ (forall rest w s,
       let row := (fieldname, data) :: rest in
       hook_before_transformation self row (store w) = inr s ->
       objects_get orm k (attr desc) data s = inl (DoesNotExist k) ->
       create_instance orm self row w
       = (inl (DoesNotExist k),
          add_log (EvGet k (attr desc) data)
            (set_store s (add_log (EvHookBeforeTransformation row) w)))))
  /\ (skip_missing desc = true ->
      catches_DoesNotExist m (DoesNotExist k) = true ->
      forall acc_cd ms w,
        objects_get orm k (attr desc) data (store w) = inl (DoesNotExist k) ->
        transform_field orm self (acc_cd, ms) (fieldname, data) w
        = (inr (dict_set acc_cd fieldname (CRaw PyNone), ms),
           add_log (EvGet k (attr desc) data) w)
        /\ dict_get (dict_set acc_cd fieldname (@CRaw Obj PyNone)) fieldname
           = Some (CRaw PyNone)).
Proof.
  intros Hcd Hd Hex Hfk Hk Hm. split.
  - intros Hskip.
    assert (Hitems : forall acc_cd ms rest w,
       objects_get orm k (attr desc) data (store w) = inl (DoesNotExist k) ->
       transform_items orm self (acc_cd, ms) ((fieldname, data) :: rest) w
       = (inl (DoesNotExist k), add_log (EvGet k (attr desc) data) w)).
    { intros acc_cd ms rest w Hget.
      change (transform_items orm self (acc_cd, ms) ((fieldname, data) :: rest))
        with (acc' <- transform_field orm self (acc_cd, ms) (fieldname, data) ;;
              transform_items orm self acc' rest).
      erewrite bind_fail; [reflexivity |].
      erewrite transform_field_single by eassumption.
      erewrite bind_fail; [reflexivity |].
      eapply get_object_raised; eauto. }
    split; [exact Hitems |].
    intros rest w s row Hhook Hget.
    eapply create_instance_aborts; [exact Hhook |].
    unfold transform_row_dataset. apply Hitems. exact Hget.
  - intros Hskip Hcatch acc_cd ms w Hget. split; [| apply dict_get_set].
    erewrite transform_field_single by eassumption.
    erewrite bind_step by (eapply get_object_skipped; eauto).
    reflexivity.
Qed.

(** In a successful [create_instance] every [add] of a many-to-many field
    comes after the save and is made on the instance the save returned. *)
Lemma associations_follow_save self row w w' :
  create_instance orm self row w = (inr tt, w') ->
  exists before unsaved saved ms s s',
    log w' = (log w ++ before ++ EvSave unsaved :: m2m_calls saved ms
              ++ [EvHookAfterSave saved row])%list
    /\ count (@is_m2m_add Obj) before = 0
    /\ obj_save orm unsaved s = inr (saved, s').
Proof.
  intros Hrun. apply create_instance_success in Hrun.
  destruct Hrun
    as (k & cd & ms & gets & i0 & i1 & i2 & s & s' & _ & Hgets & _ & Hsave & _ & Hlog).
  exists (EvHookBeforeTransformation row :: gets
          ++ [EvNew k cd; EvHookBeforeSave i0 row])%list, i1, i2, ms, s, s'.
  split; [| split; [| exact Hsave]].
  - rewrite Hlog. simpl. rewrite <- !app_assoc. reflexivity.
  - change (EvHookBeforeTransformation row :: gets ++ ?l)%list
      with ([EvHookBeforeTransformation row] ++ gets ++ l)%list.
    rewrite !count_app.
    rewrite (@count_none _ (@is_get Obj) (@is_m2m_add Obj) gets)
      by (auto; intros []; simpl; congruence).
    reflexivity.
Qed.

(** C4, as the code has it: for a many-to-many descriptor, a cell that is
    [None] is passed over with no lookup and no entry; a cell that is a
    string ([str] or [unicode]), the empty one too (it is the one empty
    token), is split at the
    delimiter and each token is looked up once, in order, by [get_object],
    so ["1,2,3"] at [","] is three lookups; with [skip_missing], when the
    handler of the unit catches the failures of the lookups, the tokens not
    found are dropped and the others kept; [create_instance] succeeds
    exactly when its steps do, and then it has called [add] for every
    many-to-many field that [transform_row_dataset] returned for the row,
    with the instances resolved there, after the save, on the instance and
    the store the save returned. *)
Theorem many_to_many_field self cd fieldname desc k acc_cd ms w :
  column_description self = inl cd ->
  dict_get cd fieldname = Some desc ->
  exclude desc = false ->
  fk desc || o2o desc = false ->
  m2m desc = true ->
  klass desc = IsModel k ->
  transform_field orm self (acc_cd, ms) (fieldname, PyNone) w
  = (inr (acc_cd, ms), w)
  /\ (forall str s tokens,
      str = PyStr \/ str = PyUnicode ->
      str_split s (delimiter desc) = inr tokens ->
      transform_field orm self (acc_cd, ms) (fieldname, str s) w
      = (users <- resolve_tokens orm self desc (map str tokens) [] ;;
         ret (acc_cd, dict_set ms fieldname users)) w)
  /\ (forall str s tokens r w',
      str = PyStr \/ str = PyUnicode ->
      str_split s (delimiter desc) = inr tokens ->
      transform_field orm self (acc_cd, ms) (fieldname, str s) w
      = (inr r, w') ->
      log w' = (log w ++ map (EvGet k (attr desc)) (map str tokens))%list
      /\ store w' = store w
      /\ r = (acc_cd,
              dict_set ms fieldname
                (found_in orm k (attr desc) (store w) (map str tokens))))
  /\ (delimiter desc <> "" -> str_split "" (delimiter desc) = inr [""])
  /\ (forall r w',
      delimiter desc = "," ->
      transform_field orm self (acc_cd, ms) (fieldname, PyStr "1,2,3") w
      = (inr r, w') ->
      log w' = (log w ++ [EvGet k (attr desc) (PyStr "1");
                          EvGet k (attr desc) (PyStr "2");
                          EvGet k (attr desc) (PyStr "3")])%list)
  /\ (forall m str s tokens,
      model self = IsModel m ->
      skip_missing desc = true ->
      str = PyStr \/ str = PyUnicode ->
      str_split s (delimiter desc) = inr tokens ->
      (forall t e, In t tokens ->
                   objects_get orm k (attr desc) (str t) (store w) = inl e ->
                   catches_DoesNotExist m e = true) ->
      exists w',
        transform_field orm self (acc_cd, ms) (fieldname, str s) w
        = (inr (acc_cd,
                dict_set ms fieldname
                  (found_in orm k (attr desc) (store w) (map str tokens))),
           w'))
  /\ (forall row w0 w',
      create_instance orm self row w0 = (inr tt, w') <->
      exists s1 cdata m2ms w2 k' inst0 inst1 s3 saved s4 s5 s6 gets,
        hook_before_transformation self row (store w0) = inr s1
        /\ transform_row_dataset orm self row
             (set_store s1 (add_log (EvHookBeforeTransformation row) w0))
           = (inr (cdata, m2ms), w2)
        /\ log w2 = (log w0 ++ EvHookBeforeTransformation row :: gets)%list
        /\ forallb (@is_get Obj) gets = true
        /\ model self = IsModel k'
        /\ model_new orm k' cdata = inr inst0
        /\ hook_before_save self inst0 row (store w2) = inr (inst1, s3)
        /\ obj_save orm inst1 s3 = inr (saved, s4)
        /\ add_all orm saved m2ms s4 = inr s5
        /\ hook_after_save self saved row s5 = inr s6
        /\ w' = {| store := s6; ledger := ledger w0;
                   log := (log w2
                           ++ [EvNew k' cdata; EvHookBeforeSave inst0 row;
                               EvSave inst1]
                           ++ m2m_calls saved m2ms
                           ++ [EvHookAfterSave saved row])%list |})
  /\ (forall str s tokens w0 w',
      str = PyStr \/ str = PyUnicode ->
      str_split s (delimiter desc) = inr tokens ->
      create_instance orm self [(fieldname, str s)] w0 = (inr tt, w') ->
      exists s1 k' inst0 inst1 saved,
        hook_before_transformation self [(fieldname, str s)] (store w0)
        = inr s1
        /\ log w'
           = (log w0
              ++ EvHookBeforeTransformation [(fieldname, str s)]
                 :: map (EvGet k (attr desc)) (map str tokens)
              ++ [EvNew k' []; EvHookBeforeSave inst0 [(fieldname, str s)];
                  EvSave inst1;
                  EvM2MAdd saved fieldname
                    (found_in orm k (attr desc) s1 (map str tokens));
                  EvHookAfterSave saved [(fieldname, str s)]])%list).
Proof.
  intros Hcd Hd Hex Hfk Hm Hk.
  assert (Hsplit : forall str s tokens r w',
      str = PyStr \/ str = PyUnicode ->
      str_split s (delimiter desc) = inr tokens ->
      transform_field orm self (acc_cd, ms) (fieldname, str s) w
      = (inr r, w') ->
      log w' = (log w ++ map (EvGet k (attr desc)) (map str tokens))%list
      /\ store w' = store w
      /\ r = (acc_cd,
              dict_set ms fieldname
                (found_in orm k (attr desc) (store w) (map str tokens)))).
  { intros str s tokens r w' Hstr Hs Hrun.
    erewrite transform_field_many in Hrun by eassumption.
    apply bind_inr in Hrun. destruct Hrun as [users [w1 [Hres Hret]]].
    inversion Hret; subst r w1. clear Hret.
    eapply resolve_tokens_success in Hres; [| exact Hk].
    destruct Hres as [Hst [_ [Hlog Hus]]]. simpl in Hus. subst users. auto. }
  split; [| split; [| split; [exact Hsplit
                              | split; [| split; [| split; [| split]]]]]].
  - unfold transform_field. rewrite Hcd, Hd, Hex, Hfk, Hm. reflexivity.
  - intros str s tokens Hstr Hs. eapply transform_field_many; eassumption.
  - unfold str_split. destruct (delimiter desc) as [| c d]; [congruence |].
    reflexivity.
  - intros r w' Hdelim Hrun.
    assert (Hs : str_split "1,2,3" (delimiter desc) = inr ["1"; "2"; "3"])
      by (rewrite Hdelim; reflexivity).
    destruct (Hsplit PyStr _ _ _ _ (or_introl eq_refl) Hs Hrun) as [Hlog _].
    exact Hlog.
  - intros m str s tokens Hmodel Hskip Hstr Hs Hall.
    erewrite transform_field_many by eassumption.
    destruct (@resolve_tokens_skip_missing _ _ orm self desc k m
                (map str tokens) Hk Hmodel Hskip [] w) as [w' Hw'].
    { intros t e Hin. apply in_map_iff in Hin.
      destruct Hin as [t0 [<- Hin0]]. apply Hall. exact Hin0. }
    exists w'. erewrite bind_step by exact Hw'. reflexivity.
  - intros row w0 w'. apply create_instance_trace.
  - intros str s tokens w0 w' Hstr Hs Hrun.
    apply create_instance_trace in Hrun.
    destruct Hrun as (s1 & cdata & m2ms & w2 & k' & inst0 & inst1 & s3 & saved
                      & s4 & s5 & s6 & gets & Hhbt & Ht & Hlog & _ & _ & _ & _
                      & _ & _ & _ & ->).
    unfold transform_row_dataset in Ht.
    change (transform_items orm self ([], []) [(fieldname, str s)])
      with (acc' <- transform_field orm self ([], []) (fieldname, str s) ;;
            transform_items orm self acc' []) in Ht.
    apply bind_inr in Ht. destruct Ht as [acc' [w1 [Hfield Hret]]].
    simpl in Hret. inversion Hret; subst acc' w1. clear Hret.
    erewrite transform_field_many in Hfield by eassumption.
    apply bind_inr in Hfield. destruct Hfield as [users [w1 [Hres Hret]]].
    inversion Hret; subst cdata m2ms w1. clear Hret.
    eapply resolve_tokens_success in Hres; [| exact Hk].
    destruct Hres as [_ [_ [Hlog2 Hus]]]. simpl in Hus, Hlog2. subst users.
    exists s1, k', inst0, inst1, saved. split; [exact Hhbt |].
    simpl. rewrite Hlog2. simpl. rewrite <- !app_assoc. reflexivity.
Qed.

End Relations.

(** ** The dependency sort *)

Section Sorting.

Variables Store Obj : Type.
Variable units : list (Migration Store Obj).

Local Abbreviation names := (map (@classname Store Obj) units).
Local Abbreviation edge := (depends units).

Lemma mem_In (n : string) (l : list string) : mem n l = true <-> In n l.
Proof.
  unfold mem. rewrite existsb_exists. split.
  - intros [x [Hin Heq]]. apply String.eqb_eq in Heq. subst. exact Hin.
  - intros Hin. exists n. split; [exact Hin | apply String.eqb_refl].
Qed.

Lemma mem_not_In (n : string) (l : list string) : mem n l = false <-> ~ In n l.
Proof.
  rewrite <- mem_In. destruct (mem n l); split; intros; congruence.
Qed.

Lemma find_unit_Some (us : list (Migration Store Obj)) n u :
  find_unit us n = Some u -> classname u = n /\ In u us.
Proof.
  induction us as [| x us IH]; simpl; [discriminate |].
  destruct (String.eqb n (classname x)) eqn:Heq.
  - intros H; inversion H; subst. apply String.eqb_eq in Heq. auto.
  - intros H. destruct (IH H). auto.
Qed.

Lemma is_unit_name n : is_unit units n <-> In n names.
Proof.
  unfold is_unit. induction units as [| x us IH]; simpl.
  - split; [congruence | tauto].
  - destruct (String.eqb n (classname x)) eqn:Heq.
    + apply String.eqb_eq in Heq. split; [auto | congruence].
    + apply String.eqb_neq in Heq. rewrite IH. split; [auto |].
      intros [H | H]; [congruence | exact H].
Qed.

Lemma edge_source_is_unit n d : edge n d -> is_unit units n.
Proof. intros [u [Hu _]]. unfold is_unit. congruence. Qed.

Lemma path_source_is_unit n d : clos_trans string edge n d -> is_unit units n.
Proof.
  induction 1 as [x y Hxy | x y z _ IH _ _].
  - eapply edge_source_is_unit; eauto.
  - exact IH.
Qed.

(** *** The walk never runs out of fuel *)

Lemma visit_each_total v ds :
  (forall d dn, v d dn <> None) ->
  forall done, visit_each v ds done <> None.
Proof.
  intros Hv. induction ds as [| d rest IH]; intros done; simpl;
    [congruence |].
  destruct (v d done) as [[e | done'] |] eqn:Hd.
  - congruence.
  - apply IH.
  - exfalso. eapply Hv; eauto.
Qed.

Lemma visit_total fuel :
  forall n path done,
    NoDup path -> incl path names ->
    length names < fuel + length path ->
    visit units fuel n path done <> None.
Proof.
  induction fuel as [| fuel IH]; intros n path done Hnd Hincl Hlen.
  - pose proof (NoDup_incl_length Hnd Hincl). simpl in Hlen. lia.
  - simpl. destruct (mem n done); [congruence |].
    destruct (mem n path) eqn:Hpath; [congruence |].
    destruct (find_unit units n) as [u |] eqn:Hu; [| congruence].
    assert (Hin : In n names) by (apply is_unit_name; unfold is_unit; congruence).
    match goal with
    | |- context [visit_each ?v ?ds ?dn] =>
        pose proof (@visit_each_total v ds) as Hall;
        destruct (visit_each v ds dn) as [[e | done'] |] eqn:Hve
    end; try congruence.
    exfalso. eapply Hall; [| exact Hve].
    intros d dn. apply IH.
    + constructor; [apply mem_not_In; exact Hpath | exact Hnd].
    + intros x [<- | Hx]; [exact Hin | apply Hincl; exact Hx].
    + simpl. lia.
Qed.

(** *** A walk that ends well *)

Lemma visit_each_ok path v ds :
  (forall d done done',
      sorted_so_far units done -> v d done = Some (inr done') ->
      sorted_so_far units done' /\ extends_avoiding path done done'
      /\ (is_unit units d -> In d done')) ->
  forall done done',
    sorted_so_far units done ->
    visit_each v ds done = Some (inr done') ->
    sorted_so_far units done' /\ extends_avoiding path done done'
    /\ (forall d, In d ds -> is_unit units d -> In d done').
Proof.
  intros Hv. induction ds as [| d rest IH]; intros done done' Hinv Hrun.
  - simpl in Hrun. inversion Hrun; subst. split; [exact Hinv |]. split.
    + exists []. rewrite app_nil_r. split; [reflexivity | intros x []].
    + intros d [].
  - simpl in Hrun. destruct (v d done) as [[e | d1] |] eqn:Hd;
      try discriminate.
    destruct (Hv _ _ _ Hinv Hd) as [Hinv1 [[ex1 [-> Hav1]] Hin1]].
    destruct (IH _ _ Hinv1 Hrun) as [Hinv2 [[ex2 [-> Hav2]] Hin2]].
    split; [exact Hinv2 |]. split.
    + exists (ex1 ++ ex2)%list. rewrite app_assoc. split; [reflexivity |].
      intros x Hx. apply in_app_or in Hx. destruct Hx; auto.
    + intros d' [<- | Hd'] Hunit.
      * apply in_or_app. left. apply Hin1. exact Hunit.
      * apply Hin2; assumption.
Qed.

Lemma visit_ok fuel :
  forall n path done done',
    sorted_so_far units done ->
    visit units fuel n path done = Some (inr done') ->
    sorted_so_far units done' /\ extends_avoiding path done done'
    /\ (is_unit units n -> In n done').
Proof.
  induction fuel as [| fuel IH]; intros n path done done' Hinv Hrun;
    [discriminate |].
  simpl in Hrun. destruct (mem n done) eqn:Hdone.
  { inversion Hrun; subst. split; [exact Hinv |]. split.
    - exists []. rewrite app_nil_r. split; [reflexivity | intros x []].
    - intros _. apply mem_In. exact Hdone. }
  destruct (mem n path) eqn:Hpath; [discriminate |].
  destruct (find_unit units n) as [u |] eqn:Hu.
  2:{ inversion Hrun; subst. split; [exact Hinv |]. split.
      - exists []. rewrite app_nil_r. split; [reflexivity | intros x []].
      - intros Hunit. exfalso. apply Hunit. exact Hu. }
  match type of Hrun with
  | context [visit_each ?v ?ds ?dn] =>
      destruct (visit_each v ds dn) as [[e | d1] |] eqn:Hve
  end; try discriminate.
  inversion Hrun; subst done'. clear Hrun.
  eapply (@visit_each_ok (n :: path)) in Hve;
    [| intros d dn dn' Hi Hr; eapply IH; eassumption | exact Hinv].
  destruct Hve as [[Hnd1 [Hgood1 Hunits1]] [[ex1 [-> Hav1]] Hdeps]].
  apply mem_not_In in Hdone. apply mem_not_In in Hpath.
  assert (Hfresh : ~ In n (done ++ ex1)%list).
  { intros Hin. apply in_app_or in Hin. destruct Hin as [Hin | Hin].
    - exact (Hdone Hin).
    - apply (Hav1 n Hin). left. reflexivity. }
  split; [split; [| split] | split].
  - apply NoDup_app; [exact Hnd1 | constructor; [intros [] | constructor] |].
    intros x Hx [<- | []]. exact (Hfresh Hx).
  - rewrite rev_app_distr. simpl. split; [| exact Hgood1].
    intros d [u' [Hu' Hd]] Hunit. rewrite Hu in Hu'. inversion Hu'; subst u'.
    apply in_rev. rewrite rev_involutive. apply Hdeps; assumption.
  - intros x Hx. apply in_app_or in Hx. destruct Hx as [Hx | [<- | []]].
    + apply Hunits1. exact Hx.
    + unfold is_unit. congruence.
  - exists (ex1 ++ [n])%list. rewrite app_assoc. split; [reflexivity |].
    intros x Hx. apply in_app_or in Hx. destruct Hx as [Hx | [<- | []]].
    + intros Hp. apply (Hav1 x Hx). right. exact Hp.
    + exact Hpath.
  - intros _. apply in_or_app. right. left. reflexivity.
Qed.

(** *** A walk that fails names a unit of a cycle *)

Lemma visit_each_err v ds :
  forall done e,
    visit_each v ds done = Some (inl e) ->
    exists d dn, In d ds /\ v d dn = Some (inl e).
Proof.
  induction ds as [| d rest IH]; intros done e Hrun; simpl in Hrun;
    [discriminate |].
  destruct (v d done) as [[e' | d1] |] eqn:Hd; try discriminate.
  - inversion Hrun; subst. exists d, done. split; [left; reflexivity | exact Hd].
  - destruct (IH _ _ Hrun) as [d' [dn [Hin Hv]]].
    exists d', dn. split; [right; exact Hin | exact Hv].
Qed.

Lemma visit_err fuel :
  forall n path done e,
    (forall p, In p path -> clos_trans string edge p n) ->
    visit units fuel n path done = Some (inl e) ->
    exists m, e = cycle_error m /\ clos_trans string edge m m.
Proof.
  induction fuel as [| fuel IH]; intros n path done e Hpath Hrun;
    [discriminate |].
  simpl in Hrun. destruct (mem n done); [discriminate |].
  destruct (mem n path) eqn:Hmem.
  { inversion Hrun; subst. exists n. split; [reflexivity |].
    apply Hpath. apply mem_In. exact Hmem. }
  destruct (find_unit units n) as [u |] eqn:Hu; [| discriminate].
  match type of Hrun with
  | context [visit_each ?v ?ds ?dn] =>
      destruct (visit_each v ds dn) as [[e' | d1] |] eqn:Hve
  end; try discriminate.
  inversion Hrun; subst e'. clear Hrun.
  apply visit_each_err in Hve. destruct Hve as [d [dn [Hin Hv]]].
  eapply IH; [| exact Hv].
  assert (Hedge : edge n d) by (exists u; auto).
  intros p [<- | Hp].
  - apply t_step. exact Hedge.
  - eapply t_trans; [apply Hpath; exact Hp | apply t_step; exact Hedge].
Qed.

(** *** The order of a walk that ended well *)

Lemma good_rev_at a x b :
  good_rev units (a ++ x :: b) ->
  forall d, edge x d -> is_unit units d -> In d b.
Proof.
  induction a as [| y a IH]; simpl.
  - intros [H _]. exact H.
  - intros [_ H]. apply IH. exact H.
Qed.

Lemma good_rev_path l :
  good_rev units l ->
  forall x y, clos_trans_1n string edge x y -> is_unit units y ->
  forall a b, l = (a ++ x :: b)%list -> In y b.
Proof.
  intros Hgood x y Hpath. induction Hpath as [x y Hxy | x d y Hxd Hdy IH];
    intros Hy a b ->.
  - eapply good_rev_at; eauto.
  - assert (Hd : is_unit units d).
    { apply path_source_is_unit with (d := y).
      apply clos_t1n_trans. exact Hdy. }
    assert (Hin : In d b) by (eapply good_rev_at; eauto).
    apply in_split in Hin. destruct Hin as [a' [b' ->]].
    assert (Hy' : In y b').
    { apply (IH Hy (a ++ x :: a')%list b').
      rewrite <- app_assoc. reflexivity. }
    apply in_or_app. right. right. exact Hy'.
Qed.

(** A list sorted so far holds no unit of a cycle. *)
Lemma sorted_so_far_no_cycle done n :
  sorted_so_far units done ->
  In n done -> ~ clos_trans string edge n n.
Proof.
  intros [Hnd [Hgood _]] Hin Hcycle.
  assert (Hin' : In n (rev done)) by (apply in_rev in Hin; exact Hin).
  apply in_split in Hin'. destruct Hin' as [a [b Hsplit]].
  assert (Hb : In n b).
  { eapply good_rev_path; [exact Hgood | | | exact Hsplit].
    - apply clos_trans_t1n. exact Hcycle.
    - eapply path_source_is_unit. exact Hcycle. }
  apply NoDup_rev in Hnd. rewrite Hsplit in Hnd.
  apply NoDup_remove_2 in Hnd. apply Hnd. apply in_or_app. right. exact Hb.
Qed.

Lemma sorted_so_far_respects done :
  sorted_so_far units done -> respects units done.
Proof.
  intros [_ [Hgood _]] before n after d -> Hedge Hunit.
  rewrite rev_app_distr in Hgood. simpl in Hgood. rewrite <- app_assoc in Hgood.
  simpl in Hgood. apply in_rev.
  eapply good_rev_at; eauto.
Qed.

Lemma walk_total : walk units <> None.
Proof.
  unfold walk. apply visit_each_total. intros d dn. apply visit_total.
  - constructor.
  - intros x [].
  - rewrite length_map. simpl. lia.
Qed.

Lemma walk_ok done :
  walk units = Some (inr done) ->
  sorted_so_far units done /\ (forall n, In n names -> In n done).
Proof.
  unfold walk. intros Hrun.
  eapply (@visit_each_ok []) in Hrun.
  - destruct Hrun as [Hinv [_ Hall]]. split; [exact Hinv |].
    intros n Hn. apply Hall; [exact Hn | apply is_unit_name; exact Hn].
  - intros d dn dn' Hinv Hv. eapply visit_ok; eassumption.
  - split; [constructor | split; [exact I | intros x []]].
Qed.

Lemma walk_err e :
  walk units = Some (inl e) ->
  exists m, e = cycle_error m /\ clos_trans string edge m m.
Proof.
  unfold walk. intros Hrun. apply visit_each_err in Hrun.
  destruct Hrun as [d [dn [_ Hv]]].
  eapply visit_err; [| exact Hv]. intros p [].
Qed.

Lemma units_of_names (l : list string) :
  (forall x, In x l -> is_unit units x) ->
  map (@classname Store Obj) (units_of units l) = l.
Proof.
  induction l as [| n l IH]; intros Hall; simpl; [reflexivity |].
  destruct (find_unit units n) as [u |] eqn:Hu.
  - simpl. apply find_unit_Some in Hu. destruct Hu as [-> _].
    rewrite IH; [reflexivity |]. intros x Hx. apply Hall. right. exact Hx.
  - exfalso. apply (Hall n); [left; reflexivity | exact Hu].
Qed.

Lemma units_of_In (l : list string) u :
  In u (units_of units l) <-> exists n, In n l /\ find_unit units n = Some u.
Proof.
  induction l as [| n l IH]; simpl.
  - split; [intros [] | intros [n [[] _]]].
  - destruct (find_unit units n) as [u' |] eqn:Hu; simpl; rewrite ?IH; split.
    + intros [<- | [n' [Hn' Hf]]]; [exists n; auto | exists n'; auto].
    + intros [n' [[<- | Hn'] Hf]]; [left; congruence | right; eauto].
    + intros [n' [Hn' Hf]]. exists n'. auto.
    + intros [n' [[<- | Hn'] Hf]]; [congruence | eauto].
Qed.

Lemma find_unit_own u :
  NoDup names -> In u units -> find_unit units (classname u) = Some u.
Proof.
  induction units as [| x us IH]; simpl; intros Hnd Hin; [destruct Hin |].
  inversion Hnd as [| ? ? Hx Hnd']; subst.
  destruct Hin as [-> | Hin].
  - rewrite String.eqb_refl. reflexivity.
  - destruct (String.eqb (classname u) (classname x)) eqn:Heq.
    + apply String.eqb_eq in Heq. exfalso. apply Hx. rewrite <- Heq.
      apply in_map. exact Hin.
    + apply IH; assumption.
Qed.

Lemma sort_result :
  (exists done, walk units = Some (inr done)
                /\ sort_based_on_dependency units = inr (units_of units done))
  \/ (exists e, walk units = Some (inl e)
                /\ sort_based_on_dependency units = inl e).
Proof.
  unfold sort_based_on_dependency. fold (walk units).
  pose proof walk_total as Htot.
  destruct (walk units) as [[e | done] |]; [right | left | congruence]; eauto.
Qed.

(** The sort of an acyclic set of units. *)
Lemma sort_acyclic :
  NoDup names -> acyclic units ->
  exists order,
    sort_based_on_dependency units = inr order
    /\ Permutation units order
    /\ respects units (map (@classname Store Obj) order).
Proof.
  intros Hnd Hacyc. destruct sort_result as [[done [Hw Hs]] | [e [Hw Hs]]].
  - exists (units_of units done). split; [exact Hs |].
    apply walk_ok in Hw. destruct Hw as [Hinv Hall].
    pose proof Hinv as [Hnd' [_ Hunits]].
    rewrite units_of_names by exact Hunits.
    split; [| apply sorted_so_far_respects; exact Hinv].
    apply NoDup_Permutation.
    + eapply NoDup_map_inv. exact Hnd.
    + eapply NoDup_map_inv. rewrite units_of_names by exact Hunits. exact Hnd'.
    + intros u. rewrite units_of_In. split.
      * intros Hin. exists (classname u). split.
        -- apply Hall. apply in_map. exact Hin.
        -- apply find_unit_own; assumption.
      * intros [n [_ Hf]]. apply find_unit_Some in Hf. tauto.
  - apply walk_err in Hw. destruct Hw as [m [_ Hcycle]].
    exfalso. exact (Hacyc m Hcycle).
Qed.

(** The sort of a set of units with a cycle. *)
Lemma sort_cyclic n :
  clos_trans string edge n n ->
  exists m, sort_based_on_dependency units = inl (cycle_error m)
            /\ clos_trans string edge m m.
Proof.
  intros Hcycle. destruct sort_result as [[done [Hw Hs]] | [e [Hw Hs]]].
  - apply walk_ok in Hw. destruct Hw as [Hinv Hall]. exfalso.
    eapply sorted_so_far_no_cycle; [exact Hinv | | exact Hcycle].
    apply Hall. apply is_unit_name.
    eapply path_source_is_unit. exact Hcycle.
  - apply walk_err in Hw. destruct Hw as [m [-> Hm]].
    exists m. auto.
Qed.

End Sorting.

(** C6: [sort_based_on_dependency] on units with distinct names and no
    cycle returns all of them, each once, every declared dependency before
    the unit that declares it; on units with a cycle it fails with the
    configuration error naming a unit that lies on a cycle, and then
    [Migrator.migrate] returns that error with the world untouched: no
    query has run.  The units of the tests, given as Author, Post, Comment,
    come out as Author, Comment, Post. *)
Theorem dependency_sort_is_topological (Store Obj : Type)
    (orm : ORM Store Obj) (units : list (Migration Store Obj)) :
  (NoDup (map (@classname Store Obj) units) -> acyclic units ->
   exists order,
     sort_based_on_dependency units = inr order
     /\ Permutation units order
     /\ respects units (map (@classname Store Obj) order))
  /\ (forall n, clos_trans string (depends units) n n ->
      exists m, sort_based_on_dependency units = inl (cycle_error m)
                /\ clos_trans string (depends units) m m)
  /\ (forall n,
      clos_trans string
        (depends (filter (fun u => negb (abstract u)) units)) n n ->
      exists m,
        clos_trans string
          (depends (filter (fun u => negb (abstract u)) units)) m m
        /\ forall commit w,
            Migrator_migrate orm units commit w = (inl (cycle_error m), w))
  /\ sort_based_on_dependency
       [Mem.AuthorMigration; Mem.PostMigration; Mem.CommentMigration]
     = inr [Mem.AuthorMigration; Mem.CommentMigration; Mem.PostMigration].
Proof.
  split; [| split; [| split]].
  - intros Hnd Hacyc. apply sort_acyclic; assumption.
  - intros n Hcycle. eapply sort_cyclic. exact Hcycle.
  - intros n Hcycle. apply sort_cyclic in Hcycle.
    destruct Hcycle as [m [Hsort Hm]]. exists m. split; [exact Hm |].
    intros commit w. unfold Migrator_migrate, sorted_migrations.
    rewrite Hsort. reflexivity.
  - reflexivity.
Qed.

(** ** The orchestrator *)

Section Orchestrator.

Variables Store Obj : Type.
Variable orm : ORM Store Obj.

Implicit Types (w : World Store Obj) (self : Migration Store Obj).

(** [migrate] keeps the ledger keyed by unit: it adds a record only for a
    unit that has none. *)
Lemma migrate_keeps_ledger_keyed self w :
  NoDup (ledger w) -> NoDup (ledger (snd (migrate orm self w))).
Proof.
  intros Hnd.
  destruct (in_dec string_dec (classname self) (ledger w)) as [Hin | Hnot].
  - rewrite (migrate_after_decision orm self w
               (migration_required_present self w Hnd Hin)).
    destruct (allow_updates self); simpl.
    + assert (Hf : frame (@body_event Obj)
                  ('(cursor, fields) <- open_cursor self ;;
                   process_cursor_for_update orm self cursor fields)).
      { apply frame_bind; [apply open_cursor_frame |]. intros [c f].
        apply frame_weaken with (P := @update_event Obj);
          [intros []; simpl; congruence
          | apply process_cursor_for_update_frame]. }
      match goal with
      | |- NoDup (ledger (snd (?m ?w1))) =>
          destruct (Hf w1) as [Hl _]; rewrite Hl
      end. exact Hnd.
    + exact Hnd.
  - rewrite (migrate_after_decision orm self w
               (migration_required_absent self w Hnot)). simpl.
    match goal with
    | |- NoDup (ledger (snd (?m ?w1))) =>
        destruct (m w1) as [r w'] eqn:Hrun
    end.
    apply fresh_run_ledger in Hrun.
    destruct Hrun as [evs [_ [[_ [Hl _]] | [_ [Hl _]]]]]; simpl; rewrite Hl;
      simpl; [| exact Hnd].
    apply NoDup_app; [exact Hnd | constructor; [intros [] | constructor] |].
    intros x Hx [<- | []]. exact (Hnot Hx).
Qed.

Lemma migrate_all_keeps_ledger_keyed order :
  forall w, NoDup (ledger w) ->
            NoDup (ledger (snd (migrate_all orm order w))).
Proof.
  induction order as [| u rest IH]; intros w Hnd; simpl; [exact Hnd |].
  unfold bind. pose proof (migrate_keeps_ledger_keyed u w Hnd) as Hu.
  destruct (migrate orm u w) as [[e | []] w1]; simpl in *;
    [exact Hu | apply IH; exact Hu].
Qed.

(** Every run of [migrate] begins with its one look at the ledger. *)
Lemma migrate_log self w :
  exists evs,
    log (snd (migrate orm self w))
    = (log w ++ EvLedgerGet (classname self) :: evs)%list
    /\ count (@is_ledger_get Obj) evs = 0.
Proof.
  destruct (migration_required self w) as [[e | check] w1] eqn:Hreq.
  - pose proof (migration_required_world self w Hreq) as ->.
    unfold migrate. erewrite bind_fail by exact Hreq. simpl.
    exists []. auto.
  - pose proof (migration_required_world self w Hreq) as Hw1.
    rewrite (migrate_after_decision orm self w Hreq).
    destruct (is_False check).
    + subst w1. simpl. eexists. rewrite <- app_assoc. simpl.
      split; reflexivity.
    + destruct (is_None check).
      * assert (Hf : frame (@body_event Obj)
                  ('(cursor, fields) <- open_cursor self ;;
                   process_cursor_for_update orm self cursor fields)).
        { apply frame_bind; [apply open_cursor_frame |]. intros [c f].
          apply frame_weaken with (P := @update_event Obj);
            [intros []; simpl; congruence
            | apply process_cursor_for_update_frame]. }
        destruct (Hf w1) as [_ [evs [Hlog Hall]]]. exists evs.
        rewrite Hlog. subst w1. simpl. rewrite <- app_assoc. split; auto.
        apply (@count_none _ (@body_event Obj)); auto.
        intros []; simpl; congruence.
      * destruct (('(cursor, fields) <- open_cursor self ;;
                   process_cursor orm self cursor fields ;;
                   AppliedMigration_create (classname self)) w1)
          as [r w'] eqn:Hrun.
        apply fresh_run_ledger in Hrun.
        destruct Hrun as [evs [Hall [[_ [_ Hlog]] | [_ [_ Hlog]]]]];
          simpl; rewrite Hlog; subst w1; simpl.
        -- exists (evs ++ [EvLedgerCreate (classname self)])%list.
           rewrite <- !app_assoc. simpl. split; [reflexivity |].
           rewrite count_app.
           rewrite (@count_none _ (@body_event Obj) (@is_ledger_get Obj) evs)
             by (auto; intros []; simpl; congruence).
           reflexivity.
        -- exists evs. rewrite <- !app_assoc. simpl. split; [reflexivity |].
           apply (@count_none _ (@body_event Obj)); auto.
           intros []; simpl; congruence.
Qed.

(** A run of [migrate_all] that succeeds has run every unit, in order. *)
Lemma migrate_all_runs_each order :
  forall w w',
    migrate_all orm order w = (inr tt, w') ->
    exists evs,
      log w' = (log w ++ evs)%list
      /\ filter (@is_ledger_get Obj) evs
         = map (fun u => EvLedgerGet (classname u)) order.
Proof.
  induction order as [| u rest IH]; intros w w' Hrun.
  - simpl in Hrun. inversion Hrun. exists []. rewrite app_nil_r. auto.
  - simpl in Hrun. apply bind_inr in Hrun.
    destruct Hrun as [[] [w1 [Hu Hrest]]].
    destruct (migrate_log u w) as [evs1 [Hlog1 Hc1]].
    rewrite Hu in Hlog1. simpl in Hlog1.
    apply IH in Hrest. destruct Hrest as [evs2 [Hlog2 Hf2]].
    exists (EvLedgerGet (classname u) :: evs1 ++ evs2)%list.
    rewrite Hlog2, Hlog1, <- app_assoc. simpl. split; [reflexivity |].
    rewrite filter_app, Hf2. unfold count in Hc1.
    apply length_zero_iff_nil in Hc1. rewrite Hc1. reflexivity.
Qed.

(** C7: [Migrator.migrate] without [commit] returns what the run with
    [commit] returns and logs what it logs, so it executes the same units,
    each scheduled unit in order when the run succeeds; it ends with the
    store and the ledger of its start, so nothing was persisted and no
    ledger record was added.  With [commit], a run that fails also ends
    with the store and the ledger of its start, and one that succeeds keeps
    the world the units made. *)
Theorem run_is_one_transaction (units : list (Migration Store Obj)) w :
  (store (snd (Migrator_migrate orm units false w)) = store w
   /\ ledger (snd (Migrator_migrate orm units false w)) = ledger w)
  /\ (fst (Migrator_migrate orm units false w)
      = fst (Migrator_migrate orm units true w)
      /\ log (snd (Migrator_migrate orm units false w))
         = log (snd (Migrator_migrate orm units true w)))
  /\ (forall order w',
      sorted_migrations units = inr order ->
      Migrator_migrate orm units false w = (inr tt, w') ->
      exists evs,
        log w' = (log w ++ evs)%list
        /\ filter (@is_ledger_get Obj) evs
           = map (fun u => EvLedgerGet (classname u)) order)
  /\ (forall e w',
      Migrator_migrate orm units true w = (inl e, w') ->
      store w' = store w /\ ledger w' = ledger w)
  /\ (forall order w',
      sorted_migrations units = inr order ->
      Migrator_migrate orm units true w = (inr tt, w') ->
      migrate_all orm order w = (inr tt, w')).
Proof.
  unfold Migrator_migrate.
  destruct (sorted_migrations units) as [e | order] eqn:Hsort.
  - simpl. repeat split; try discriminate; intros;
      match goal with
      | H : (_, _) = (_, _) |- _ => inversion H; subst; reflexivity
      end.
  - destruct (migrate_all orm order w) as [[e | []] w1] eqn:Hrun; simpl.
    + repeat split; try discriminate; intros;
        match goal with
        | H : (_, _) = (_, _) |- _ => inversion H; subst; reflexivity
        end.
    + split; [split; reflexivity |]. split; [split; reflexivity |].
      split; [| split; [discriminate |]].
      * intros order' w' Ho H. inversion Ho; subst order'.
        inversion H; subst w'. simpl.
        apply migrate_all_runs_each in Hrun. exact Hrun.
      * intros order' w' Ho H. inversion Ho; subst order'.
        inversion H; subst w'. exact Hrun.
Qed.

End Orchestrator.

(** ** Runs on the in-memory store *)

Import Mem.

Example fresh_then_skip :
  let w1 := snd (migrate mem_orm AuthorMigration empty_world) in
  let w2 := snd (migrate mem_orm AuthorMigration w1) in
  length (store w1) = 2 /\ ledger w1 = ["AuthorMigration"]
  /\ store w2 = store w1 /\ ledger w2 = ledger w1.
Proof. vm_compute. repeat split. Qed.

Example dry_run_then_commit :
  let units := [AuthorMigration; PostMigration; CommentMigration] in
  let dry := snd (Migrator_migrate mem_orm units false empty_world) in
  let wet := snd (Migrator_migrate mem_orm units true empty_world) in
  store dry = [] /\ ledger dry = []
  /\ length (store wet) = 2
  /\ ledger wet = ["AuthorMigration"; "CommentMigration"; "PostMigration"].
Proof. vm_compute. repeat split. Qed.

Example cycle_is_reported :
  Migrator_migrate mem_orm [Ping; Pong] true empty_world
  = (inl (cycle_error "Ping"), empty_world).
Proof. reflexivity. Qed.

(** [skip_missing] on a descriptor of another model than the one of the
    unit: the handler names [Comment.DoesNotExist], the lookup raises
    [Author.DoesNotExist], and the row fails. *)
Example skip_missing_of_other_model_raises :
  fst (transform_row_dataset mem_orm TolerantCommentMigration
         [("id", PyStr "1"); ("author", PyStr "3")] empty_world)
  = inl (DoesNotExist Author).
Proof. reflexivity. Qed.

Lemma run_mode_witness :
  NoDup (ledger empty_world)
  /\ ledger (snd (migrate mem_orm AuthorMigration empty_world))
     = ["AuthorMigration"].
Proof.
  split; [constructor |].
  destruct (run_mode_is_decided_by_ledger mem_orm AuthorMigration empty_world
              (NoDup_nil string)) as [_ [Hfresh _]].
  destruct (Hfresh (fun H : In _ [] => H)) as [_ [Hok _]].
  destruct (Hok (snd (migrate mem_orm AuthorMigration empty_world))
              ltac:(vm_compute; reflexivity)) as [Hl _].
  exact Hl.
Defined.

Lemma skipped_unit_witness :
  (exists msg, check_migration BrokenMigration = inl (ImproperlyConfigured msg))
  /\ fst (migrate mem_orm BrokenMigration (applied "BrokenMigration")) = inr tt.
Proof.
  split; [eexists; reflexivity |].
  rewrite (proj1 (skipped_unit_is_not_validated mem_orm BrokenMigration
                    (applied "BrokenMigration")
                    ltac:(repeat constructor; simpl; tauto)
                    ltac:(left; reflexivity) eq_refl)).
  reflexivity.
Defined.

Lemma malformed_unit_witness :
  exists msg w',
    migrate mem_orm BrokenMigration empty_world
    = (inl (ImproperlyConfigured msg), w')
    /\ store w' = store empty_world
    /\ ledger w' = ledger empty_world
    /\ log w' = (log empty_world
                 ++ [EvLedgerGet (classname BrokenMigration);
                     EvPrint ("Migrating " ++ classname BrokenMigration)])%list.
Proof.
  apply (malformed_unit_fails_before_query mem_orm (self := BrokenMigration)
           empty_world (check := Some true)
           (w1 := add_log (EvLedgerGet "BrokenMigration") empty_world)).
  - reflexivity.
  - reflexivity.
  - left. exists PyNone. reflexivity.
Defined.

Lemma missing_single_relation_witness :
  transform_field mem_orm CategoryMigration ([], []) ("parent", PyStr "9")
    empty_world
  = (inr ([("parent", CRaw PyNone)], []),
     add_log (EvGet Category "id" (PyStr "9")) empty_world).
Proof.
  destruct (proj2 (missing_single_relation mem_orm CategoryMigration
                     (cd := [("parent", parent_desc)]) "parent"
                     (desc := parent_desc) (k := Category) (m := Category)
                     (PyStr "9") eq_refl eq_refl eq_refl eq_refl eq_refl
                     eq_refl)
              eq_refl eq_refl [] [] empty_world eq_refl) as [Hrun _].
  exact Hrun.
Defined.

(** C2 as stated fails: with [skip_missing] and no record found, the field
    is not absent from the constructor data, it is there with [None]. *)
Lemma skip_missing_field_is_present :
  ~ (forall (self : Migration MemStore MemObj) cd fieldname desc k data w,
        column_description self = inl cd ->
        dict_get cd fieldname = Some desc ->
        exclude desc = false ->
        fk desc || o2o desc = true ->
        klass desc = IsModel k ->
        mem_get k (attr desc) data (store w) = inl (DoesNotExist k) ->
        skip_missing desc = true ->
        exists cdata ms w',
          transform_row_dataset mem_orm self [(fieldname, data)] w
          = (inr (cdata, ms), w')
          /\ has_key cdata fieldname = false).
Proof.
  intros Hclaim.
  destruct (Hclaim CategoryMigration [("parent", parent_desc)] "parent"
              parent_desc Category (PyStr "9") empty_world
              eq_refl eq_refl eq_refl eq_refl eq_refl eq_refl eq_refl)
    as (cdata & ms & w' & Hrun & Habsent).
  vm_compute in Hrun. inversion Hrun; subst. discriminate Habsent.
Qed.

Lemma update_run_witness :
  update_row mem_orm UpdatableAuthorMigration (-1) 0 0
    [("id", PyStr "1"); ("name", PyStr "Ann")] with_ann
  = (inr (1%Z, 0%Z),
     {| store := [ann]; ledger := ["AuthorMigration"];
        log := [EvGet Author "id" (PyStr "1"); EvUpdateProgress 1 0 (-1);
                EvHookUpdateExisting ann
                  [("id", PyStr "1"); ("name", PyStr "Ann")]] |})
  /\ update_row mem_orm RelatedCategoryMigration (-1) 0 0 row7 with_categories
     = (inr (0%Z, 1%Z),
        {| store := [cat1; cat3;
                     category_obj (Some 4%Z) [("id", PyStr "7")]
                       [("related", [1%Z; 3%Z])]];
           ledger := ["RelatedCategoryMigration"];
           log := [EvGet Category "id" (PyStr "7");
                   EvUpdateProgress 0 1 (-1);
                   EvHookBeforeTransformation row7;
                   EvGet Category "id" (PyStr "1");
                   EvGet Category "id" (PyStr "2");
                   EvGet Category "id" (PyStr "3");
                   EvNew Category [("id", CRaw (PyStr "7"))];
                   EvHookBeforeSave
                     (category_obj None [("id", PyStr "7")] []) row7;
                   EvSave (category_obj None [("id", PyStr "7")] []);
                   EvM2MAdd (category_obj (Some 4%Z) [("id", PyStr "7")] [])
                     "related" [cat1; cat3];
                   EvHookAfterSave
                     (category_obj (Some 4%Z) [("id", PyStr "7")] [])
                     row7] |}).
Proof.
  split.
  - rewrite (proj1 (update_run_splits_rows mem_orm UpdatableAuthorMigration
                      (a := "id") (m := Author) eq_refl eq_refl)
               (-1)%Z 0%Z 0%Z [("id", PyStr "1"); ("name", PyStr "Ann")]
               with_ann (PyStr "1") ann eq_refl eq_refl).
    reflexivity.
  - destruct (update_run_splits_rows mem_orm RelatedCategoryMigration
                (a := "id") (m := Category) eq_refl eq_refl)
      as (_ & _ & Hcreated & _).
    apply (proj2 (Hcreated (-1)%Z 0%Z 0%Z row7 with_categories (PyStr "7")
                    _ _ eq_refl eq_refl)).
    split; [reflexivity |].
    exists [cat1; cat3], [("id", CRaw (PyStr "7"))],
      [("related", [cat1; cat3])],
      {| store := [cat1; cat3]; ledger := ["RelatedCategoryMigration"];
         log := [EvGet Category "id" (PyStr "7"); EvUpdateProgress 0 1 (-1);
                 EvHookBeforeTransformation row7;
                 EvGet Category "id" (PyStr "1");
                 EvGet Category "id" (PyStr "2");
                 EvGet Category "id" (PyStr "3")] |},
      (category_obj None [("id", PyStr "7")] []),
      (category_obj None [("id", PyStr "7")] []),
      [cat1; cat3],
      (category_obj (Some 4%Z) [("id", PyStr "7")] []),
      [cat1; cat3; category_obj (Some 4%Z) [("id", PyStr "7")] []],
      [cat1; cat3;
       category_obj (Some 4%Z) [("id", PyStr "7")] [("related", [1%Z; 3%Z])]],
      [cat1; cat3;
       category_obj (Some 4%Z) [("id", PyStr "7")] [("related", [1%Z; 3%Z])]],
      [EvGet Category "id" (PyStr "1"); EvGet Category "id" (PyStr "2");
       EvGet Category "id" (PyStr "3")].
    repeat split; reflexivity.
Defined.

Lemma many_to_many_witness :
  transform_field mem_orm PostWithComments ([], []) ("comments", PyNone)
    empty_world
  = (inr ([], []), empty_world)
  /\ (exists w',
       transform_field mem_orm RelatedCategoryMigration ([], [])
         ("related", PyStr "1,2,3") with_categories
       = (inr ([], [("related", [cat1; cat3])]), w')
       /\ log w' = [EvGet Category "id" (PyStr "1");
                    EvGet Category "id" (PyStr "2");
                    EvGet Category "id" (PyStr "3")])
  /\ create_instance mem_orm RelatedCategoryMigration
       [("related", PyStr "1,2,3")] with_categories
     = (inr tt,
        {| store := [cat1; cat3;
                     category_obj (Some 4%Z) [] [("related", [1%Z; 3%Z])]];
           ledger := ["RelatedCategoryMigration"];
           log := [EvHookBeforeTransformation [("related", PyStr "1,2,3")];
                   EvGet Category "id" (PyStr "1");
                   EvGet Category "id" (PyStr "2");
                   EvGet Category "id" (PyStr "3");
                   EvNew Category [];
                   EvHookBeforeSave (category_obj None [] [])
                     [("related", PyStr "1,2,3")];
                   EvSave (category_obj None [] []);
                   EvM2MAdd (category_obj (Some 4%Z) [] []) "related"
                     [cat1; cat3];
                   EvHookAfterSave (category_obj (Some 4%Z) [] [])
                     [("related", PyStr "1,2,3")]] |}).
Proof.
  split.
  - exact (proj1 (many_to_many_field mem_orm PostWithComments
                    (cd := [("comments", comments_desc)]) "comments"
                    (desc := comments_desc) (k := Comment) [] [] empty_world
                    eq_refl eq_refl eq_refl eq_refl eq_refl eq_refl)).
  - destruct (many_to_many_field mem_orm RelatedCategoryMigration
                (cd := [("related", related_desc)]) "related"
                (desc := related_desc) (k := Category) [] [] with_categories
                eq_refl eq_refl eq_refl eq_refl eq_refl eq_refl)
      as (_ & _ & _ & _ & Hthree & Hskip & Hcreate & _).
    split.
    + destruct (Hskip Category PyStr "1,2,3" ["1"; "2"; "3"]
                  eq_refl eq_refl (or_introl eq_refl) eq_refl) as [w' Hw'].
      { intros t e [<- | [<- | [<- | []]]] Hget; vm_compute in Hget;
          inversion Hget; reflexivity. }
      exists w'. split; [exact Hw' |].
      exact (Hthree _ w' eq_refl Hw').
    + apply (proj2 (Hcreate [("related", PyStr "1,2,3")] with_categories _)).
      exists [cat1; cat3], [], [("related", [cat1; cat3])],
        {| store := [cat1; cat3]; ledger := ["RelatedCategoryMigration"];
           log := [EvHookBeforeTransformation [("related", PyStr "1,2,3")];
                   EvGet Category "id" (PyStr "1");
                   EvGet Category "id" (PyStr "2");
                   EvGet Category "id" (PyStr "3")] |},
        Category, (category_obj None [] []), (category_obj None [] []),
        [cat1; cat3], (category_obj (Some 4%Z) [] []),
        [cat1; cat3; category_obj (Some 4%Z) [] []],
        [cat1; cat3; category_obj (Some 4%Z) [] [("related", [1%Z; 3%Z])]],
        [cat1; cat3; category_obj (Some 4%Z) [] [("related", [1%Z; 3%Z])]],
        [EvGet Category "id" (PyStr "1"); EvGet Category "id" (PyStr "2");
         EvGet Category "id" (PyStr "3")].
      repeat split; reflexivity.
Defined.

(** C4 as stated fails: an empty string is not an empty set of related
    values, it is the one empty token, which is looked up; here no comment
    has it and the row fails. *)
Lemma empty_string_is_looked_up :
  ~ (forall (self : Migration MemStore MemObj) cd fieldname desc k w,
        column_description self = inl cd ->
        dict_get cd fieldname = Some desc ->
        exclude desc = false ->
        fk desc || o2o desc = false ->
        m2m desc = true ->
        klass desc = IsModel k ->
        exists cdata ms w',
          transform_row_dataset mem_orm self [(fieldname, PyStr "")] w
          = (inr (cdata, ms), w')
          /\ (dict_get ms fieldname = None \/ dict_get ms fieldname = Some [])).
Proof.
  intros Hclaim.
  destruct (Hclaim PostWithComments [("comments", comments_desc)] "comments"
              comments_desc Comment empty_world
              eq_refl eq_refl eq_refl eq_refl eq_refl eq_refl)
    as (cdata & ms & w' & Hrun & _).
  vm_compute in Hrun. discriminate Hrun.
Qed.

Example empty_string_lookup_is_logged :
  transform_row_dataset mem_orm PostWithComments [("comments", PyStr "")]
    empty_world
  = (inl (DoesNotExist Comment),
     add_log (EvGet Comment "id" (PyStr "")) empty_world).
Proof. reflexivity. Qed.

Example empty_string_can_find_a_record :
  fst (transform_row_dataset mem_orm PostWithComments [("comments", PyStr "")]
         with_nameless_comment)
  = inr ([], [("comments", [nameless_comment])]).
Proof. reflexivity. Qed.

Lemma blog_units_acyclic :
  acyclic [AuthorMigration; PostMigration; CommentMigration].
Proof.
  intros n Hcycle. apply sort_cyclic in Hcycle.
  destruct Hcycle as [m [Hsort _]]. vm_compute in Hsort. discriminate Hsort.
Qed.

Lemma dependency_sort_witness :
  exists order,
    sort_based_on_dependency [AuthorMigration; PostMigration; CommentMigration]
    = inr order
    /\ Permutation [AuthorMigration; PostMigration; CommentMigration] order
    /\ respects [AuthorMigration; PostMigration; CommentMigration]
         (map (@classname MemStore MemObj) order).
Proof.
  apply (proj1 (dependency_sort_is_topological mem_orm
                  [AuthorMigration; PostMigration; CommentMigration])).
  - repeat constructor; simpl; intuition discriminate.
  - apply blog_units_acyclic.
Defined.

(** * Further properties of the code *)

(** ** [split] and [in] on strings *)

Lemma prefix_app (a s : string) :
  String.prefix a s = true <-> exists t, s = a ++ t.
Proof.
  revert s. induction a as [| c a IH]; intros s.
  - split; [intros _; exists s; reflexivity | destruct s; reflexivity].
  - destruct s as [| d s]; simpl.
    + split; [discriminate | intros [t Ht]; discriminate].
    + destruct (ascii_dec c d) as [-> | Hne].
      * rewrite IH. split; intros [t Ht]; exists t; congruence.
      * split; [discriminate | intros [t Ht]; congruence].
Qed.

Lemma str_app_assoc (a b c : string) : (a ++ b) ++ c = a ++ b ++ c.
Proof. induction a as [| x a IH]; simpl; [reflexivity | rewrite IH; reflexivity]. Qed.

Lemma rev_string_app (cur : list ascii) (tl : string) :
  rev_string cur tl = rev_string cur EmptyString ++ tl.
Proof.
  revert tl. induction cur as [| c cur IH]; intros tl; simpl.
  - reflexivity.
  - rewrite IH, (IH (String c EmptyString)).
    rewrite str_app_assoc. reflexivity.
Qed.

Lemma split_scan_nonempty (sep s : string) (skip : nat) (cur : list ascii) :
  split_scan sep s skip cur <> [].
Proof.
  revert skip cur. induction s as [| c s IH]; intros skip cur;
    cbn [split_scan].
  - discriminate.
  - destruct skip; [| apply IH].
    destruct (String.prefix sep (String c s)); [discriminate | apply IH].
Qed.

Lemma str_join_cons (sep x : string) (rest : list string) :
  rest <> [] -> str_join sep (x :: rest) = x ++ sep ++ str_join sep rest.
Proof. destruct rest; [congruence | reflexivity]. Qed.

Lemma str_drop_app (a t : string) : str_drop (String.length a) (a ++ t) = t.
Proof. induction a as [| c a IH]; simpl; [destruct t; reflexivity | exact IH]. Qed.

Lemma length_append (a t : string) :
  String.length (a ++ t) = String.length a + String.length t.
Proof. induction a as [| c a IH]; simpl; [reflexivity | rewrite IH; reflexivity]. Qed.

(** The scan, from any of its states, gives back what is left of the string:
    the token under way and the text after the separator being passed. *)
Lemma split_scan_join (sep : string) :
  sep <> EmptyString ->
  forall s skip cur,
    skip <= String.length s ->
    str_join sep (split_scan sep s skip cur)
    = rev_string cur (str_drop skip s).
Proof.
  intros Hsep. induction s as [| c s IH]; intros skip cur Hlen.
  - simpl in Hlen. assert (skip = 0) by lia. subst. reflexivity.
  - destruct skip as [| k].
    + cbn [split_scan]. destruct (String.prefix sep (String c s)) eqn:Hpre.
      * apply prefix_app in Hpre. destruct Hpre as [t Ht].
        destruct sep as [| d sep']; [congruence |].
        simpl in Ht. inversion Ht; subst c s. clear Ht.
        rewrite str_join_cons by apply split_scan_nonempty.
        rewrite IH by (simpl; rewrite length_append; lia).
        simpl. rewrite Nat.sub_0_r, str_drop_app.
        symmetry. apply rev_string_app.
      * rewrite IH by lia. reflexivity.
    + simpl. apply IH. simpl in Hlen. lia.
Qed.

(** X1: [split] and [join] are a round trip: joining the tokens of
    [s.split(sep)] with [sep] gives [s] back, and there is always at least
    one token. *)
Theorem split_then_join (s sep : string) (tokens : list string) :
  str_split s sep = inr tokens ->
  str_join sep tokens = s /\ tokens <> [].
Proof.
  unfold str_split. destruct sep as [| c sep']; [discriminate |].
  intros H. inversion H; subst tokens. split.
  - rewrite split_scan_join by (try discriminate; lia). reflexivity.
  - apply split_scan_nonempty.
Qed.

Lemma split_then_join_witness :
  str_join "," ["1"; "2"; "3"] = "1,2,3" /\ ["1"; "2"; "3"] <> [].
Proof. exact (@split_then_join "1,2,3" "," ["1"; "2"; "3"] eq_refl). Defined.

Lemma split_scan_without_separator (sep : string) :
  forall s cur,
    str_contains sep s = false ->
    split_scan sep s 0 cur = [rev_string cur s].
Proof.
  induction s as [| c s IH]; intros cur Hno; cbn [split_scan].
  - reflexivity.
  - cbn [str_contains] in Hno. apply orb_false_iff in Hno.
    destruct Hno as [Hpre Hrest].
    rewrite Hpre. rewrite IH by exact Hrest. reflexivity.
Qed.

(** X2: [sub in s] holds exactly when [s] is some text, then [sub], then
    some text. *)
Theorem str_contains_iff (sub s : string) :
  str_contains sub s = true <-> exists a b, s = a ++ sub ++ b.
Proof.
  split.
  - induction s as [| c s IH]; cbn [str_contains].
    + intros H. apply prefix_app in H. destruct H as [t Ht].
      exists EmptyString, t. exact Ht.
    + intros H. apply orb_true_iff in H. destruct H as [H | H].
      * apply prefix_app in H. destruct H as [t Ht].
        exists EmptyString, t. exact Ht.
      * destruct (IH H) as [a [b ->]]. exists (String c a), b. reflexivity.
  - intros [a [b ->]]. induction a as [| c a IH].
    + assert (Hpre : String.prefix sub (sub ++ b) = true)
        by (apply prefix_app; eauto).
      cbn [append]. destruct (sub ++ b); cbn [str_contains]; [exact Hpre |].
      rewrite Hpre. reflexivity.
    + cbn [append str_contains]. rewrite IH. apply orb_true_r.
Qed.

(** X3: a string in which the separator does not occur is its own single
    token, whatever the (non-empty) separator. *)
Theorem split_without_separator (s sep : string) :
  str_contains sep s = false ->
  str_split s sep = inr [s].
Proof.
  intros Hno. unfold str_split. destruct sep as [| c sep'].
  - destruct s; discriminate.
  - rewrite split_scan_without_separator by exact Hno. reflexivity.
Qed.

Lemma split_without_separator_witness : str_split "42" ";" = inr ["42"].
Proof. exact (@split_without_separator "42" ";" eq_refl). Defined.

(** ** Descriptors and configuration *)

(** [is_a] returns a descriptor exactly when [search_attr] is given,
    and the descriptor then carries the arguments as they were passed;
    without [search_attr] it raises, whatever the other arguments are. *)
Theorem is_a_needs_search_attr (k : ClassRef) (sa : option string)
    (o : IsAOptions) :
  (forall d, is_a k sa o = inr d ->
     exists a, sa = Some a
       /\ d = {| m2m := opt_m2m o; klass := k; fk := opt_fk o;
                 o2o := opt_o2o o; attr := a; exclude := opt_exclude o;
                 delimiter := opt_delimiter o;
                 skip_missing := opt_skip_missing o |})
  /\ (sa = None -> exists e, is_a k sa o = inl e)
  /\ (sa = None -> forall n, class_dunder_name k = inr n ->
      is_a k sa o
      = inl (ImproperlyConfigured
               ("is_a(" ++ n ++ ") requires that you set a `search_attr`"))).
Proof.
  split; [| split].
  - intros d. unfold is_a. destruct sa as [a |].
    + intros H. inversion H. exists a. auto.
    + destruct (class_dunder_name k); discriminate.
  - intros ->. unfold is_a. destruct (class_dunder_name k); eauto.
  - intros -> n Hn. unfold is_a. rewrite Hn. reflexivity.
Qed.

Section Configuration.

Variables Store Obj : Type.

Implicit Types self : Migration Store Obj.

Lemma check_migration_well_formed self :
  ~ malformed self -> check_migration self = inr tt.
Proof.
  unfold malformed, check_migration. intros Hok.
  destruct (column_description self) as [cd | v]; simpl;
    [| exfalso; apply Hok; left; eauto].
  destruct (allow_updates self), (search_attr self) as [a |]; simpl;
    try (exfalso; apply Hok; right; left; split; reflexivity);
    (destruct (depends_on self) as [l | v]; simpl;
       [| exfalso; apply Hok; right; right; left; eauto]);
    (destruct (model self) as [k | n | v]; simpl;
       try (exfalso; apply Hok; right; right; right; left;
            intros k0; discriminate));
    (destruct (query self) as [| b | z | s | s | s]; simpl;
       try (exfalso; apply Hok; right; right; right; right;
            intros s0; discriminate));
    (destruct (str_contains "SELECT" s) eqn:Hsel; simpl; [reflexivity |]);
    exfalso; apply Hok; right; right; right; right;
    intros s0 Hs0; inversion Hs0; subst; exact Hsel.
Qed.

(** X4: [check_migration] passes exactly the configurations with none of
    the five defects, every failure it raises is [ImproperlyConfigured],
    and a [column_description] that is not a dict is reported first,
    whatever else is wrong. *)
Theorem check_migration_decides self :
  (check_migration self = inr tt <-> ~ malformed self)
  /\ (forall e, check_migration self = inl e ->
        malformed self /\ exists msg, e = ImproperlyConfigured msg)
  /\ (forall v, column_description self = inr v ->
        check_migration self
        = inl (ImproperlyConfigured
                 (classname self ++ ": `column_description` has to be a dict"))).
Proof.
  split; [| split].
  - split; [apply check_migration_passes | apply check_migration_well_formed].
  - intros e He.
    assert (Hbad : malformed self).
    { destruct (check_migration self) as [e' | []] eqn:Hc; [| discriminate].
      unfold check_migration in Hc. unfold malformed.
      destruct (column_description self) as [cd | v]; simpl in Hc;
        [| left; eauto].
      destruct (allow_updates self), (search_attr self) as [a |];
        simpl in Hc; try (right; left; split; reflexivity);
        (destruct (depends_on self) as [l | v]; simpl in Hc;
           [| right; right; left; eauto]);
        (destruct (model self) as [k | n | v]; simpl in Hc;
           try (right; right; right; left; intros k0; discriminate));
        (destruct (query self) as [| b | z | s | s | s]; simpl in Hc;
           try (right; right; right; right; intros s0; discriminate));
        (destruct (str_contains "SELECT" s) eqn:Hsel; simpl in Hc;
           [discriminate |]);
        right; right; right; right;
        intros s0 Hs0; inversion Hs0; subst; exact Hsel. }
    split; [exact Hbad |].
    destruct (check_migration_malformed Hbad) as [msg Hmsg].
    exists msg. congruence.
  - intros v Hv. unfold check_migration. rewrite Hv. reflexivity.
Qed.

End Configuration.

(** ** Lookups and rows *)

Section MoreLookups.

Variables Store Obj : Type.
Variable orm : ORM Store Obj.

Implicit Types (w : World Store Obj) (self : Migration Store Obj).

(** X5: [get_object] answers [None] only for a descriptor with
    [skip_missing] whose lookup raised a [DoesNotExist] that the handler of
    the unit catches; any other exception of the lookup (a
    [MultipleObjectsReturned], say) leaves [get_object] as it is, with or
    without [skip_missing]. *)
Theorem get_object_swallows_only_DoesNotExist self desc value w :
  (forall w', get_object orm self desc value w = (inr None, w') ->
     skip_missing desc = true
     /\ exists k m e,
          klass desc = IsModel k /\ model self = IsModel m
          /\ objects_get orm k (attr desc) value (store w) = inl e
          /\ catches_DoesNotExist m e = true)
  /\ (forall k m e,
        klass desc = IsModel k -> model self = IsModel m ->
        objects_get orm k (attr desc) value (store w) = inl e ->
        (forall k', e <> DoesNotExist k') ->
        get_object orm self desc value w
        = (inl e, add_log (EvGet k (attr desc) value) w)).
Proof.
  split.
  - intros w'. unfold get_object.
    destruct (klass desc) as [k | n | v]; try discriminate.
    cbv [try_except bind emit read_store lift ret raise]. simpl.
    destruct (objects_get orm k (attr desc) value (store w)) as [e | o] eqn:Hget;
      [| discriminate].
    destruct (model self) as [m | n | v] eqn:Hm; try discriminate.
    destruct (catches_DoesNotExist m e) eqn:Hc; [| discriminate].
    destruct (skip_missing desc) eqn:Hs; [| discriminate].
    intros _. split; [reflexivity |]. exists k, m, e. auto.
  - intros k m e Hk Hm Hget Hother.
    eapply get_object_raised; eauto. left.
    destruct e; try reflexivity. exfalso. eapply Hother. reflexivity.
Qed.

(** X6: the handler of [get_object] names the model of the unit, not the
    model of the descriptor: when the descriptor's model is neither the
    unit's model nor a descendant of it, a lookup that finds nothing raises
    its [DoesNotExist] even with [skip_missing]. *)
Theorem skip_missing_needs_own_model self desc value w k m :
  klass desc = IsModel k ->
  model self = IsModel m ->
  cls_name k <> cls_name m ->
  ~ In (cls_name m) (cls_parents k) ->
  objects_get orm k (attr desc) value (store w) = inl (DoesNotExist k) ->
  get_object orm self desc value w
  = (inl (DoesNotExist k), add_log (EvGet k (attr desc) value) w).
Proof.
  intros Hk Hm Hname Hparents Hget.
  eapply get_object_raised; eauto. left. simpl.
  apply orb_false_iff. split.
  - apply String.eqb_neq. exact Hname.
  - destruct (existsb (String.eqb (cls_name m)) (cls_parents k)) eqn:Hex;
      [| reflexivity].
    apply existsb_exists in Hex. destruct Hex as [x [Hin Heq]].
    apply String.eqb_eq in Heq. subst x. contradiction.
Qed.

Lemma keeps_store_bind {A B} (m : M Store Obj A) (f : A -> M Store Obj B) :
  keeps_store m -> (forall a, keeps_store (f a)) -> keeps_store (bind m f).
Proof.
  intros Hm Hf w. unfold bind. specialize (Hm w).
  destruct (m w) as [[e | a] w1]; simpl in *; [exact Hm |].
  rewrite Hf. exact Hm.
Qed.

Lemma keeps_store_ret {A} (a : A) : keeps_store (ret (Store := Store) (Obj := Obj) a).
Proof. intros w. reflexivity. Qed.

Lemma keeps_store_raise {A} (e : Exc) :
  keeps_store (raise (Store := Store) (Obj := Obj) (A := A) e).
Proof. intros w. reflexivity. Qed.

Lemma keeps_store_lift {A} (r : Exc + A) :
  keeps_store (lift (Store := Store) (Obj := Obj) r).
Proof. destruct r; [apply keeps_store_raise | apply keeps_store_ret]. Qed.

Lemma get_object_keeps_store self desc value :
  keeps_store (get_object orm self desc value).
Proof.
  intros w. destruct (get_object orm self desc value w) as [r w'] eqn:Hrun.
  destruct (klass desc) as [k | n | v] eqn:Hk.
  - apply get_object_world with (k := k) in Hrun; [| exact Hk].
    subst w'. reflexivity.
  - unfold get_object in Hrun. rewrite Hk in Hrun. inversion Hrun. reflexivity.
  - unfold get_object in Hrun. rewrite Hk in Hrun. inversion Hrun. reflexivity.
Qed.

Lemma resolve_tokens_keeps_store self desc names users :
  keeps_store (resolve_tokens orm self desc names users).
Proof.
  revert users. induction names as [| name rest IH]; intros users; simpl.
  - apply keeps_store_ret.
  - apply keeps_store_bind; [apply get_object_keeps_store |].
    intros [o |]; apply IH.
Qed.

Lemma transform_field_keeps_store self acc item :
  keeps_store (transform_field orm self acc item).
Proof.
  unfold transform_field. destruct acc as [cd ms], item as [fieldname data].
  destruct (column_description self) as [d | v]; [| apply keeps_store_raise].
  destruct (dict_get d fieldname) as [desc |]; [| apply keeps_store_ret].
  destruct (exclude desc); [apply keeps_store_ret |].
  destruct (fk desc || o2o desc).
  - apply keeps_store_bind; [apply get_object_keeps_store |].
    intros; apply keeps_store_ret.
  - destruct (m2m desc); [| apply keeps_store_ret].
    destruct (is_PyNone data); [apply keeps_store_ret |].
    apply keeps_store_bind; [apply keeps_store_lift | intros].
    apply keeps_store_bind; [apply resolve_tokens_keeps_store |].
    intros; apply keeps_store_ret.
Qed.

(** X7: the transformation of a row only reads: whether it succeeds or
    raises, the target store and the ledger are those of before, and the
    log has gained nothing but lookups. *)
Theorem transform_row_dataset_only_reads self row w :
  store (snd (transform_row_dataset orm self row w)) = store w
  /\ ledger (snd (transform_row_dataset orm self row w)) = ledger w
  /\ exists evs,
       log (snd (transform_row_dataset orm self row w)) = (log w ++ evs)%list
       /\ forallb (@is_get Obj) evs = true.
Proof.
  split.
  - unfold transform_row_dataset.
    generalize (@nil (string * Cell Obj), @nil (string * list Obj)).
    revert w. induction row as [| item rest IH]; intros w acc; simpl.
    + reflexivity.
    + unfold bind.
      pose proof (transform_field_keeps_store self acc item w) as Hf.
      destruct (transform_field orm self acc item w) as [[e | acc'] w1];
        simpl in *; [exact Hf |].
      rewrite IH. exact Hf.
  - apply (transform_row_dataset_frame orm self row w).
Qed.

End MoreLookups.

Section RowShape.

Variables Store Obj : Type.
Variable orm : ORM Store Obj.

Implicit Types (w : World Store Obj) (self : Migration Store Obj).

Lemma dict_set_absent {V} (d : Dict V) (k : string) (v : V) :
  dict_get d k = None -> dict_set d k v = (d ++ [(k, v)])%list.
Proof.
  induction d as [| [k' v'] d IH]; simpl; [reflexivity |].
  destruct (String.eqb k k'); [discriminate |].
  intros H. rewrite IH by exact H. reflexivity.
Qed.

Lemma dict_get_snoc_other {V} (d : Dict V) (k k' : string) (v : V) :
  k' <> k -> dict_get (d ++ [(k, v)])%list k' = dict_get d k'.
Proof.
  intros Hne. induction d as [| [k0 v0] d IH]; simpl.
  - apply String.eqb_neq in Hne. rewrite Hne. reflexivity.
  - destruct (String.eqb k' k0); [reflexivity | exact IH].
Qed.

Lemma has_key_set {V} (d : Dict V) (k f : string) (v : V) :
  has_key (dict_set d k v) f = true -> f = k \/ has_key d f = true.
Proof.
  unfold has_key. induction d as [| [k' v'] d IH]; simpl.
  - destruct (String.eqb f k) eqn:Hf; [| discriminate].
    apply String.eqb_eq in Hf. auto.
  - destruct (String.eqb k k') eqn:Hk; simpl.
    + apply String.eqb_eq in Hk. subst k'.
      destruct (String.eqb f k) eqn:Hf; auto.
    + destruct (String.eqb f k'); auto.
Qed.

Lemma transform_items_pass_through self cd row :
  column_description self = inl cd ->
  NoDup (map fst row) ->
  (forall f, In f (map fst row) -> dict_get cd f = None) ->
  forall acc_cd ms w,
    (forall f, In f (map fst row) -> dict_get acc_cd f = None) ->
    transform_items orm self (acc_cd, ms) row w
    = (inr ((acc_cd ++ raw_cells Obj row)%list, ms), w).
Proof.
  intros Hcd. induction row as [| [f v] rest IH];
    intros Hnd Hnone acc_cd ms w Hfresh.
  - simpl. rewrite app_nil_r. reflexivity.
  - simpl in Hnd. inversion Hnd as [| ? ? Hf Hnd']; subst.
    change (transform_items orm self (acc_cd, ms) ((f, v) :: rest))
      with (acc' <- transform_field orm self (acc_cd, ms) (f, v) ;;
            transform_items orm self acc' rest).
    assert (Hfield : transform_field orm self (acc_cd, ms) (f, v) w
                     = (inr ((acc_cd ++ [(f, CRaw v)])%list, ms), w)).
    { unfold transform_field. rewrite Hcd.
      rewrite (Hnone f) by (left; reflexivity).
      rewrite dict_set_absent by (apply Hfresh; left; reflexivity).
      reflexivity. }
    erewrite bind_step by exact Hfield.
    rewrite IH.
    + simpl. rewrite <- app_assoc. reflexivity.
    + exact Hnd'.
    + intros f' Hf'. apply Hnone. right. exact Hf'.
    + intros f' Hf'. rewrite dict_get_snoc_other.
      * apply Hfresh. right. exact Hf'.
      * intros ->. exact (Hf Hf').
Qed.

(** X8: a row none of whose columns has a descriptor goes into the
    constructor data as it is, column by column in the order of the row,
    with nothing set aside for many-to-many fields, no lookup and no change
    of the world. *)
Theorem undescribed_row_passes_through self cd row w :
  column_description self = inl cd ->
  NoDup (map fst row) ->
  (forall f, In f (map fst row) -> dict_get cd f = None) ->
  transform_row_dataset orm self row w = (inr (raw_cells Obj row, []), w).
Proof.
  intros Hcd Hnd Hnone. unfold transform_row_dataset.
  apply (@transform_items_pass_through self cd row Hcd Hnd Hnone [] [] w).
  intros; reflexivity.
Qed.

(** Where the transformation of one field may put it. *)
Lemma transform_field_shape self cd acc_cd ms f v w acc_cd' ms' w' :
  column_description self = inl cd ->
  transform_field orm self (acc_cd, ms) (f, v) w = (inr (acc_cd', ms'), w') ->
  (acc_cd' = acc_cd
   \/ (exists c, acc_cd' = dict_set acc_cd f c)
      /\ (dict_get cd f = None
          \/ exists desc, dict_get cd f = Some desc /\ exclude desc = false
                          /\ fk desc || o2o desc = true))
  /\ (ms' = ms
      \/ (exists us, ms' = dict_set ms f us)
         /\ v <> PyNone
         /\ exists desc, dict_get cd f = Some desc /\ exclude desc = false
                         /\ fk desc || o2o desc = false /\ m2m desc = true).
Proof.
  intros Hcd. unfold transform_field. rewrite Hcd.
  destruct (dict_get cd f) as [desc |] eqn:Hd.
  - destruct (exclude desc) eqn:Hex.
    { intros H; inversion H; subst. auto. }
    destruct (fk desc || o2o desc) eqn:Hfk.
    { intros H. apply bind_inr in H. destruct H as [inst [w1 [_ Hret]]].
      inversion Hret; subst. split; [right | left; reflexivity].
      split; [eauto | right; eauto]. }
    destruct (m2m desc) eqn:Hm.
    2:{ intros H; inversion H; subst. auto. }
    destruct (is_PyNone v) eqn:Hnone.
    { intros H; inversion H; subst. auto. }
    intros H. apply bind_inr in H. destruct H as [names [w1 [_ H]]].
    apply bind_inr in H. destruct H as [users [w2 [_ Hret]]].
    inversion Hret; subst. split; [left; reflexivity | right].
    split; [eauto |]. split; [intros ->; discriminate | eauto 6].
  - intros H; inversion H; subst. split; [right | left; reflexivity].
    split; [eauto | left; reflexivity].
Qed.

Lemma transform_items_shape self cd row :
  column_description self = inl cd ->
  forall acc_cd ms w cdata ms' w',
    transform_items orm self (acc_cd, ms) row w = (inr (cdata, ms'), w') ->
    (forall f, has_key cdata f = true ->
       has_key acc_cd f = true
       \/ In f (map fst row)
          /\ (dict_get cd f = None
              \/ exists desc, dict_get cd f = Some desc /\ exclude desc = false
                              /\ fk desc || o2o desc = true))
    /\ (forall f, has_key ms' f = true ->
          has_key ms f = true
          \/ In f (map fst row)
             /\ exists desc, dict_get cd f = Some desc /\ exclude desc = false
                             /\ fk desc || o2o desc = false
                             /\ m2m desc = true).
Proof.
  intros Hcd. induction row as [| [f v] rest IH];
    intros acc_cd ms w cdata ms' w' Hrun.
  - simpl in Hrun. inversion Hrun; subst. auto.
  - change (transform_items orm self (acc_cd, ms) ((f, v) :: rest))
      with (acc' <- transform_field orm self (acc_cd, ms) (f, v) ;;
            transform_items orm self acc' rest) in Hrun.
    apply bind_inr in Hrun. destruct Hrun as [[a1 m1] [w1 [Hfield Hrest]]].
    eapply transform_field_shape in Hfield; [| exact Hcd].
    destruct Hfield as [Ha Hm].
    apply IH in Hrest. destruct Hrest as [Hc Hms]. split.
    + intros g Hg. destruct (Hc g Hg) as [Hin1 | [Hin Hkind]].
      * destruct Ha as [-> | [[c ->] Hkind]]; [left; exact Hin1 |].
        apply has_key_set in Hin1. destruct Hin1 as [-> | Hin1];
          [right; simpl; auto | left; exact Hin1].
      * right. simpl. auto.
    + intros g Hg. destruct (Hms g Hg) as [Hin1 | [Hin Hkind]].
      * destruct Hm as [-> | [[us ->] [_ Hkind]]]; [left; exact Hin1 |].
        apply has_key_set in Hin1. destruct Hin1 as [-> | Hin1];
          [right; simpl; auto | left; exact Hin1].
      * right. simpl. auto.
Qed.

(** X9: after a successful transformation, a column with a descriptor is
    in the constructor data only if the descriptor is a foreign key or a
    one-to-one, and in the many-to-many data only if it is a many-to-many
    and nothing else; an excluded column, and a column whose descriptor
    has no kind at all, is in neither.  Every key comes from the row. *)
Theorem transformed_row_shape self cd row w cdata ms w' :
  column_description self = inl cd ->
  transform_row_dataset orm self row w = (inr (cdata, ms), w') ->
  (forall f, has_key cdata f = true \/ has_key ms f = true ->
     In f (map fst row))
  /\ (forall f desc, dict_get cd f = Some desc ->
        (exclude desc = true ->
         has_key cdata f = false /\ has_key ms f = false)
        /\ (fk desc || o2o desc = false -> has_key cdata f = false)
        /\ (fk desc || o2o desc = true \/ m2m desc = false ->
            has_key ms f = false)).
Proof.
  intros Hcd Hrun. unfold transform_row_dataset in Hrun.
  eapply transform_items_shape in Hrun; [| exact Hcd].
  destruct Hrun as [Hc Hm].
  assert (Hc' : forall f, has_key cdata f = true ->
            In f (map fst row)
            /\ (dict_get cd f = None
                \/ exists desc, dict_get cd f = Some desc
                                /\ exclude desc = false
                                /\ fk desc || o2o desc = true)).
  { intros f Hf. destruct (Hc f Hf) as [H | H]; [discriminate | exact H]. }
  assert (Hm' : forall f, has_key ms f = true ->
            In f (map fst row)
            /\ exists desc, dict_get cd f = Some desc /\ exclude desc = false
                            /\ fk desc || o2o desc = false
                            /\ m2m desc = true).
  { intros f Hf. destruct (Hm f Hf) as [H | H]; [discriminate | exact H]. }
  split.
  - intros f [Hf | Hf]; [apply Hc' in Hf | apply Hm' in Hf]; tauto.
  - intros f desc Hd. split; [| split].
    + intros Hex. split.
      * destruct (has_key cdata f) eqn:Hk; [| reflexivity].
        destruct (Hc' f Hk) as [_ [Hn | [d [Hd' [Hex' _]]]]]; congruence.
      * destruct (has_key ms f) eqn:Hk; [| reflexivity].
        destruct (Hm' f Hk) as [_ [d [Hd' [Hex' _]]]]; congruence.
    + intros Hfk. destruct (has_key cdata f) eqn:Hk; [| reflexivity].
      destruct (Hc' f Hk) as [_ [Hn | [d [Hd' [_ Hfk']]]]]; congruence.
    + intros Hor. destruct (has_key ms f) eqn:Hk; [| reflexivity].
      destruct (Hm' f Hk) as [_ [d [Hd' [_ [Hfk' Hm2m]]]]].
      destruct Hor; congruence.
Qed.

End RowShape.

(** ** Whole runs *)

Section MoreRuns.

Variables Store Obj : Type.
Variable orm : ORM Store Obj.

Implicit Types (w : World Store Obj) (self : Migration Store Obj).

Lemma filter_none (P Q : Event Obj -> bool) l :
  (forall e, P e = true -> Q e = false) ->
  forallb P l = true -> filter Q l = [].
Proof.
  intros HPQ Hall. apply length_zero_iff_nil.
  exact (@count_none _ P Q l HPQ Hall).
Qed.

Lemma process_rows_counts self total rs :
  forall current w w',
    process_rows orm self total current rs w = (inr tt, w') ->
    exists evs,
      log w' = (log w ++ evs)%list
      /\ count (@is_save Obj) evs = length rs
      /\ filter (@is_progress Obj) evs
         = map (fun i => EvProgress (current + Z.of_nat i) total)
             (seq 1 (length rs)).
Proof.
  induction rs as [| row rest IH]; intros current w w' Hrun.
  - simpl in Hrun. inversion Hrun. exists []. rewrite app_nil_r. auto.
  - simpl in Hrun.
    apply bind_inr in Hrun. destruct Hrun as [[] [w1 [He Hrun]]].
    apply emit_inv in He. destruct He as [_ ->].
    apply bind_inr in Hrun. destruct Hrun as [[] [w2 [Hc Hrest]]].
    apply create_instance_counts in Hc.
    destruct Hc as [evs1 [Hlog1 [Hsave1 [_ Hall1]]]].
    apply IH in Hrest. destruct Hrest as [evs2 [Hlog2 [Hsave2 Hprog2]]].
    exists (EvProgress (current + 1) total :: evs1 ++ evs2)%list.
    split; [| split].
    + rewrite Hlog2, Hlog1. simpl. rewrite <- !app_assoc. reflexivity.
    + change (EvProgress (current + 1) total :: evs1 ++ evs2)%list
        with ([EvProgress (Obj := Obj) (current + 1) total] ++ evs1 ++ evs2)%list.
      rewrite !count_app, Hsave1, Hsave2. reflexivity.
    + simpl. rewrite filter_app.
      rewrite (@filter_none (@row_event Obj) (@is_progress Obj) evs1)
        by (auto; intros []; simpl; congruence).
      rewrite Hprog2. simpl.
      rewrite <- (seq_shift (length rest) 1), map_map.
      f_equal. apply map_ext. intros i. f_equal. lia.
Qed.

(** X10: a fresh run that succeeds has saved exactly one instance for each
    row of the cursor and has reported progress once per row, counting
    from 1 up to the number of rows, each time against [cursor.rowcount]. *)
Theorem fresh_run_saves_each_row self cursor fields w w' :
  process_cursor orm self cursor fields w = (inr tt, w') ->
  exists evs,
    log w' = (log w ++ evs)%list
    /\ count (@is_save Obj) evs = length (rows cursor)
    /\ filter (@is_progress Obj) evs
       = map (fun i => EvProgress (Z.of_nat i) (rowcount cursor))
           (seq 1 (length (rows cursor))).
Proof.
  unfold process_cursor, fetchall. intros Hrun.
  apply bind_inr in Hrun. destruct Hrun as [[] [w1 [He Hrun]]].
  apply emit_inv in He. destruct He as [_ ->].
  apply bind_inr in Hrun. destruct Hrun as [[] [w2 [Hs Hrun]]].
  apply on_store__inv in Hs. destruct Hs as [s2 [_ ->]].
  apply bind_inr in Hrun. destruct Hrun as [rs [w3 [Hf Hrun]]].
  apply bind_inr in Hf. destruct Hf as [[] [w3' [He Hf]]].
  apply emit_inv in He. destruct He as [_ ->].
  inversion Hf; subst rs w3. clear Hf.
  apply bind_inr in Hrun. destruct Hrun as [[] [w4 [Hrows Hrun]]].
  apply process_rows_counts in Hrows.
  destruct Hrows as [evs [Hlog [Hsave Hprog]]].
  apply bind_inr in Hrun. destruct Hrun as [[] [w5 [He Hrun]]].
  apply emit_inv in He. destruct He as [_ ->].
  apply bind_inr in Hrun. destruct Hrun as [[] [w6 [Hs Hrun]]].
  apply on_store__inv in Hs. destruct Hs as [s6 [_ ->]].
  apply emit_inv in Hrun. destruct Hrun as [_ ->].
  exists ([EvHookBeforeAll; EvFetchAll] ++ evs
          ++ [EvHookAfterAll; EvPrint ""])%list.
  split; [| split].
  - simpl in *. rewrite Hlog. simpl. rewrite <- !app_assoc. reflexivity.
  - rewrite !count_app, Hsave. unfold count. simpl. lia.
  - rewrite !filter_app, Hprog. simpl. rewrite app_nil_r. reflexivity.
Qed.

(** X11: a fresh run over a cursor without rows still calls
    [hook_before_all] and [hook_after_all], in this order, and records the
    unit in the ledger: the store is the one the two hooks leave and nothing
    is looked up, constructed or saved. *)
Theorem fresh_run_without_rows self w connection cursor fields s1 s2 :
  ~ In (classname self) (ledger w) ->
  check_migration self = inr tt ->
  open_db_connection self = inr connection ->
  execute connection (query self) = inr cursor ->
  description cursor = Some fields ->
  rows cursor = [] ->
  hook_before_all self (store w) = inr s1 ->
  hook_after_all self s1 = inr s2 ->
  migrate orm self w
  = (inr tt,
     {| store := s2;
        ledger := (ledger w ++ [classname self])%list;
        log := (log w ++ [EvLedgerGet (classname self);
                          EvPrint ("Migrating " ++ classname self);
                          EvOpenConnection; EvExecute (query self);
                          EvHookBeforeAll; EvFetchAll; EvHookAfterAll;
                          EvPrint ""; EvLedgerCreate (classname self)])%list |}).
Proof.
  intros Hnot Hcheck Hopen Hexec Hdesc Hrows Hba Haa.
  rewrite (migrate_after_decision orm self w
             (migration_required_absent self w Hnot)).
  cbv [is_False is_None open_cursor process_cursor fetchall
       AppliedMigration_create bind emit lift ret raise on_store_ field_names].
  rewrite Hcheck, Hopen, Hexec, Hdesc, Hrows. simpl.
  rewrite Hba. simpl. rewrite Haa. simpl.
  unfold add_ledger, add_log, set_store. simpl.
  repeat (rewrite <- app_assoc; simpl). reflexivity.
Qed.

(** X12: running a unit that does not allow updates a second time changes
    nothing: after a run that succeeded, the next run only looks at the
    ledger and prints the skip notice; the store and the ledger stay. *)
Theorem second_run_is_a_skip self w w1 :
  NoDup (ledger w) ->
  allow_updates self = false ->
  migrate orm self w = (inr tt, w1) ->
  migrate orm self w1
  = (inr tt,
     add_log (EvPrint (classname self ++ " has already been migrated, skip it!"))
       (add_log (EvLedgerGet (classname self)) w1)).
Proof.
  intros Hnd Hno Hfirst.
  assert (Hnd1 : NoDup (ledger w1)).
  { pose proof (migrate_keeps_ledger_keyed orm self w Hnd) as H.
    rewrite Hfirst in H. exact H. }
  assert (Hin1 : In (classname self) (ledger w1)).
  { destruct (in_dec string_dec (classname self) (ledger w)) as [Hin | Hnot].
    - rewrite (migrate_after_decision orm self w
                 (migration_required_present self w Hnd Hin)) in Hfirst.
      rewrite Hno in Hfirst. simpl in Hfirst.
      inversion Hfirst; subst w1. exact Hin.
    - rewrite (migrate_after_decision orm self w
                 (migration_required_absent self w Hnot)) in Hfirst.
      simpl in Hfirst. apply fresh_run_ledger in Hfirst.
      destruct Hfirst as [evs [_ [[_ [Hl _]] | [[e He] _]]]];
        [| discriminate].
      rewrite Hl. apply in_or_app. right. left. reflexivity. }
  rewrite (migrate_after_decision orm self w1
             (migration_required_present self w1 Hnd1 Hin1)).
  rewrite Hno. reflexivity.
Qed.

(** X13: [migrate], and any sequence of [migrate], keeps the ledger keyed
    by unit: a ledger holding each unit at most once never gains a second
    record for a unit. *)
Theorem ledger_stays_keyed self order w :
  NoDup (ledger w) ->
  NoDup (ledger (snd (migrate orm self w)))
  /\ NoDup (ledger (snd (migrate_all orm order w))).
Proof.
  intros Hnd. split.
  - apply migrate_keeps_ledger_keyed. exact Hnd.
  - apply migrate_all_keeps_ledger_keyed. exact Hnd.
Qed.

(** X14: a run of [migrate] that raises has written nothing to the ledger,
    whatever the mode and wherever it failed; the unit is as applied, or as
    unapplied, as before. *)
Theorem failed_run_leaves_ledger self w e w' :
  migrate orm self w = (inl e, w') ->
  ledger w' = ledger w.
Proof.
  intros Hrun.
  destruct (migration_required self w) as [[e0 | check] w1] eqn:Hreq.
  - pose proof (migration_required_world self w Hreq) as ->.
    unfold migrate in Hrun. erewrite bind_fail in Hrun by exact Hreq.
    inversion Hrun. reflexivity.
  - pose proof (migration_required_world self w Hreq) as Hw1.
    rewrite (migrate_after_decision orm self w Hreq) in Hrun.
    destruct (is_False check); [discriminate |].
    destruct (is_None check).
    + assert (Hf : frame (@body_event Obj)
                  ('(cursor, fields) <- open_cursor self ;;
                   process_cursor_for_update orm self cursor fields)).
      { apply frame_bind; [apply open_cursor_frame |]. intros [c f].
        apply frame_weaken with (P := @update_event Obj);
          [intros []; simpl; congruence
          | apply process_cursor_for_update_frame]. }
      destruct (frame_run w1 Hf Hrun) as [Hl _]. rewrite Hl. subst w1.
      reflexivity.
    + apply fresh_run_ledger in Hrun.
      destruct Hrun as [evs [_ [[He _] | [_ [Hl _]]]]]; [discriminate |].
      rewrite Hl. subst w1. reflexivity.
Qed.

(** X15: a subclass that keeps the [open_db_connection] of the base class
    passes the validation and then fails with [ImproperlyConfigured]: no
    query is run, no hook called, and the store and the ledger are those of
    before. *)
Theorem base_connection_is_refused self w check w1 :
  migration_required self w = (inr check, w1) ->
  is_False check = false ->
  check_migration self = inr tt ->
  open_db_connection self = base_open_db_connection ->
  migrate orm self w
  = (inl (ImproperlyConfigured
            "You have to supply a suitable db connection for your DB"),
     {| store := store w; ledger := ledger w;
        log := (log w ++ [EvLedgerGet (classname self);
                          EvPrint ("Migrating " ++ classname self);
                          EvOpenConnection])%list |}).
Proof.
  intros Hreq Hrun Hcheck Hopen.
  pose proof (migration_required_world self w Hreq) as ->.
  rewrite (migrate_after_decision orm self w Hreq), Hrun.
  cbv [open_cursor bind emit lift raise ret]. rewrite Hcheck, Hopen.
  unfold base_open_db_connection, add_log. simpl.
  repeat (rewrite <- app_assoc; simpl). reflexivity.
Qed.

(** X16: in the update loop a row that lacks the column named by
    [search_attr] raises [KeyError] before any lookup, and the loop stops
    there: the rows after it are not looked at. *)
Theorem update_row_needs_search_column self total existing created row rest w a :
  search_attr self = Some a ->
  dict_get row a = None ->
  update_row orm self total existing created row w = (inl (KeyError a), w)
  /\ update_rows orm self total existing created (row :: rest) w
     = (inl (KeyError a), w).
Proof.
  intros Hsa Hrow.
  assert (Hone : update_row orm self total existing created row w
                 = (inl (KeyError a), w)).
  { unfold update_row. rewrite Hsa, is_a_skip_missing_desc.
    unfold row_item. rewrite Hrow. reflexivity. }
  split; [exact Hone |].
  simpl. erewrite bind_fail by exact Hone. reflexivity.
Qed.

End MoreRuns.

Section QueryAndProgress.

Variables Store Obj : Type.
Variable orm : ORM Store Obj.

Implicit Types (w : World Store Obj) (self : Migration Store Obj).

Lemma process_cursor_events self cursor fields :
  frame (@cursor_event Obj) (process_cursor orm self cursor fields).
Proof.
  unfold process_cursor, fetchall.
  apply frame_bind; [apply frame_emit; reflexivity | intros _].
  apply frame_bind; [apply frame_on_store_ | intros _].
  apply frame_bind.
  { apply frame_bind; [apply frame_emit; reflexivity | intros _].
    apply frame_ret. }
  intros rs.
  apply frame_bind.
  { apply frame_weaken with (P := @fresh_row_event Obj);
      [intros []; simpl; congruence | apply process_rows_frame]. }
  intros _.
  apply frame_bind; [apply frame_emit; reflexivity | intros _].
  apply frame_bind; [apply frame_on_store_ | intros _].
  apply frame_emit; reflexivity.
Qed.

Lemma process_cursor_for_update_events self cursor fields :
  frame (@cursor_event Obj) (process_cursor_for_update orm self cursor fields).
Proof.
  apply frame_weaken with (P := @update_event Obj);
    [intros []; simpl; congruence | apply process_cursor_for_update_frame].
Qed.

(** What the opening of the cursor logs. *)
Lemma open_cursor_log self w r w' :
  open_cursor self w = (r, w') ->
  exists evs,
    log w' = (log w ++ evs)%list
    /\ count (@is_execute Obj) evs <= 1
    /\ (forall q, In (EvExecute q) evs -> q = query self).
Proof.
  cbv [open_cursor bind emit lift raise ret]. simpl.
  destruct (check_migration self) as [e | []].
  { intros H; inversion H; subst. simpl. eexists. split; [reflexivity |].
    split; [unfold count; simpl; lia |].
    intros q [Hq | []]; discriminate. }
  destruct (open_db_connection self) as [e | connection].
  { intros H; inversion H; subst. simpl. eexists.
    rewrite <- app_assoc. split; [reflexivity |].
    split; [unfold count; simpl; lia |].
    intros q [Hq | [Hq | []]]; discriminate. }
  assert (Hq : forall q,
             In (EvExecute q)
               [EvPrint ("Migrating " ++ classname self); EvOpenConnection;
                @EvExecute Obj (query self)] -> q = query self).
  { intros q [Hq | [Hq | [Hq | []]]]; try discriminate. congruence. }
  destruct (execute connection (query self)) as [e | cursor].
  { intros H; inversion H; subst. simpl. eexists.
    rewrite <- !app_assoc. split; [reflexivity |].
    split; [unfold count; simpl; lia | exact Hq]. }
  destruct (field_names cursor) as [e | fields];
    (intros H; inversion H; subst; simpl; eexists;
     rewrite <- !app_assoc; split; [reflexivity |];
     split; [unfold count; simpl; lia | exact Hq]).
Qed.

Lemma no_execute_in_cursor_events (evs : list (Event Obj)) :
  forallb (@cursor_event Obj) evs = true ->
  count (@is_execute Obj) evs = 0
  /\ forall q, ~ In (EvExecute q) evs.
Proof.
  intros Hall. split.
  - apply (@count_none _ (@cursor_event Obj)); auto.
    intros []; simpl; congruence.
  - intros q Hin. rewrite forallb_forall in Hall.
    specialize (Hall _ Hin). discriminate.
Qed.

(** X17: a run of [migrate] executes a query at most once, and only the
    [query] of the unit: never for a skipped unit, never twice, in whatever
    mode and whether the run succeeds or raises. *)
Theorem query_runs_at_most_once self w :
  exists evs,
    log (snd (migrate orm self w)) = (log w ++ evs)%list
    /\ count (@is_execute Obj) evs <= 1
    /\ (forall q, In (EvExecute q) evs -> q = query self)
    /\ (forall check w1,
          migration_required self w = (inr check, w1) ->
          is_False check = true -> count (@is_execute Obj) evs = 0).
Proof.
  destruct (migration_required self w) as [[e | check] w1] eqn:Hreq.
  - pose proof (migration_required_world self w Hreq) as ->.
    unfold migrate. erewrite bind_fail by exact Hreq. simpl.
    eexists. split; [reflexivity |].
    split; [unfold count; simpl; lia |].
    split; [intros q [Hq | []]; discriminate | discriminate].
  - pose proof (migration_required_world self w Hreq) as Hw1.
    rewrite (migrate_after_decision orm self w Hreq).
    destruct (is_False check) eqn:Hskip.
    { subst w1. simpl. eexists. rewrite <- app_assoc. split; [reflexivity |].
      split; [unfold count; simpl; lia |].
      split; [intros q [Hq | [Hq | []]]; discriminate |].
      intros; reflexivity. }
    unfold bind at 1.
    destruct (open_cursor self w1) as [[e | [cursor fields]] w2] eqn:Hopen;
      apply open_cursor_log in Hopen;
      destruct Hopen as [evo [Hlogo [Hco Hqo]]].
    { simpl. exists (EvLedgerGet (classname self) :: evo).
      rewrite Hlogo. subst w1. simpl. rewrite <- app_assoc.
      split; [reflexivity |].
      split; [exact Hco |].
      split; [intros q [Hq | Hq]; [discriminate | auto] |].
      intros c' w1' H. inversion H; subst. congruence. }
    assert (Hbody : exists evb,
      log (snd ((if is_None check
                 then process_cursor_for_update orm self cursor fields
                 else process_cursor orm self cursor fields ;;
                      AppliedMigration_create (classname self)) w2))
      = (log w2 ++ evb)%list
      /\ count (@is_execute Obj) evb = 0
      /\ forall q, ~ In (EvExecute q) evb).
    { destruct (is_None check).
      - destruct (process_cursor_for_update_events self cursor fields w2)
          as [_ [evb [Hlogb Hallb]]].
        exists evb. split; [exact Hlogb |].
        apply no_execute_in_cursor_events. exact Hallb.
      - unfold bind.
        destruct (process_cursor_events self cursor fields w2)
          as [_ [evb [Hlogb Hallb]]].
        apply no_execute_in_cursor_events in Hallb.
        destruct Hallb as [Hcb Hqb].
        destruct (process_cursor orm self cursor fields w2) as [[e | []] w3];
          simpl in *.
        + exists evb. auto.
        + exists (evb ++ [EvLedgerCreate (classname self)])%list.
          rewrite Hlogb, <- app_assoc. split; [reflexivity |].
          split.
          * rewrite count_app, Hcb. reflexivity.
          * intros q Hin. apply in_app_or in Hin.
            destruct Hin as [Hin | [Hin | []]];
              [exact (Hqb q Hin) | discriminate]. }
    destruct Hbody as [evb [Hlogb [Hcb Hqb]]].
    exists (EvLedgerGet (classname self) :: evo ++ evb)%list.
    rewrite Hlogb, Hlogo. subst w1. simpl. rewrite <- !app_assoc.
    split; [reflexivity |].
    change (EvLedgerGet (classname self) :: evo ++ evb)%list
      with ([EvLedgerGet (Obj := Obj) (classname self)] ++ evo ++ evb)%list.
    rewrite !count_app, Hcb.
    split; [unfold count at 1; simpl; lia |].
    split.
    + intros q [Hq | Hin]; [discriminate |].
      apply in_app_or in Hin. destruct Hin as [Hin | Hin];
        [auto | exfalso; exact (Hqb q Hin)].
    + intros c' w1' H. inversion H; subst. congruence.
Qed.

(** One row of the update loop reports progress once, with the counters it
    returns, one of which it has raised by one. *)
Lemma update_row_report self total existing created row w ex' cr' w' :
  update_row orm self total existing created row w = (inr (ex', cr'), w') ->
  exists evs,
    log w' = (log w ++ evs)%list
    /\ filter (@is_update_progress Obj) evs = [EvUpdateProgress ex' cr' total]
    /\ (ex' + cr' = existing + created + 1)%Z.
Proof.
  unfold update_row. intros Hrun.
  apply bind_inr in Hrun. destruct Hrun as [desc [w1 [Hd Hrun]]].
  unfold lift in Hd.
  destruct (is_a (model self) (search_attr self) _) as [e | d] eqn:Hisa;
    [discriminate |]. inversion Hd; subst d w1. clear Hd.
  apply bind_inr in Hrun. destruct Hrun as [key [w2 [Hk Hrun]]].
  unfold lift in Hk. destruct (row_item row (search_attr self)) as [e | v];
    [discriminate |]. inversion Hk; subst v w2. clear Hk.
  apply bind_inr in Hrun. destruct Hrun as [element [w3 [Hget Hrun]]].
  assert (Hklass : exists k, klass desc = IsModel k).
  { unfold get_object in Hget.
    destruct (klass desc) as [k | n | v]; try discriminate. eauto. }
  destruct Hklass as [k Hklass].
  pose proof (get_object_world _ _ _ _ _ Hklass Hget) as Hw3. subst w3.
  destruct element as [e |].
  - apply bind_inr in Hrun. destruct Hrun as [[] [w4 [He Hrun]]].
    apply emit_inv in He. destruct He as [_ ->].
    apply bind_inr in Hrun. destruct Hrun as [[] [w5 [He Hrun]]].
    apply emit_inv in He. destruct He as [_ ->].
    apply bind_inr in Hrun. destruct Hrun as [[] [w6 [Hs Hrun]]].
    apply on_store__inv in Hs. destruct Hs as [s [_ ->]].
    inversion Hrun; subst. simpl.
    eexists. rewrite <- !app_assoc. simpl. split; [reflexivity |].
    split; [reflexivity | lia].
  - apply bind_inr in Hrun. destruct Hrun as [[] [w4 [He Hrun]]].
    apply emit_inv in He. destruct He as [_ ->].
    apply bind_inr in Hrun. destruct Hrun as [[] [w5 [Hc Hrun]]].
    inversion Hrun; subst. clear Hrun.
    apply create_instance_counts in Hc.
    destruct Hc as [evs [Hlog [_ [_ Hall]]]].
    eexists. rewrite Hlog. simpl. rewrite <- !app_assoc. simpl.
    split; [reflexivity |]. simpl.
    rewrite (@filter_none _ (@row_event Obj) (@is_update_progress Obj) evs)
      by (auto; intros []; simpl; congruence).
    split; [reflexivity | lia].
Qed.

Lemma update_rows_reports self total rs :
  forall existing created w w',
    update_rows orm self total existing created rs w = (inr tt, w') ->
    exists evs reports,
      log w' = (log w ++ evs)%list
      /\ filter (@is_update_progress Obj) evs
         = map (fun ec => EvUpdateProgress (fst ec) (snd ec) total) reports
      /\ length reports = length rs
      /\ forall i ec, nth_error reports i = Some ec ->
           (fst ec + snd ec = existing + created + Z.of_nat (S i))%Z.
Proof.
  induction rs as [| row rest IH]; intros existing created w w' Hrun.
  - simpl in Hrun. inversion Hrun. exists [], []. rewrite app_nil_r.
    repeat split; auto. intros [| i] ec H; discriminate.
  - simpl in Hrun. apply bind_inr in Hrun.
    destruct Hrun as [[e c] [w1 [Hrow Hrest]]].
    apply update_row_report in Hrow.
    destruct Hrow as [evs1 [Hlog1 [Hf1 Hsum1]]].
    apply IH in Hrest.
    destruct Hrest as [evs2 [reports [Hlog2 [Hf2 [Hlen Hnth]]]]].
    exists (evs1 ++ evs2)%list, ((e, c) :: reports).
    split; [rewrite Hlog2, Hlog1, app_assoc; reflexivity |].
    split; [rewrite filter_app, Hf1, Hf2; reflexivity |].
    split; [simpl; rewrite Hlen; reflexivity |].
    intros [| i] ec H; simpl in H.
    + inversion H; subst. simpl. lia.
    + apply Hnth in H. lia.
Qed.

(** X18: in an update run that succeeds, progress is reported once per
    row, and the report of the i-th row has existing + created = i: each
    row has been counted once, as existing or as created. *)
Theorem update_run_reports_each_row self cursor fields w w' :
  process_cursor_for_update orm self cursor fields w = (inr tt, w') ->
  exists evs reports,
    log w' = (log w ++ evs)%list
    /\ filter (@is_update_progress Obj) evs
       = map (fun ec => EvUpdateProgress (fst ec) (snd ec) (rowcount cursor))
           reports
    /\ length reports = length (rows cursor)
    /\ forall i ec, nth_error reports i = Some ec ->
         (fst ec + snd ec = Z.of_nat (S i))%Z.
Proof.
  unfold process_cursor_for_update, fetchall. intros Hrun.
  apply bind_inr in Hrun. destruct Hrun as [rs [w1 [Hf Hrun]]].
  apply bind_inr in Hf. destruct Hf as [[] [w0 [He Hf]]].
  apply emit_inv in He. destruct He as [_ ->].
  inversion Hf; subst rs w1. clear Hf.
  apply bind_inr in Hrun. destruct Hrun as [[] [w2 [Hrows He]]].
  apply emit_inv in He. destruct He as [_ ->].
  apply update_rows_reports in Hrows.
  destruct Hrows as [evs [reports [Hlog [Hfil [Hlen Hnth]]]]].
  exists ([EvFetchAll] ++ evs ++ [EvPrint ""])%list, reports.
  split; [simpl in *; rewrite Hlog; simpl; rewrite <- !app_assoc; reflexivity |].
  split; [rewrite !filter_app, Hfil; simpl; rewrite app_nil_r; reflexivity |].
  split; [exact Hlen |].
  intros i ec H. apply Hnth in H. lia.
Qed.

End QueryAndProgress.

(** ** Further runs on the in-memory store *)

Lemma skip_missing_needs_own_model_witness :
  get_object mem_orm TolerantCommentMigration author_desc (PyStr "3")
    empty_world
  = (inl (DoesNotExist Author),
     add_log (EvGet Author (attr author_desc) (PyStr "3")) empty_world).
Proof.
  apply (@skip_missing_needs_own_model _ _ mem_orm TolerantCommentMigration
           author_desc (PyStr "3") empty_world Author Comment).
  - reflexivity.
  - reflexivity.
  - discriminate.
  - intros [].
  - reflexivity.
Defined.

Lemma undescribed_row_witness :
  transform_row_dataset mem_orm AuthorMigration
    [("id", PyStr "1"); ("name", PyStr "Ann")] empty_world
  = (inr (raw_cells MemObj [("id", PyStr "1"); ("name", PyStr "Ann")], []),
     empty_world).
Proof.
  apply (@undescribed_row_passes_through _ _ mem_orm AuthorMigration []
           [("id", PyStr "1"); ("name", PyStr "Ann")] empty_world).
  - reflexivity.
  - repeat constructor; simpl; intuition discriminate.
  - intros f _. reflexivity.
Defined.

Lemma transformed_row_shape_witness :
  (forall f,
      has_key [("parent", @CRaw MemObj PyNone)] f = true
      \/ has_key (@nil (string * list MemObj)) f = true ->
      In f (map fst [("parent", PyStr "9")]))
  /\ (forall f desc,
        dict_get [("parent", parent_desc)] f = Some desc ->
        (exclude desc = true ->
         has_key [("parent", @CRaw MemObj PyNone)] f = false
         /\ has_key (@nil (string * list MemObj)) f = false)
        /\ (fk desc || o2o desc = false ->
            has_key [("parent", @CRaw MemObj PyNone)] f = false)
        /\ (fk desc || o2o desc = true \/ m2m desc = false ->
            has_key (@nil (string * list MemObj)) f = false)).
Proof.
  apply (@transformed_row_shape _ _ mem_orm CategoryMigration
           [("parent", parent_desc)] [("parent", PyStr "9")] empty_world
           [("parent", CRaw PyNone)] []
           (add_log (EvGet Category "id" (PyStr "9")) empty_world)).
  - reflexivity.
  - reflexivity.
Defined.

Lemma fresh_run_saves_each_row_witness :
  let w' := snd (process_cursor mem_orm AuthorMigration author_cursor []
                   empty_world) in
  exists evs,
    log w' = (log empty_world ++ evs)%list
    /\ count (@is_save MemObj) evs = length (rows author_cursor)
    /\ filter (@is_progress MemObj) evs
       = map (fun i => EvProgress (Z.of_nat i) (rowcount author_cursor))
           (seq 1 (length (rows author_cursor))).
Proof.
  intros w'.
  apply (@fresh_run_saves_each_row _ _ mem_orm AuthorMigration author_cursor
           [] empty_world w').
  vm_compute. reflexivity.
Defined.

Lemma fresh_run_without_rows_witness :
  migrate mem_orm CommentMigration empty_world
  = (inr tt,
     {| store := [];
        ledger := ["CommentMigration"];
        log := [EvLedgerGet "CommentMigration";
                EvPrint "Migrating CommentMigration";
                EvOpenConnection; EvExecute (PyStr "SELECT * FROM comments");
                EvHookBeforeAll; EvFetchAll; EvHookAfterAll;
                EvPrint ""; EvLedgerCreate "CommentMigration"] |}).
Proof.
  refine (@fresh_run_without_rows _ _ mem_orm CommentMigration empty_world
            _ _ [] [] [] _ eq_refl eq_refl eq_refl eq_refl eq_refl eq_refl
            eq_refl).
  intros [].
Defined.

Lemma second_run_witness :
  let w1 := snd (migrate mem_orm AuthorMigration empty_world) in
  migrate mem_orm AuthorMigration w1
  = (inr tt,
     add_log (EvPrint (classname AuthorMigration
                       ++ " has already been migrated, skip it!"))
       (add_log (EvLedgerGet (classname AuthorMigration)) w1)).
Proof.
  intros w1.
  apply (@second_run_is_a_skip _ _ mem_orm AuthorMigration empty_world w1).
  - constructor.
  - reflexivity.
  - vm_compute. reflexivity.
Defined.

Lemma ledger_stays_keyed_witness :
  NoDup (ledger (snd (migrate mem_orm AuthorMigration
                        (applied "AuthorMigration"))))
  /\ NoDup (ledger (snd (migrate_all mem_orm
                           [AuthorMigration; CommentMigration]
                           (applied "AuthorMigration")))).
Proof.
  apply (@ledger_stays_keyed _ _ mem_orm AuthorMigration
           [AuthorMigration; CommentMigration] (applied "AuthorMigration")).
  repeat constructor. intros [].
Defined.

Lemma failed_run_witness :
  ledger (snd (migrate mem_orm BrokenMigration empty_world))
  = ledger empty_world.
Proof.
  apply (@failed_run_leaves_ledger _ _ mem_orm BrokenMigration empty_world
           (ImproperlyConfigured
              "BrokenMigration: `column_description` has to be a dict")).
  vm_compute. reflexivity.
Defined.

Lemma base_connection_witness :
  migrate mem_orm UnconnectedMigration empty_world
  = (inl (ImproperlyConfigured
            "You have to supply a suitable db connection for your DB"),
     {| store := []; ledger := [];
        log := [EvLedgerGet "UnconnectedMigration";
                EvPrint "Migrating UnconnectedMigration";
                EvOpenConnection] |}).
Proof.
  exact (@base_connection_is_refused _ _ mem_orm UnconnectedMigration
           empty_world (Some true)
           (add_log (EvLedgerGet "UnconnectedMigration") empty_world)
           eq_refl eq_refl eq_refl eq_refl).
Defined.

Lemma update_row_needs_search_column_witness :
  update_row mem_orm UpdatableAuthorMigration (-1) 0 0
    [("name", PyStr "Ann")] with_ann
  = (inl (KeyError "id"), with_ann)
  /\ update_rows mem_orm UpdatableAuthorMigration (-1) 0 0
       [[("name", PyStr "Ann")]; [("id", PyStr "1")]] with_ann
     = (inl (KeyError "id"), with_ann).
Proof.
  exact (@update_row_needs_search_column _ _ mem_orm UpdatableAuthorMigration
           (-1)%Z 0%Z 0%Z [("name", PyStr "Ann")] [[("id", PyStr "1")]]
           with_ann "id" eq_refl eq_refl).
Defined.

Lemma update_run_reports_witness :
  let w' := snd (process_cursor_for_update mem_orm UpdatableAuthorMigration
                   author_cursor [] with_ann) in
  exists evs reports,
    log w' = (log with_ann ++ evs)%list
    /\ filter (@is_update_progress MemObj) evs
       = map (fun ec => EvUpdateProgress (fst ec) (snd ec)
                          (rowcount author_cursor)) reports
    /\ length reports = length (rows author_cursor)
    /\ forall i ec, nth_error reports i = Some ec ->
         (fst ec + snd ec = Z.of_nat (S i))%Z.
Proof.
  intros w'.
  apply (@update_run_reports_each_row _ _ mem_orm UpdatableAuthorMigration
           author_cursor [] with_ann w').
  vm_compute. reflexivity.
Defined.
